(** * zimports: a shallow embedding of [zimports.py]

    The development follows the layout of the Python module.  Python values
    are modelled as follows.

    - [str] is [string]; a character is a code point below 256.
    - [int] is [Z]; a line number is a 1-based [Z], and list subscripts follow
      Python (a negative subscript counts from the end, an out-of-range one
      raises [IndexError]).
    - [float] is the IEEE 754 binary64 type [float] of the kernel.
    - a [set] of [int] or of tuples is a [gset]; a [set] of AST nodes (hashed
      by object identity) is the list of its members together with an
      iteration order that the program does not control.
    - an exception is the [Raise] branch of [result].

    The parser ([ast.parse]), the checker ([pyflakes.checker.Checker]), the
    module loader ([importlib]), the standard-library table
    ([flake8_import_order.STDLIB_NAMES]), [difflib] and the file system are
    collaborators outside the module: they are variables of the sections
    that use them. *)

From Stdlib Require Import ZArith String Ascii List Bool Lia Floats.
From Stdlib Require Import Permutation Sorted QArith.
From stdpp Require Import base option list gmap sets strings sorting.

Local Open Scope string_scope.
Local Open Scope list_scope.
Local Open Scope Z_scope.

Set Default Proof Using "Type".

(** ** Exceptions *)

Inductive exn : Set :=
| SyntaxError
| IndexError
| AssertionError
| ModuleNotFoundError
| IOError
| Exception (msg : string).

Inductive result (A : Type) : Type :=
| Ok (a : A)
| Raise (e : exn).
Arguments Ok {A} a.
Arguments Raise {A} e.

#[global] Instance result_ret : MRet result := fun _ a => Ok a.
#[global] Instance result_fmap : FMap result := fun _ _ f r =>
  match r with
  | Ok a => Ok (f a)
  | Raise e => Raise e
  end.
#[global] Instance result_bind : MBind result := fun _ _ k r =>
  match r with
  | Ok a => k a
  | Raise e => Raise e
  end.

Definition is_ok {A : Type} (r : result A) : bool :=
  match r with Ok _ => true | Raise _ => false end.

(** ** Strings *)

Definition ord (c : ascii) : Z := Z.of_nat (nat_of_ascii c).

(** [str.isspace] on one character, which is also what [\s] matches. *)
Definition isspace (c : ascii) : bool :=
  let n := ord c in
  ((9 <=? n) && (n <=? 13)) || ((28 <=? n) && (n <=? 32))
  || (n =? 133) || (n =? 160).

Definition str_empty (s : string) : bool :=
  match s with EmptyString => true | String _ _ => false end.

(** [s.rstrip()] *)
Fixpoint rstrip (s : string) : string :=
  match s with
  | EmptyString => EmptyString
  | String c s' =>
      let r := rstrip s' in
      if str_empty r && isspace c then EmptyString else String c r
  end.

Definition lower_char (c : ascii) : ascii :=
  let n := ord c in
  if ((65 <=? n) && (n <=? 90))
     || ((192 <=? n) && (n <=? 222) && negb (n =? 215))
  then ascii_of_nat (Z.to_nat (n + 32)) else c.

(** [s.lower()] *)
Fixpoint lower (s : string) : string :=
  match s with
  | EmptyString => EmptyString
  | String c s' => String (lower_char c) (lower s')
  end.

(** [s.startswith(p)] *)
Definition startswith (s p : string) : bool := String.prefix p s.

(** [s.split(sep)] for a one-character separator: [cur] is the field being
    read, in reverse. *)
Fixpoint split_aux (sep : ascii) (s : string) (cur : string) : list string :=
  match s with
  | EmptyString => [String.rev cur]
  | String c s' =>
      if Ascii.eqb c sep then String.rev cur :: split_aux sep s' EmptyString
      else split_aux sep s' (String c cur)
  end.

Definition split (sep : ascii) (s : string) : list string :=
  split_aux sep s EmptyString.

(** [sep.join(l)] *)
Definition join (sep : string) (l : list string) : string :=
  String.concat sep l.

(** [c * n] for a one-character string [c] *)
Definition str_repeat (c : ascii) (n : Z) : string :=
  string_of_list_ascii (repeat c (Z.to_nat n)).

(** Truth value of a string that may be [None]. *)
Definition truthy (o : option string) : bool :=
  match o with
  | Some s => negb (str_empty s)
  | None => false
  end.

(** [o or ""] *)
Definition or_empty (o : option string) : string :=
  match o with
  | Some s => s
  | None => EmptyString
  end.

(** ** Lists *)

(** [l[i]] *)
Definition py_index {A : Type} (l : list A) (i : Z) : result A :=
  let n := Z.of_nat (length l) in
  let j := if i <? 0 then i + n else i in
  if (0 <=? j) && (j <? n) then
    match nth_error l (Z.to_nat j) with
    | Some x => Ok x
    | None => Raise IndexError
    end
  else Raise IndexError.

(** [l[i] = x] *)
Definition py_setitem {A : Type} (l : list A) (i : Z) (x : A) : result (list A) :=
  let n := Z.of_nat (length l) in
  let j := if i <? 0 then i + n else i in
  if (0 <=? j) && (j <? n) then Ok (<[Z.to_nat j := x]> l)
  else Raise IndexError.

(** [range(a, b)] *)
Definition range (a b : Z) : list Z := seqZ a (b - a).

(** [enumerate(l, start)] *)
Fixpoint enumerate {A : Type} (start : Z) (l : list A) : list (Z * A) :=
  match l with
  | [] => []
  | x :: l' => (start, x) :: enumerate (start + 1) l'
  end.

(** ** The syntax tree, as far as the module reads it *)

Record alias : Set := mk_alias {
  name : string;
  asname : option string
}.

Inductive import_kind : Set := Import | ImportFrom.

(** An [ast.Import] or [ast.ImportFrom] node with the two attributes the
    module adds ([noqa], [nosort]).  [module] and [level] are read on
    [ImportFrom] nodes only. *)
Record import_node : Set := mk_import {
  kind : import_kind;
  module : option string;
  level : Z;
  names : list alias;
  lineno : Z;
  noqa : bool;
  nosort : bool
}.

Definition set_names (n : import_node) (l : list alias) : import_node :=
  mk_import (kind n) (module n) (level n) l (lineno n) (noqa n) (nosort n).

Definition set_flags (n : import_node) (q s : bool) : import_node :=
  mk_import (kind n) (module n) (level n) (names n) (lineno n) q s.

(** ** Numbers

    [import_proportion] is the [int] 0 or a [float]; the threshold is an
    [int]. *)
Inductive pynum : Set :=
| PyInt (z : Z)
| PyFloat (f : float).

(** [float(z)]: the nearest binary64 number, ties to even. *)
Definition float_of_Z (z : Z) : float :=
  SF2Prim (binary_normalize prec emax z 0 false).

(** [f < z] for a float and an integer.  Python compares the two values
    exactly, without rounding the integer: a finite [f] is [m * 2^e]. *)
Definition float_lt_Z (f : float) (z : Z) : bool :=
  match Prim2SF f with
  | S754_zero _ => 0 <? z
  | S754_infinity negative => negative
  | S754_nan => false
  | S754_finite negative m e =>
      let m := if negative then - Z.pos m else Z.pos m in
      if 0 <=? e then m * 2 ^ e <? z else m <? z * 2 ^ (- e)
  end.

(** [a < z] *)
Definition pynum_lt_Z (a : pynum) (z : Z) : bool :=
  match a with
  | PyInt x => x <? z
  | PyFloat f => float_lt_Z f z
  end.

(** The accumulator [stats]; a key that is not set yet reads as zero.  The
    two clock readings are left out. *)
Record stats : Set := mk_stats {
  names_from_star : Z;
  star_imports_removed : Z;
  removed_imports : Z;
  import_proportion : pynum;
  import_line_delta : Z;
  added : Z;
  removed : Z;
  is_changed : bool
}.

Definition stats0 : stats := mk_stats 0 0 0 (PyInt 0) 0 0 0 false.

Definition set_names_from_star (s : stats) (v : Z) : stats :=
  mk_stats v (star_imports_removed s) (removed_imports s)
    (import_proportion s) (import_line_delta s) (added s) (removed s)
    (is_changed s).

Definition set_star_imports_removed (s : stats) (v : Z) : stats :=
  mk_stats (names_from_star s) v (removed_imports s)
    (import_proportion s) (import_line_delta s) (added s) (removed s)
    (is_changed s).

Definition set_removed_imports (s : stats) (v : Z) : stats :=
  mk_stats (names_from_star s) (star_imports_removed s) v
    (import_proportion s) (import_line_delta s) (added s) (removed s)
    (is_changed s).

(** ** [_write_singlename_import] *)

Definition render_alias (a : alias) : string :=
  if truthy (asname a) then name a +:+ " as " +:+ or_empty (asname a)
  else name a.

Definition render_flags (n : import_node) : string :=
  (if noqa n then "  # noqa" else "") +:+ (if nosort n then " nosort" else "").

Definition _write_singlename_import (n : import_node) : result string :=
  a ← py_index (names n) 0;
  match kind n with
  | Import => Ok ("import " +:+ render_alias a +:+ render_flags n)
  | ImportFrom =>
      Ok ("from " +:+ str_repeat "." (level n) +:+ or_empty (module n)
          +:+ " import " +:+ render_alias a +:+ render_flags n)
  end.

(** ** [_write_source] *)

(** The body of [for j, imports in enumerate(grouped_imports)]: the state is
    [(buf, has_imports)]. *)
Fixpoint mapM {A B : Type} (f : A -> result B) (l : list A) : result (list B) :=
  match l with
  | [] => Ok []
  | x :: l' => y ← f x; ys ← mapM f l'; Ok (y :: ys)
  end.

Fixpoint write_groups (groups : list (list import_node))
    (buf : list string) (has_imports : bool) : result (list string * bool) :=
  match groups with
  | [] => Ok (buf, has_imports)
  | imports :: rest =>
      rendered ← mapM _write_singlename_import imports;
      let buf := buf ++ rendered in
      match imports with
      | [] => write_groups rest buf has_imports
      | _ :: _ => write_groups rest (buf ++ [""]) true
      end
  end.

(** [if has_imports: del buf[-1]] *)
Definition trim_last (st : list string * bool) : list string * bool :=
  (if st.2 then removelast st.1 else st.1, st.2).

(** The body of [for lineno, line in enumerate(source_lines, 1)]. *)
Definition write_line (grouped_imports : list (list import_node))
    (import_gap_lines : gset Z) (imports_start_on : Z)
    (lineno : Z) (line : string) (st : list string * bool)
  : result (list string * bool) :=
  st ← (if lineno =? imports_start_on
        then trim_last <$> write_groups grouped_imports st.1 st.2
        else Ok st);
  Ok (if bool_decide (lineno ∈ import_gap_lines) then st.1
      else st.1 ++ [rstrip line], st.2).

Fixpoint write_lines (todo : list (Z * string))
    (grouped_imports : list (list import_node)) (import_gap_lines : gset Z)
    (imports_start_on : Z) (st : list string * bool)
  : result (list string) :=
  match todo with
  | [] => Ok st.1
  | (lineno, line) :: rest =>
      st ← write_line grouped_imports import_gap_lines imports_start_on
             lineno line st;
      write_lines rest grouped_imports import_gap_lines imports_start_on st
  end.

Definition _write_source (source_lines : list string)
    (grouped_imports : list (list import_node)) (import_gap_lines : gset Z)
    (imports_start_on : Z) : result (list string) :=
  write_lines (enumerate 1 source_lines) grouped_imports import_gap_lines
    imports_start_on ([], false).

(** The first lines of [main]'s loop body:
    [source_lines = [line.rstrip() for line in file_]]. *)
Definition read_source_lines (file_ : list string) : list string :=
  map rstrip file_.

(** ** [_is_whitespace_or_comment] *)

Fixpoint lstrip (s : string) : string :=
  match s with
  | EmptyString => EmptyString
  | String c s' => if isspace c then lstrip s' else s
  end.

Definition triple (c : ascii) : string := String c (String c (String c "")).

(** The four patterns all start with [^\s*]; what follows the leading white
    space is nothing, a hash, three single quotes or three double quotes. *)
Definition _is_whitespace_or_comment (line : string) : bool :=
  let rest := lstrip line in
  str_empty rest
  || startswith rest "#"
  || startswith rest (triple "'")
  || startswith rest (triple (ascii_of_nat 34)).

(** ** [_get_import_discard_lines] *)

(** [for gap in range(prev + 1, lineno)], with its [break]. *)
Fixpoint sweep_segment (source_lines : list string) (lines_with_code : gset Z)
    (gaps : list Z) (import_gap_lines : gset Z) : result (gset Z) :=
  match gaps with
  | [] => Ok import_gap_lines
  | gap :: rest =>
      if bool_decide (gap ∈ lines_with_code) then Ok import_gap_lines
      else
        line ← py_index source_lines (gap - 1);
        sweep_segment source_lines lines_with_code rest
          (if _is_whitespace_or_comment line then import_gap_lines
           else import_gap_lines ∪ {[gap]})
  end.

(** [for lineno in [node.lineno for node in imports] + [len(source_lines) + 1]] *)
Fixpoint sweep_imports (source_lines : list string) (lines_with_code : gset Z)
    (linenos : list Z) (prev : option Z) (import_gap_lines : gset Z)
  : result (gset Z) :=
  match linenos with
  | [] => Ok import_gap_lines
  | lineno :: rest =>
      gaps ← match prev with
             | None => Ok import_gap_lines
             | Some p =>
                 sweep_segment source_lines lines_with_code
                   (range (p + 1) lineno) import_gap_lines
             end;
      sweep_imports source_lines lines_with_code rest (Some lineno) gaps
  end.

(** [for lineno in range(gap_line + 1, sorted_gap_lines[index + 1])] *)
Fixpoint blank_run (source_lines : list string) (linenos : list Z)
    (intermediary_whitespace_lines : list Z) : result (list Z) :=
  match linenos with
  | [] => Ok intermediary_whitespace_lines
  | lineno :: rest =>
      line ← py_index source_lines (lineno - 1);
      blank_run source_lines rest
        (if str_empty (rstrip line)
         then intermediary_whitespace_lines ++ [lineno] else [])
  end.

(** [for index, gap_line in enumerate(sorted_gap_lines[0:-1])] *)
Fixpoint sweep_blank (source_lines : list string) (sorted_gap_lines : list Z)
    (import_gap_lines : gset Z) : result (gset Z) :=
  match sorted_gap_lines with
  | gap_line :: ((next :: _) as rest) =>
      ws ← blank_run source_lines (range (gap_line + 1) next) [];
      sweep_blank source_lines rest (import_gap_lines ∪ list_to_set ws)
  | _ => Ok import_gap_lines
  end.

(** [sorted(s)] for a set of integers *)
Definition sorted_Z (s : gset Z) : list Z := merge_sort Z.le (elements s).

Definition _get_import_discard_lines (source_lines : list string)
    (imports : list import_node) (lines_with_code : gset Z) : result (gset Z) :=
  let import_gap_lines : gset Z := list_to_set (map lineno imports) in
  gaps ← sweep_imports source_lines lines_with_code
           (map lineno imports ++ [Z.of_nat (length source_lines) + 1])
           None import_gap_lines;
  sweep_blank source_lines (sorted_Z gaps) gaps.

(** ** The tree that [ast.parse] returns

    A node is the module, a node that carries [lineno] (statements and
    expressions) or a node that does not (operators, contexts, ...).  The
    module tells [ast.Import] and [ast.ImportFrom] from the other classes;
    [ast.Name] is singled out for the checker. *)

Inductive located_kind : Set :=
| KImport (ns : list alias)
| KImportFrom (m : option string) (lv : Z) (ns : list alias)
| KName (id : string)
| KOther.

#[warnings="-register-all"]
Inductive ast : Set :=
| Module_ (body : list ast)
| Located (k : located_kind) (line : Z) (children : list ast)
| Unlocated (children : list ast).

Definition iter_child_nodes (t : ast) : list ast :=
  match t with
  | Module_ body => body
  | Located _ _ cs => cs
  | Unlocated cs => cs
  end.

Fixpoint ast_size (t : ast) : nat :=
  match t with
  | Module_ body => S (list_sum (map ast_size body))
  | Located _ _ cs => S (list_sum (map ast_size cs))
  | Unlocated cs => S (list_sum (map ast_size cs))
  end.

(** [ast.walk]: breadth first, from a queue.  Each node is paired with its
    parent, the attribute that running the checker adds to it. *)
Fixpoint walk_queue (fuel : nat) (todo : list (option ast * ast))
  : list (option ast * ast) :=
  match fuel, todo with
  | S fuel, (parent, node) :: rest =>
      (parent, node)
        :: walk_queue fuel (rest ++ map (pair (Some node)) (iter_child_nodes node))
  | _, _ => []
  end.

Definition walk (tree : ast) : list (option ast * ast) :=
  walk_queue (ast_size tree) [(None, tree)].

Definition node_lineno (t : ast) : option Z :=
  match t with
  | Located _ line _ => Some line
  | _ => None
  end.

Definition is_module (t : option ast) : bool :=
  match t with
  | Some (Module_ _) => true
  | _ => false
  end.

(** [node for node in ast.walk(tree)
     if isinstance(node, (ast.Import, ast.ImportFrom))
        and isinstance(node.parent, ast.Module)] *)
Definition toplevel_import (pn : option ast * ast) : option import_node :=
  match pn.2 with
  | Located (KImport ns) line _ =>
      if is_module pn.1
      then Some (mk_import Import None 0 ns line false false) else None
  | Located (KImportFrom m lv ns) line _ =>
      if is_module pn.1
      then Some (mk_import ImportFrom m lv ns line false false) else None
  | _ => None
  end.

(** A message of the checker: [UnusedImport] with [message_args[0]] and
    [lineno], or any other class. *)
Inductive message : Set :=
| UnusedImport (arg0 : string) (line : Z)
| OtherMessage (line : Z).

(** ** The directive comment: [re.match(r".* # noqa( nosort)?", line)]

    [.*] is greedy, so the match found is the one at the last [" # noqa"]
    that only characters other than a newline precede; the result is
    [group(1)] as a truth value. *)
Fixpoint match_noqa (line : string) : option bool :=
  match line with
  | EmptyString => None
  | String c rest =>
      match (if Ascii.eqb c (ascii_of_nat 10) then None else match_noqa rest) with
      | Some g => Some g
      | None =>
          if startswith line " # noqa"
          then Some (startswith (String.substring 7 (String.length line - 7) line)
                       " nosort")
          else None
      end
  end.

(** The loop [for import_node in imports] of [_parse_toplevel_imports]. *)
Definition mark_directives (source_lines : list string) (n : import_node)
  : result import_node :=
  line ← py_index source_lines (lineno n - 1);
  match match_noqa (rstrip line) with
  | Some g => Ok (set_flags n true g)
  | None => Ok (set_flags n false false)
  end.

(** ** [_remove_unused_names] *)

(** The [warning_key] of an [ImportFrom] node. *)
Definition warning_key (n : import_node) : string :=
  str_repeat "." (level n)
  +:+ (if truthy (module n) then or_empty (module n) +:+ "." else "")
  +:+ join "." (map render_alias (names n)).

(** The body of [for import_node in imports]: the node after the pass and
    the number of names taken from it. *)
Definition remove_from_node (remove_imports : gset (string * Z))
    (n : import_node) : import_node * Z :=
  match kind n with
  | ImportFrom =>
      if bool_decide ((warning_key n, lineno n) ∈ remove_imports)
      then (set_names n [], 1)
      else (n, 0)
  | Import =>
      let new :=
        List.filter
          (fun a => negb (bool_decide ((name a, lineno n) ∈ remove_imports)))
          (names n) in
      (set_names n new, Z.of_nat (length (names n)) - Z.of_nat (length new))
  end.

Definition has_names (n : import_node) : bool :=
  match names n with [] => false | _ :: _ => true end.

Definition noqa_lines_of (imports : list import_node) : gset Z :=
  list_to_set (map lineno (List.filter noqa imports)).

Definition remove_imports_of (imports : list import_node)
    (warnings : gset (string * Z)) : gset (string * Z) :=
  filter (fun w => w.2 ∉ noqa_lines_of imports) warnings.

Definition _remove_unused_names (imports : list import_node)
    (warnings : gset (string * Z)) (st : stats) : list import_node * stats :=
  let remove_imports := remove_imports_of imports warnings in
  let passed := map (remove_from_node remove_imports) imports in
  let removed_import_count := fold_right Z.add 0 (map snd passed) in
  let new_imports := List.filter has_names (map fst passed) in
  (new_imports,
   set_removed_imports st
     (removed_imports st
      + (removed_import_count - names_from_star st + star_imports_removed st))).

(** ** [_dedupe_single_imports] *)

(** The tuple [hash_key]: two fields for [ast.Import], four for
    [ast.ImportFrom]; tuples of different lengths are never equal. *)
Definition hash_key : Set :=
  (string * option string) + (option string * Z * string * option string).

Definition hash_key_of (n : import_node) : result hash_key :=
  match names n with
  | [a] =>
      match kind n with
      | Import => Ok (inl (name a, asname a))
      | ImportFrom => Ok (inr (module n, level n, name a, asname a))
      end
  | _ => Raise AssertionError
  end.

(** Nodes are compared with [is].  The nodes of one list are distinct
    objects, so a node stands for its position in [orig_order]; [seen] maps a
    key to the position and the node kept for it. *)
Definition seen_step (seen : gmap hash_key (nat * import_node))
    (i : nat) (n : import_node) (key : hash_key)
  : gmap hash_key (nat * import_node) :=
  match seen !! key with
  | Some kept =>
      if noqa n && negb (noqa kept.2) then <[key := (i, n)]> seen else seen
  | None => <[key := (i, n)]> seen
  end.

(** The first loop: [orig_order] and [seen]. *)
Fixpoint dedupe_scan (import_nodes : list import_node) (i : nat)
    (seen : gmap hash_key (nat * import_node))
  : result (list (nat * import_node * hash_key)
            * gmap hash_key (nat * import_node)) :=
  match import_nodes with
  | [] => Ok ([], seen)
  | n :: rest =>
      key ← hash_key_of n;
      r ← dedupe_scan rest (S i) (seen_step seen i n key);
      Ok ((i, n, key) :: r.1, r.2)
  end.

(** The second loop: what is yielded, and the counter. *)
Fixpoint dedupe_emit (orig_order : list (nat * import_node * hash_key))
    (seen : gmap hash_key (nat * import_node)) (st : stats)
  : list import_node * stats :=
  match orig_order with
  | [] => ([], st)
  | (i, n, key) :: rest =>
      if bool_decide (fst <$> seen !! key = Some i) then
        let r := dedupe_emit rest seen st in (n :: r.1, r.2)
      else
        dedupe_emit rest seen
          (set_removed_imports st (removed_imports st + 1))
  end.

Definition _dedupe_single_imports (import_nodes : list import_node)
    (st : stats) : result (list import_node * stats) :=
  r ← dedupe_scan import_nodes 0 ∅;
  Ok (dedupe_emit r.1 r.2 st).

(** ** Sort keys of [_get_import_groups] *)

(** [LAST = chr(127)] *)
Definition LAST : ascii := ascii_of_nat 127.

Definition sort_key : Set := list (string * string).

Definition key_token (token : string) : string * string :=
  (lower token, token).

(** [mod_tokens[0] = relative_prefix + mod_tokens[0]]; the list returned by
    [split] is never empty, so the [else] branch of the source is dead. *)
Definition prefix_first (relative_prefix : string) (mod_tokens : list string)
  : list string :=
  match mod_tokens with
  | t :: rest => (relative_prefix +:+ t) :: rest
  | [] => [relative_prefix]
  end.

(** The value stored in [import_node._sort_key], given [name]. *)
Definition _sort_key (n : import_node) (nm : string) : sort_key :=
  match kind n with
  | ImportFrom =>
      let relative_prefix := str_repeat LAST (level n) in
      let mod_tokens :=
        if truthy (module n) then split "." (or_empty (module n)) else [""] in
      map key_token (prefix_first relative_prefix mod_tokens)
        ++ [("", ""); key_token nm]
  | Import => map key_token (split "." nm)
  end.

(** Order of [str]: by code point, a proper prefix first. *)
Definition str_compare (a b : string) : comparison := String.compare a b.

(** Order of tuples: the first difference decides, a proper prefix is
    smaller. *)
Definition pair_compare (a b : string * string) : comparison :=
  match str_compare a.1 b.1 with
  | Eq => str_compare a.2 b.2
  | c => c
  end.

Fixpoint key_compare (a b : sort_key) : comparison :=
  match a, b with
  | [], [] => Eq
  | [], _ :: _ => Lt
  | _ :: _, [] => Gt
  | x :: a', y :: b' =>
      match pair_compare x y with
      | Eq => key_compare a' b'
      | c => c
      end
  end.

Definition key_lt (a b : sort_key) : bool :=
  match key_compare a b with Lt => true | _ => false end.

(** [sorted(l, key=...)]: the sort is stable and asks only for [<].  An
    element goes before the first one that is not smaller than it. *)
Fixpoint insert_by {A : Type} (key : A -> sort_key) (x : A) (l : list A)
  : list A :=
  match l with
  | [] => [x]
  | y :: l' =>
      if key_lt (key y) (key x) then y :: insert_by key x l'
      else x :: y :: l'
  end.

Definition sorted {A : Type} (key : A -> sort_key) (l : list A) : list A :=
  fold_right (insert_by key) [] l.

(** ** [_is_future] *)

Definition _is_future (m : string) : bool := String.eqb m "__future__".

(** [True in {s.startswith(mod) for mod in local_modules if mod}] *)
Definition is_local_prefix (local_modules : list string) (s : string) : bool :=
  existsb (fun m => negb (str_empty m) && startswith s m) local_modules.

(** The five collections of [_get_import_groups]. *)
Inductive group : Set := Future | Stdlib | Package | Nosort | Locals.

#[global] Instance group_eq_dec : EqDecision group.
Proof. solve_decision. Defined.

Record groups : Set := mk_groups {
  future : list import_node;
  stdlib : list import_node;
  package : list import_node;
  nosort_ : list import_node;
  locals_ : list import_node
}.

Section Collaborators.

(** [ast.parse(source, filename)] *)
Variable ast_parse : string -> result ast.
(** [pyflakes.checker.Checker(tree, filename).messages] *)
Variable Checker : ast -> list message.
(** [getattr(module, "__all__", dir(module))] for
    [module = importlib.import_module(name)] *)
Variable star_names : option string -> result (list string).
(** [flake8_import_order.STDLIB_NAMES] *)
Variable STDLIB_NAMES : gset string.
(** The order in which a [set] of nodes is iterated: a function of the
    members in the order they were added. *)
Variable set_iter : list import_node -> list import_node.
(** [list(difflib.Differ().compare(a, b))] *)
Variable Differ_compare : list string -> list string -> list string.

(** ** [_is_std_lib] *)

Definition _is_std_lib (m : string) : bool :=
  match split "." m with
  | token :: _ => bool_decide (token ∈ STDLIB_NAMES)
  | [] => false
  end.

(** ** [_get_import_groups] *)

(** The group an [ast.ImportFrom] or [ast.Import] node is added to. *)
Definition classify (local_modules : list string) (n : import_node)
    (nm : string) : group :=
  match kind n with
  | ImportFrom =>
      if nosort n then Nosort
      else if 0 <? level n then Locals
      else if negb (truthy (module n))
              || is_local_prefix local_modules (or_empty (module n))
      then Locals
      else if truthy (module n) && _is_future (or_empty (module n)) then Future
      else if truthy (module n) && _is_std_lib (or_empty (module n)) then Stdlib
      else Package
  | Import =>
      if nosort n then Nosort
      else if is_local_prefix local_modules nm then Locals
      else if _is_std_lib nm then Stdlib
      else Package
  end.

Definition add_to (g : group) (n : import_node) (gs : groups) : groups :=
  match g with
  | Future => mk_groups (future gs ++ [n]) (stdlib gs) (package gs) (nosort_ gs) (locals_ gs)
  | Stdlib => mk_groups (future gs) (stdlib gs ++ [n]) (package gs) (nosort_ gs) (locals_ gs)
  | Package => mk_groups (future gs) (stdlib gs) (package gs ++ [n]) (nosort_ gs) (locals_ gs)
  | Nosort => mk_groups (future gs) (stdlib gs) (package gs) (nosort_ gs ++ [n]) (locals_ gs)
  | Locals => mk_groups (future gs) (stdlib gs) (package gs) (nosort_ gs) (locals_ gs ++ [n])
  end.

(** [for import_node in imports]: the members of the four sets in the order
    they were added, and the list [nosort]. *)
Fixpoint group_loop (local_modules : list string) (imports : list import_node)
    (gs : groups) : result groups :=
  match imports with
  | [] => Ok gs
  | n :: rest =>
      match names n with
      | [a] =>
          group_loop local_modules rest
            (add_to (classify local_modules n (name a)) n gs)
      | _ => Raise AssertionError
      end
  end.

(** The key function [lambda n: n._sort_key]. *)
Definition node_key (n : import_node) : sort_key :=
  match names n with
  | a :: _ => _sort_key n (name a)
  | [] => []
  end.

Definition sorted_set (members : list import_node) : list import_node :=
  sorted node_key (set_iter members).

(** Returns [future, stdlib, package, nosort, locals_]. *)
Definition _get_import_groups (imports : list import_node)
    (local_modules : string) : result groups :=
  gs ← group_loop (split "," local_modules) imports (mk_groups [] [] [] [] []);
  Ok (mk_groups (sorted_set (future gs)) (sorted_set (stdlib gs))
        (sorted_set (package gs)) (nosort_ gs) (sorted_set (locals_ gs))).

(** ** [_as_single_imports] *)

Definition single (n : import_node) (a : alias) : import_node :=
  set_names n [a].

(** [for name in import_node.names] of an [ast.ImportFrom] node. *)
Fixpoint flatten_from (expand_stars : bool) (n : import_node)
    (todo : list alias) (st : stats) : result (list import_node * stats) :=
  match todo with
  | [] => Ok ([], st)
  | a :: rest =>
      if String.eqb (name a) "*" && expand_stars then
        let st := set_star_imports_removed st (star_imports_removed st + 1) in
        exported ← star_names (module n);
        let st :=
          set_names_from_star st
            (names_from_star st + Z.of_nat (length exported)) in
        r ← flatten_from expand_stars n rest st;
        Ok (map (fun s => single n (mk_alias s None)) exported ++ r.1, r.2)
      else
        r ← flatten_from expand_stars n rest st;
        Ok (single n a :: r.1, r.2)
  end.

Fixpoint _as_single_imports (import_nodes : list import_node) (st : stats)
    (expand_stars : bool) : result (list import_node * stats) :=
  match import_nodes with
  | [] => Ok ([], st)
  | n :: rest =>
      r ← match kind n with
          | Import => Ok (map (single n) (names n), st)
          | ImportFrom => flatten_from expand_stars n (names n) st
          end;
      r' ← _as_single_imports rest r.2 expand_stars;
      Ok (r.1 ++ r'.1, r'.2)
  end.

(** ** [_drill_for_warnings] *)

Record drill_state : Set := mk_drill {
  d_source_lines : list string;
  d_warnings_set : gset (string * Z);
  d_seen_lineno : gset Z;
  d_has_warnings : bool
}.

(** [re.match(r"^\s*", line).group(0)] as a truth value. *)
Definition leading_whitespace (line : string) : bool :=
  match line with
  | String c _ => isspace c
  | EmptyString => false
  end.

(** The body of [for warning in warnings.messages]. *)
Definition drill_message (st : drill_state) (w : message) : result drill_state :=
  match w with
  | OtherMessage _ => Ok st
  | UnusedImport arg0 line =>
      if bool_decide (line ∈ d_seen_lineno st) then Ok st
      else
        text ← py_index (d_source_lines st) (line - 1);
        if leading_whitespace text then Ok st
        else
          blanked ← py_setitem (d_source_lines st) (line - 1) "";
          Ok (mk_drill blanked (d_warnings_set st ∪ {[(arg0, line)]})
                (d_seen_lineno st ∪ {[line]}) true)
  end.

Fixpoint drill_messages (st : drill_state) (messages : list message)
  : result drill_state :=
  match messages with
  | [] => Ok st
  | w :: rest => st ← drill_message st w; drill_messages st rest
  end.

Definition newline : string := String (ascii_of_nat 10) "".

(** [while True]: one unit of fuel for each pass; [None] when the fuel does
    not reach the [break] or an exception. *)
Fixpoint drill_loop (fuel : nat) (messages : list message) (st : drill_state)
  : option (result (gset (string * Z))) :=
  match fuel with
  | O => None
  | S fuel =>
      match drill_messages
              (mk_drill (d_source_lines st) (d_warnings_set st)
                 (d_seen_lineno st) false) messages with
      | Raise e => Some (Raise e)
      | Ok st =>
          if negb (d_has_warnings st) then Some (Ok (d_warnings_set st))
          else
            match ast_parse (join newline (d_source_lines st)) with
            | Raise e => Some (Raise e)
            | Ok tree => drill_loop fuel (Checker tree) st
            end
      end
  end.

(** The loop is run with as many passes as it can need
    ([drill_loop_total] below): two for each line, and the last one. *)
Definition drill_fuel (source_lines : list string) : nat :=
  S (2 * length source_lines).

Definition _drill_for_warnings (source_lines : list string)
    (warnings : list message) : result (gset (string * Z)) :=
  match drill_loop (drill_fuel source_lines) warnings
          (mk_drill source_lines ∅ ∅ false) with
  | Some r => r
  | None => Raise (Exception "unreachable")
  end.

(** ** [_parse_toplevel_imports] *)

Definition _parse_toplevel_imports (source_lines : list string)
    (drill_for_warnings : bool)
  : result (list import_node * option (gset (string * Z)) * gset Z) :=
  tree ← ast_parse (join newline source_lines);
  let nodes := walk tree in
  let lines_with_code : gset Z := list_to_set (omap (fun pn => node_lineno pn.2) nodes) in
  let warnings := Checker tree in
  warnings_set ←
    (if drill_for_warnings
     then Some <$> _drill_for_warnings source_lines warnings
     else Ok None);
  imports ← mapM (mark_directives source_lines) (omap toplevel_import nodes);
  Ok (imports, warnings_set, lines_with_code).

(** ** [_rewrite_source] *)

(** [import_proportion] *)
Definition density (n_imports : nat) (st : stats) (lines_with_code : gset Z)
  : pynum :=
  if bool_decide (lines_with_code = ∅) then PyInt 0
  else
    PyFloat
      (float_of_Z (Z.of_nat n_imports + star_imports_removed st
                   - names_from_star st)
       / float_of_Z (Z.of_nat (size lines_with_code))
       * float_of_Z 100)%float.

(** [keep_threshhold is None or import_proportion < keep_threshhold] *)
Definition remover_enabled (keep_threshhold : option Z) (p : pynum) : bool :=
  match keep_threshhold with
  | None => true
  | Some t => pynum_lt_Z p t
  end.

(** Lines 77 to 92: the density, the gate and the remover. *)
Definition remove_stage (keep_threshhold : option Z) (original_imports : nat)
    (imports : list import_node) (warnings : gset (string * Z))
    (lines_with_code : gset Z) (st : stats) : list import_node * stats :=
  let p := density (length imports) st lines_with_code in
  let st :=
    mk_stats (names_from_star st) (star_imports_removed st)
      (removed_imports st) p (import_line_delta st) (added st) (removed st)
      (is_changed st) in
  let r :=
    if remover_enabled keep_threshhold p
    then _remove_unused_names imports warnings st
    else (imports, st) in
  (r.1,
   mk_stats (names_from_star r.2) (star_imports_removed r.2)
     (removed_imports r.2) (import_proportion r.2)
     (Z.of_nat (length r.1) - Z.of_nat original_imports)
     (added r.2) (removed r.2) (is_changed r.2)).

Definition count_prefix (p : string) (l : list string) : Z :=
  Z.of_nat (length (List.filter (fun s => startswith s p) l)).

Definition _rewrite_source (source_lines : list string) (local_modules : string)
    (keep_threshhold : option Z) (expand_stars : bool)
  : result (list string * stats) :=
  parsed ← _parse_toplevel_imports source_lines false;
  let imports := parsed.1.1 in
  let lines_with_code := parsed.2 in
  let original_imports := length imports in
  let imports_start_on :=
    match imports with
    | n :: _ => lineno n
    | [] => 0
    end in
  import_gap_lines ←
    _get_import_discard_lines source_lines imports lines_with_code;
  flat ← _as_single_imports imports stats0 expand_stars;
  deduped ← _dedupe_single_imports flat.1 flat.2;
  on_singleline ←
    _write_source source_lines [deduped.1] import_gap_lines imports_start_on;
  parsed ← _parse_toplevel_imports on_singleline true;
  warnings ← match parsed.1.2 with
             | Some w => Ok w
             | None => Raise (Exception "unreachable")
             end;
  let removed := remove_stage keep_threshhold original_imports parsed.1.1
                   warnings parsed.2 deduped.2 in
  gs ← _get_import_groups removed.1 local_modules;
  rewritten ←
    _write_source source_lines
      [future gs; stdlib gs; package gs; locals_ gs; nosort_ gs]
      import_gap_lines imports_start_on;
  let differ := Differ_compare source_lines rewritten in
  let st := removed.2 in
  let n_added := count_prefix "+ " differ in
  let n_removed := count_prefix "- " differ in
  Ok (rewritten,
      mk_stats (names_from_star st) (star_imports_removed st)
        (removed_imports st) (import_proportion st) (import_line_delta st)
        n_added n_removed
        (negb (n_added =? 0) || negb (n_removed =? 0))).

(** ** [main] *)

(** What [parser.parse_args(argv)] returns. *)
Record options : Set := mk_options {
  opt_module : string;
  keep_unused : bool;
  heuristic_unused : option Z;
  statsonly : bool;
  expand_stars : bool;
  inplace : bool;
  filename : list string
}.

(** The file system: [open(filename)] read line by line, and
    [open(filename, "w")] with one [write]. *)
Variable fs : Type.
Variable fs_read : fs -> string -> result (list string).
Variable fs_write : fs -> string -> string -> fs.

(** What a run leaves behind, the status line without its clock reading. *)
Inductive event : Set :=
| StderrUnchanged (file : string)
| StderrChanged (writing : bool) (file : string) (st : stats)
| StdoutWrite (text : string).

Definition _lines_as_buffer (lines : list string) : string :=
  join newline lines +:+ newline.

(** Truth value of [options.heuristic_unused]. *)
Definition int_truthy (o : option Z) : bool :=
  match o with
  | Some z => negb (z =? 0)
  | None => false
  end.

Record run : Type := mk_run {
  run_fs : fs;
  run_events : list event;
  run_heuristic_unused : option Z
}.

(** The body of [for filename in options.filename]. *)
Definition main_file (o : options) (r : run) (file : string) : result run :=
  file_ ← fs_read (run_fs r) file;
  let source_lines := read_source_lines file_ in
  threshold ←
    (if keep_unused o then
       if int_truthy (run_heuristic_unused r)
       then Raise (Exception
                     "keep-unused and heuristic-unused are mutually exclusive")
       else Ok (Some 0)
     else Ok (run_heuristic_unused r));
  rs ← _rewrite_source source_lines (opt_module o) threshold (expand_stars o);
  let st := rs.2 in
  let events :=
    run_events r
    ++ [if negb (is_changed st) then StderrUnchanged file
        else StderrChanged (inplace o && negb (statsonly o)) file st] in
  if statsonly o then Ok (mk_run (run_fs r) events threshold)
  else if inplace o then
    if is_changed st
    then Ok (mk_run (fs_write (run_fs r) file (_lines_as_buffer rs.1))
               events threshold)
    else Ok (mk_run (run_fs r) events threshold)
  else
    Ok (mk_run (run_fs r) (events ++ [StdoutWrite (_lines_as_buffer rs.1)])
          threshold).

(** The loop of [main]: the state reached, and the exception that ended the
    run if there was one. *)
Fixpoint main_loop (o : options) (files : list string) (r : run)
  : run * option exn :=
  match files with
  | [] => (r, None)
  | file :: rest =>
      match main_file o r file with
      | Ok r => main_loop o rest r
      | Raise e => (r, Some e)
      end
  end.

Definition main (o : options) (disk : fs) : run * option exn :=
  main_loop o (filename o) (mk_run disk [] (heuristic_unused o)).

End Collaborators.

(** * Sample collaborators

    A parser and a checker for the fragment of Python in which every
    statement takes one line and every import binds one name.  They are used
    to run the pipeline on concrete files. *)

Module Sample.

Definition is_ident_char (c : ascii) : bool :=
  let n := ord c in
  ((48 <=? n) && (n <=? 57)) || ((65 <=? n) && (n <=? 90))
  || ((97 <=? n) && (n <=? 122)) || (n =? 95) || (128 <=? n).

(** The identifiers of a line, left to right; [cur] is the one being read,
    in reverse. *)
Fixpoint identifiers (s : string) (cur : string) : list string :=
  let flush := if str_empty cur then [] else [String.rev cur] in
  match s with
  | EmptyString => flush
  | String c s' =>
      if is_ident_char c then identifiers s' (String c cur)
      else if Ascii.eqb c "#" then flush
      else flush ++ identifiers s' EmptyString
  end.

Fixpoint count_dots (s : string) : nat :=
  match s with
  | String "." s' => S (count_dots s')
  | _ => O
  end.

(** [level] and [module] of the text between [from] and [import]. *)
Definition module_ref (m : string) : Z * option string :=
  let k := count_dots m in
  let rest := String.substring k (String.length m - k) m in
  (Z.of_nat k, if str_empty rest then None else Some rest).

Definition statement (line : Z) (text : string) : option ast :=
  let tok i := nth i (split " " text) "" in
  let as_clause i :=
    if String.eqb (tok i) "as" then Some (tok (S i)) else None in
  if String.eqb (tok 0%nat) "import" then
    Some (Located (KImport [mk_alias (tok 1%nat) (as_clause 2%nat)]) line [])
  else if String.eqb (tok 0%nat) "from" && String.eqb (tok 2%nat) "import" then
    let r := module_ref (tok 1%nat) in
    Some (Located (KImportFrom r.2 r.1 [mk_alias (tok 3%nat) (as_clause 4%nat)])
            line [])
  else if _is_whitespace_or_comment text then None
  else
    Some (Located KOther line
            (map (fun id => Located (KName id) line []) (identifiers text ""))).

Definition ast_parse (source : string) : result ast :=
  Ok (Module_
        (omap (fun p => statement p.1 p.2)
           (enumerate 1 (split (ascii_of_nat 10) source)))).

(** The name an import binds. *)
Definition bound_name (a : alias) : string :=
  match asname a with
  | Some b => b
  | None => hd "" (split "." (name a))
  end.

(** Whether the checker spells the binding with [as]: the bound name is not
    the name imported (of a from-import), or not the last component of the
    module (of a direct import). *)
Definition has_alias (is_from : bool) (a : alias) : bool :=
  match asname a with
  | Some b =>
      negb (String.eqb
              (if is_from then name a else List.last (split "." (name a)) "") b)
  | None => false
  end.

(** The text the checker reports for a binding: its full name, and the
    bound name after [as] when it has an alias. *)
Definition reported (m : option string) (lv : Z) (is_from : bool) (a : alias)
  : string :=
  (if is_from
   then str_repeat "." lv
        +:+ (if truthy m then or_empty m +:+ "." else "")
   else "")
  +:+ name a
  +:+ (if has_alias is_from a then " as " +:+ or_empty (asname a) else "").

(** The scope of the module while its statements are visited in order: for
    each bound name, the binding that holds it (its report and line) and
    whether a statement has read the name. *)
Definition scope : Set := list (string * (string * Z * bool)).

(** A binding of a name that is bound already takes the place of the
    earlier one and takes over whether the name was read. *)
Definition bind_name (sc : scope) (nm : string) (rep : string) (line : Z)
  : scope :=
  if existsb (fun b : string * (string * Z * bool) => String.eqb b.1 nm) sc
  then map (fun b : string * (string * Z * bool) =>
              if String.eqb b.1 nm then (nm, (rep, line, b.2.2)) else b) sc
  else sc ++ [(nm, (rep, line, false))].

Definition use_name (sc : scope) (nm : string) : scope :=
  map (fun b : string * (string * Z * bool) =>
         if String.eqb b.1 nm then (b.1, (b.2.1, true)) else b) sc.

Definition visit (sc : scope) (t : ast) : scope :=
  match t with
  | Located (KImport [a]) line _ =>
      bind_name sc (bound_name a) (reported None 0 false a) line
  | Located (KImportFrom m lv [a]) line _ =>
      bind_name sc (bound_name a) (reported m lv true a) line
  | Located KOther _ cs =>
      fold_left
        (fun sc c =>
           match c with
           | Located (KName id) _ _ => use_name sc id
           | _ => sc
           end) cs sc
  | _ => sc
  end.

(** The reports for unused imports, in the order of the scope: one for
    each name that no statement has read, for the binding that holds the
    name at the end.  A binding that an import of the same name replaced is
    not reported in this pass. *)
Definition Checker (tree : ast) : list message :=
  let sc := fold_left visit (iter_child_nodes tree) [] in
  omap (fun b : string * (string * Z * bool) =>
          if b.2.2 then None else Some (UnusedImport b.2.1.1 b.2.1.2)) sc.

Definition star_names (m : option string) : result (list string) :=
  Raise ModuleNotFoundError.

Definition STDLIB_NAMES : gset string := {[ "os"; "sys"; "re" ]}.

(** A diff without common lines: nothing is marked when the two texts are
    equal, and otherwise every line of [a] is taken out and every line of
    [b] put in. *)
Definition Differ_compare (a b : list string) : list string :=
  if bool_decide (a = b) then map (fun l => "  " +:+ l) a
  else map (fun l => "- " +:+ l) a ++ map (fun l => "+ " +:+ l) b.

(** A disk is a list of files, the first entry for a name being the file;
    a file is kept as its lines. *)
Definition disk : Type := list (string * list string).

Definition fs_read (d : disk) (file : string) : result (list string) :=
  match List.find (fun e => String.eqb e.1 file) d with
  | Some e => Ok e.2
  | None => Raise IOError
  end.

Definition fs_write (d : disk) (file text : string) : disk :=
  (file, split (ascii_of_nat 10) text) :: d.

Definition rewrite (set_iter : list import_node -> list import_node)
    (source_lines : list string) (local_modules : string)
    (keep_threshhold : option Z) : result (list string * stats) :=
  _rewrite_source ast_parse Checker star_names STDLIB_NAMES set_iter
    Differ_compare source_lines local_modules keep_threshhold false.

Definition run_main (set_iter : list import_node -> list import_node)
    (o : options) (d : disk) : run disk * option exn :=
  main ast_parse Checker star_names STDLIB_NAMES set_iter Differ_compare
    disk fs_read fs_write o d.

End Sample.

(** * Properties *)

(** ** The result monad *)

Lemma bind_Ok {A B : Type} (a : A) (k : A -> result B) :
  (Ok a ≫= k) = k a.
Proof. reflexivity. Qed.

Lemma bind_inv {A B : Type} (r : result A) (k : A -> result B) (b : B) :
  (r ≫= k) = Ok b -> exists a, r = Ok a /\ k a = Ok b.
Proof. destruct r as [a|e]; simpl; [eauto | discriminate]. Qed.

Lemma fmap_inv {A B : Type} (f : A -> B) (r : result A) (b : B) :
  f <$> r = Ok b -> exists a, r = Ok a /\ b = f a.
Proof. destruct r as [a|e]; simpl; [intros [= <-]; eauto | discriminate]. Qed.

Lemma mapM_length {A B : Type} (f : A -> result B) (l : list A) (l' : list B) :
  mapM f l = Ok l' -> length l' = length l.
Proof.
  revert l'. induction l as [|x l IH]; simpl; intros l' H.
  - injection H as <-. reflexivity.
  - apply bind_inv in H as (y & _ & H). apply bind_inv in H as (ys & Hys & H).
    injection H as <-. simpl. f_equal. auto.
Qed.

Lemma mapM_app {A B : Type} (f : A -> result B) (l1 l2 : list A) :
  mapM f (l1 ++ l2) = (r1 ← mapM f l1; r2 ← mapM f l2; Ok (r1 ++ r2)).
Proof.
  induction l1 as [|x l1 IH]; simpl.
  - destruct (mapM f l2); reflexivity.
  - destruct (f x); simpl; [|reflexivity]. rewrite IH.
    destruct (mapM f l1); simpl; [|reflexivity].
    destruct (mapM f l2); reflexivity.
Qed.

(** ** [rstrip] *)

Lemma rstrip_idempotent (s : string) : rstrip (rstrip s) = rstrip s.
Proof.
  induction s as [|c s IH]; simpl; [reflexivity|].
  destruct (str_empty (rstrip s) && isspace c) eqn:E; simpl; [reflexivity|].
  rewrite IH, E. reflexivity.
Qed.

(** ** The writer *)

(** What the loop over [grouped_imports] appends to [buf]: every group that
    is not empty followed by one empty line, the last of which is deleted. *)
Definition separated (rendered : list (list string)) : list string :=
  concat (map (fun r => match r with [] => [] | _ :: _ => r ++ [""] end) rendered).

Definition import_block (rendered : list (list string)) : list string :=
  removelast (separated rendered).

Definition render_groups (groups : list (list import_node))
  : result (list (list string)) :=
  mapM (mapM _write_singlename_import) groups.

(** The lines that are copied: those outside the gap set, without their
    trailing white space. *)
Definition kept (import_gap_lines : gset Z) (numbered : list (Z * string))
  : list string :=
  map (fun p => rstrip p.2)
    (List.filter (fun p => negb (bool_decide (p.1 ∈ import_gap_lines))) numbered).

Definition before (start : Z) (numbered : list (Z * string)) : list (Z * string) :=
  List.filter (fun p => p.1 <? start) numbered.

Definition from (start : Z) (numbered : list (Z * string)) : list (Z * string) :=
  List.filter (fun p => start <=? p.1) numbered.

Lemma write_groups_spec groups buf has :
  write_groups groups buf has =
  (rs ← render_groups groups;
   Ok (buf ++ separated rs,
       has || negb (forallb (fun r => match r with [] => true | _ => false end) rs))).
Proof.
  unfold render_groups.
  revert buf has. induction groups as [|g groups IH]; intros buf has; simpl.
  - rewrite app_nil_r, orb_false_r. reflexivity.
  - destruct (mapM _write_singlename_import g) as [r|e] eqn:Hr; simpl;
      [|reflexivity].
    pose proof (mapM_length _ _ _ Hr) as Hlen.
    destruct g as [|n g]; destruct r as [|x r]; simpl in Hlen; try discriminate.
    + rewrite IH. destruct (mapM _ groups); simpl; [|reflexivity].
      rewrite app_nil_r. reflexivity.
    + rewrite IH. destruct (mapM _ groups) as [rs|]; simpl; [|reflexivity].
      unfold separated. simpl. rewrite orb_true_r.
      f_equal. f_equal. rewrite <- !app_assoc. reflexivity.
Qed.

Lemma separated_nil_iff rs :
  forallb (fun r : list string => match r with [] => true | _ => false end) rs = true
  -> separated rs = [].
Proof.
  unfold separated. induction rs as [|r rs IH]; simpl; [reflexivity|].
  destruct r; simpl; [auto | discriminate].
Qed.

Lemma separated_not_nil rs :
  forallb (fun r : list string => match r with [] => true | _ => false end) rs = false
  -> separated rs <> [].
Proof.
  unfold separated. induction rs as [|r rs IH]; simpl; [discriminate|].
  destruct r; simpl; [auto | discriminate].
Qed.

Lemma write_block_spec groups buf :
  trim_last <$> write_groups groups buf false =
  (rs ← render_groups groups;
   Ok (buf ++ import_block rs,
       negb (forallb (fun r => match r with [] => true | _ => false end) rs))).
Proof.
  rewrite write_groups_spec. destruct (render_groups groups) as [rs|]; simpl;
    [|reflexivity].
  unfold trim_last, import_block. simpl.
  destruct (forallb _ rs) eqn:E; simpl.
  - rewrite (separated_nil_iff _ E). reflexivity.
  - rewrite removelast_app by (apply separated_not_nil; exact E). reflexivity.
Qed.

Lemma enumerate_lower {A : Type} (l : list A) (k : Z) (p : Z * A) :
  In p (enumerate k l) -> k <= p.1.
Proof.
  revert k. induction l as [|x l IH]; simpl; intros k; [tauto|].
  intros [<- | H]; simpl; [lia|]. apply IH in H. lia.
Qed.

Lemma filter_all {A : Type} (f : A -> bool) (l : list A) :
  (forall x, In x l -> f x = true) -> List.filter f l = l.
Proof.
  induction l as [|x l IH]; simpl; intros H; [reflexivity|].
  rewrite (H x) by auto. f_equal. auto.
Qed.

Lemma filter_none {A : Type} (f : A -> bool) (l : list A) :
  (forall x, In x l -> f x = false) -> List.filter f l = [].
Proof.
  induction l as [|x l IH]; simpl; intros H; [reflexivity|].
  rewrite (H x) by auto. auto.
Qed.

Section Writer.

Variable grouped_imports : list (list import_node).
Variable import_gap_lines : gset Z.
Variable imports_start_on : Z.

Let loop := fun todo st =>
  write_lines todo grouped_imports import_gap_lines imports_start_on st.

(** Past the line where the imports start, lines are only copied. *)
Lemma write_lines_past (lines : list string) (k : Z) (st : list string * bool) :
  imports_start_on < k ->
  loop (enumerate k lines) st = Ok (st.1 ++ kept import_gap_lines (enumerate k lines)).
Proof.
  unfold loop. revert k st. induction lines as [|line lines IH]; intros k st Hk; simpl.
  - rewrite app_nil_r. reflexivity.
  - unfold write_line. destruct (Z.eqb_spec k imports_start_on) as [->|_]; [lia|].
    simpl. rewrite IH by lia. simpl. unfold kept. simpl.
    destruct (bool_decide (k ∈ import_gap_lines)); simpl; [reflexivity|].
    rewrite <- app_assoc. reflexivity.
Qed.

(** Up to that line they are copied too, and the block is written when the
    line is reached. *)
Lemma write_lines_upto (lines : list string) (k : Z) (buf : list string) :
  k <= imports_start_on ->
  loop (enumerate k lines) (buf, false) =
  (block ← (if imports_start_on <? k + Z.of_nat (length lines)
            then import_block <$> render_groups grouped_imports else Ok []);
   Ok (buf ++ kept import_gap_lines (before imports_start_on (enumerate k lines))
         ++ block
         ++ kept import_gap_lines (from imports_start_on (enumerate k lines)))).
Proof.
  unfold loop. revert k buf. induction lines as [|line lines IH]; intros k buf Hk.
  - simpl. destruct (Z.ltb_spec imports_start_on (k + Z.of_nat 0)); [lia|].
    simpl. rewrite app_nil_r. reflexivity.
  - cbn [enumerate write_lines length]. unfold write_line. cbn [fst snd].
    destruct (Z.eqb_spec k imports_start_on) as [->|Hne].
    + rewrite write_block_spec.
      destruct (Z.ltb_spec imports_start_on
                  (imports_start_on + Z.of_nat (S (length lines)))); [|lia].
      destruct (render_groups grouped_imports) as [rs|e]; simpl; [|reflexivity].
      change (write_lines ?t _ _ _ ?s) with (loop t s).
      rewrite write_lines_past by lia. simpl.
      unfold before, from. simpl.
      rewrite Z.ltb_irrefl, Z.leb_refl.
      rewrite filter_none, filter_all; simpl.
      * unfold kept at 2. simpl.
        destruct (bool_decide (imports_start_on ∈ import_gap_lines)); simpl;
          rewrite <- ?app_assoc; reflexivity.
      * intros p Hp. apply enumerate_lower in Hp. apply Z.leb_le. lia.
      * intros p Hp. apply enumerate_lower in Hp. apply Z.ltb_ge. lia.
    + simpl.
      assert (Hlt : (k <? imports_start_on) = true) by (apply Z.ltb_lt; lia).
      assert (Hle : (imports_start_on <=? k) = false) by (apply Z.leb_gt; lia).
      unfold before, from. simpl. rewrite Hlt, Hle.
      fold (before imports_start_on (enumerate (k + 1) lines)).
      fold (from imports_start_on (enumerate (k + 1) lines)).
      replace (imports_start_on <? k + Z.of_nat (S (length lines)))
        with (imports_start_on <? k + 1 + Z.of_nat (length lines))
        by (f_equal; lia).
      destruct (bool_decide (k ∈ import_gap_lines)) eqn:Hgap.
      * rewrite IH by lia. unfold kept at 3. simpl. rewrite Hgap. reflexivity.
      * rewrite IH by lia. unfold kept at 3. simpl. rewrite Hgap. simpl.
        destruct (if imports_start_on <? _ then _ else _); simpl; [|reflexivity].
        rewrite <- app_assoc. reflexivity.
Qed.

End Writer.

(** The output of [_write_source]: the lines kept before the line where
    the imports start, the block of declarations, the lines kept from that
    line on. *)
Lemma write_source_spec (source_lines : list string)
    (grouped_imports : list (list import_node)) (import_gap_lines : gset Z)
    (imports_start_on : Z) :
  _write_source source_lines grouped_imports import_gap_lines imports_start_on =
  (block ← (if (1 <=? imports_start_on)
               && (imports_start_on <=? Z.of_nat (length source_lines))
            then import_block <$> render_groups grouped_imports else Ok []);
   Ok (kept import_gap_lines (before imports_start_on (enumerate 1 source_lines))
         ++ block
         ++ kept import_gap_lines
              (from imports_start_on (enumerate 1 source_lines)))).
Proof.
  unfold _write_source.
  destruct (Z.leb_spec 1 imports_start_on) as [Hge|Hlt]; simpl.
  - rewrite write_lines_upto by lia. simpl.
    replace (imports_start_on <? 1 + Z.of_nat (length source_lines))
      with (imports_start_on <=? Z.of_nat (length source_lines)); [reflexivity|].
    destruct (Z.leb_spec imports_start_on (Z.of_nat (length source_lines)));
      destruct (Z.ltb_spec imports_start_on (1 + Z.of_nat (length source_lines)));
      (reflexivity || lia).
  - rewrite write_lines_past by lia. simpl.
    unfold before, from. rewrite filter_none, filter_all; [reflexivity| |].
    + intros p Hp. apply enumerate_lower in Hp. apply Z.leb_le. lia.
    + intros p Hp. apply enumerate_lower in Hp. apply Z.ltb_ge. lia.
Qed.

(** C1, as amended: [_write_source] copies every line whose number is not in
    the gap set, in the original order and with nothing changed but the
    trailing white space, which [rstrip] removes; the declarations are
    written where the line numbered [imports_start_on] stood.  In
    particular each such line is found in the output without its trailing
    white space. *)
Theorem write_source_copies_other_lines (source_lines : list string)
    (grouped_imports : list (list import_node)) (import_gap_lines : gset Z)
    (imports_start_on : Z) :
  let numbered := enumerate 1 source_lines in
  _write_source source_lines grouped_imports import_gap_lines imports_start_on =
  (block ← (if (1 <=? imports_start_on)
               && (imports_start_on <=? Z.of_nat (length source_lines))
            then import_block <$> render_groups grouped_imports else Ok []);
   Ok (kept import_gap_lines (before imports_start_on numbered)
         ++ block
         ++ kept import_gap_lines (from imports_start_on numbered)))
  /\ forall out lineno line,
       _write_source source_lines grouped_imports import_gap_lines
         imports_start_on = Ok out ->
       In (lineno, line) numbered -> lineno ∉ import_gap_lines ->
       In (rstrip line) out.
Proof.
  intros numbered. split; [apply write_source_spec|].
  intros out lineno line Hout Hin Hgap. rewrite write_source_spec in Hout.
  apply bind_inv in Hout as (block & _ & Hout). injection Hout as <-.
  fold numbered.
  assert (Hk : In (rstrip line)
                 (kept import_gap_lines (before imports_start_on numbered))
               \/ In (rstrip line)
                    (kept import_gap_lines (from imports_start_on numbered))).
  { unfold kept, before, from.
    destruct (Z.ltb_spec lineno imports_start_on) as [Hlt|Hge]; [left|right];
      apply (in_map (fun p : Z * string => rstrip p.2) _ (lineno, line));
      apply filter_In; (split; [apply filter_In; split; [exact Hin|] |]); simpl.
    - apply Z.ltb_lt. lia.
    - rewrite bool_decide_eq_false_2 by exact Hgap. reflexivity.
    - apply Z.leb_le. lia.
    - rewrite bool_decide_eq_false_2 by exact Hgap. reflexivity. }
  rewrite !in_app_iff. tauto.
Qed.

(** C1, as stated, fails: a line that ends in white space is written
    without it, by the writer and, before that, by [main] when it reads the
    file.  The file holds the one line [x = 1] followed by two spaces. *)
Lemma trailing_whitespace_is_stripped :
  _write_source ["x = 1  "] [[]; []; []; []; []] ∅ 0 = Ok ["x = 1"]
  /\ run_events _
       (Sample.run_main id
          (mk_options "" false None false false false ["f.py"])
          [("f.py", ["x = 1  " +:+ newline])]).1
     = [StderrUnchanged "f.py"; StdoutWrite ("x = 1" +:+ newline)].
Proof. split; vm_compute; reflexivity. Qed.

(** ** The remover *)

Lemma set_names_same (n : import_node) : set_names n (names n) = n.
Proof. destruct n; reflexivity. Qed.

Lemma noqa_line_not_removed (imports : list import_node)
    (warnings : gset (string * Z)) (n : import_node) (key : string) :
  In n imports -> noqa n = true ->
  (key, lineno n) ∉ remove_imports_of imports warnings.
Proof.
  intros Hin Hq. unfold remove_imports_of. rewrite elem_of_filter. simpl.
  intros [Hnot _]. apply Hnot. unfold noqa_lines_of.
  apply elem_of_list_to_set, list_elem_of_In, in_map, filter_In. auto.
Qed.

(** A node that carries the directive goes through the loop unchanged. *)
Lemma remove_from_node_noqa (imports : list import_node)
    (warnings : gset (string * Z)) (n : import_node) :
  In n imports -> noqa n = true ->
  remove_from_node (remove_imports_of imports warnings) n = (n, 0).
Proof.
  intros Hin Hq. unfold remove_from_node. destruct (kind n).
  - rewrite filter_all.
    + rewrite set_names_same. f_equal. lia.
    + intros a _. rewrite bool_decide_eq_false_2; [reflexivity|].
      apply noqa_line_not_removed; assumption.
  - rewrite bool_decide_eq_false_2; [reflexivity|].
    apply noqa_line_not_removed; assumption.
Qed.

Lemma remove_from_node_flag (R : gset (string * Z)) (n : import_node) :
  noqa (remove_from_node R n).1 = noqa n.
Proof.
  unfold remove_from_node. destruct (kind n); simpl; [reflexivity|].
  destruct (bool_decide _); reflexivity.
Qed.

Lemma noqa_part_unchanged (R : gset (string * Z)) (l : list import_node) :
  (forall n, In n l -> noqa n = true -> remove_from_node R n = (n, 0)) ->
  List.filter noqa (List.filter has_names (map fst (map (remove_from_node R) l)))
  = List.filter (fun n => noqa n && has_names n) l.
Proof.
  induction l as [|n l IH]; intros H; simpl; [reflexivity|].
  rewrite <- IH by (intros; apply H; simpl; auto).
  destruct (noqa n) eqn:Hq; simpl.
  - rewrite (H n) by (simpl; auto). simpl.
    destruct (has_names n); simpl; rewrite ?Hq; reflexivity.
  - destruct (has_names _); simpl; [|reflexivity].
    rewrite remove_from_node_flag, Hq. reflexivity.
Qed.

Definition foo_as_bar : import_node :=
  mk_import Import None 0 [mk_alias "foo" (Some "bar")] 1 true false.

(** C7: whatever warnings were collected, the declarations that carry the
    suppress-removal directive (and bind a name) leave [_remove_unused_names]
    as they entered it: the same nodes with the same bindings, in the same
    order.  In particular the line [import foo as bar  # noqa] is read as
    carrying the directive, its node survives warnings for line 1 under
    either spelling of the name, and it is written back as it was. *)
Theorem remove_unused_names_keeps_noqa (imports : list import_node)
    (warnings : gset (string * Z)) (st : stats) :
  List.filter noqa (_remove_unused_names imports warnings st).1
  = List.filter (fun n => noqa n && has_names n) imports
  /\ mark_directives ["import foo as bar  # noqa"] (set_flags foo_as_bar false false)
     = Ok foo_as_bar
  /\ (_remove_unused_names [foo_as_bar] {[ ("foo", 1); ("foo as bar", 1) ]} st).1
     = [foo_as_bar]
  /\ _write_singlename_import foo_as_bar = Ok "import foo as bar  # noqa".
Proof.
  split; [|split; [|split]].
  - unfold _remove_unused_names. cbn [fst].
    apply noqa_part_unchanged. intros n Hin Hq.
    apply remove_from_node_noqa; assumption.
  - vm_compute. reflexivity.
  - vm_compute. reflexivity.
  - vm_compute. reflexivity.
Qed.

(** ** The density gate *)

Lemma density_no_code (n : nat) (st : stats) : density n st ∅ = PyInt 0.
Proof. reflexivity. Qed.

Lemma remove_unused_names_fst (imports : list import_node)
    (warnings : gset (string * Z)) (st st' : stats) :
  (_remove_unused_names imports warnings st).1
  = (_remove_unused_names imports warnings st').1.
Proof. reflexivity. Qed.

(** In [_rewrite_source] the declarations that go on to be grouped are
    those [_remove_unused_names] returns exactly when the threshold is
    [None] or the density is below it, and the reparsed declarations
    otherwise; the density is 0 when no line carries code and otherwise the
    binary64 value of
    [(len(imports) + star_imports_removed - names_from_star)
     / float(len(lines_with_code)) * 100]. *)
Theorem remover_runs_iff_below_threshold (keep_threshhold : option Z)
    (original_imports : nat) (imports : list import_node)
    (warnings : gset (string * Z)) (lines_with_code : gset Z) (st : stats) :
  let p := density (length imports) st lines_with_code in
  let ran := remover_enabled keep_threshhold p in
  let out := remove_stage keep_threshhold original_imports imports warnings
               lines_with_code st in
  (ran = true <->
     keep_threshhold = None
     \/ exists t, keep_threshhold = Some t /\ pynum_lt_Z p t = true)
  /\ out.1 = (if ran then (_remove_unused_names imports warnings st).1
              else imports)
  /\ removed_imports out.2
     = (if ran then removed_imports (_remove_unused_names imports warnings st).2
        else removed_imports st)
  /\ import_proportion out.2 = p
  /\ (lines_with_code = ∅ -> p = PyInt 0)
  /\ (lines_with_code <> ∅ ->
      p = PyFloat
            (float_of_Z (Z.of_nat (length imports) + star_imports_removed st
                         - names_from_star st)
             / float_of_Z (Z.of_nat (size lines_with_code))
             * float_of_Z 100)%float).
Proof.
  intros p ran out. subst p ran out. unfold remove_stage.
  set (p := density (length imports) st lines_with_code).
  repeat split.
  - destruct keep_threshhold as [t|]; simpl; intros H; [right; eauto | left; reflexivity].
  - intros [->|(t & -> & H)]; simpl; [reflexivity|exact H].
  - destruct (remover_enabled keep_threshhold p); reflexivity.
  - destruct (remover_enabled keep_threshhold p); reflexivity.
  - destruct (remover_enabled keep_threshhold p); reflexivity.
  - intros ->. reflexivity.
  - intros Hne. subst p. unfold density.
    rewrite bool_decide_eq_false_2 by exact Hne. reflexivity.
Qed.

(** The comparison is made on the rounded value: 29 declarations on 100
    lines of code give 28.999999999999996, which is below a threshold of
    29. *)
Example density_is_rounded :
  let lines_with_code : gset Z := list_to_set (seqZ 1 100) in
  let p := density 29 stats0 lines_with_code in
  p = PyFloat 0x1.cffffffffffffp+4%float /\ remover_enabled (Some 29) p = true.
Proof. vm_compute. split; reflexivity. Qed.

(** ** The deduplicator *)

(** The declaration that is kept for a key, among declarations paired with
    their keys: the first one with that key that carries the directive, and
    the first one with that key when none does. *)
Definition winner (ks : list (import_node * hash_key)) (k : hash_key)
  : option (nat * import_node) :=
  match list_find (fun p => p.2 = k /\ noqa p.1 = true) ks with
  | Some ip => Some (ip.1, ip.2.1)
  | None => (fun ip => (ip.1, ip.2.1)) <$> list_find (fun p => p.2 = k) ks
  end.

(** The declarations that are their key's winner, in the order of the
    list; [i] is the position of the head of [ks] in [all]. *)
Fixpoint survivors_from (ks all : list (import_node * hash_key)) (i : nat)
  : list import_node :=
  match ks with
  | [] => []
  | (n, k) :: rest =>
      if bool_decide (fst <$> winner all k = Some i)
      then n :: survivors_from rest all (S i)
      else survivors_from rest all (S i)
  end.

Definition survivors (ks : list (import_node * hash_key)) : list import_node :=
  survivors_from ks ks 0.

Fixpoint indexed (i : nat) (ks : list (import_node * hash_key))
  : list (nat * import_node * hash_key) :=
  match ks with
  | [] => []
  | (n, k) :: rest => (i, n, k) :: indexed (S i) rest
  end.

Lemma list_find_single {A : Type} (P : A -> Prop) `{!forall x, Decision (P x)}
    (x : A) :
  list_find P [x] = if decide (P x) then Some (0%nat, x) else None.
Proof. simpl. destruct (decide (P x)); reflexivity. Qed.

Lemma list_find_snoc {A : Type} (P : A -> Prop) `{!forall x, Decision (P x)}
    (l : list A) (x : A) :
  list_find P (l ++ [x]) =
  match list_find P l with
  | Some r => Some r
  | None => if decide (P x) then Some (length l, x) else None
  end.
Proof.
  destruct (list_find P l) as [[i y]|] eqn:E.
  - apply list_find_app_l. exact E.
  - rewrite list_find_app_r by exact E. rewrite list_find_single.
    destruct (decide (P x)); reflexivity.
Qed.

(** One more declaration changes the winner of its key as the first loop
    of [_dedupe_single_imports] changes [seen]. *)
Lemma winner_snoc (P : list (import_node * hash_key)) (n : import_node)
    (key k : hash_key) :
  winner (P ++ [(n, key)]) k =
  if decide (key = k) then
    match winner P k with
    | None => Some (length P, n)
    | Some kept =>
        if noqa n && negb (noqa kept.2) then Some (length P, n) else Some kept
    end
  else winner P k.
Proof.
  unfold winner. rewrite !list_find_snoc. simpl.
  destruct (list_find (fun p => p.2 = k /\ noqa p.1 = true) P) as [[i p]|] eqn:EA.
  - apply list_find_Some in EA as (_ & [_ Hq] & _). simpl in *.
    destruct (decide (key = k)); [|reflexivity].
    rewrite Hq, andb_false_r. reflexivity.
  - destruct (list_find (fun p => p.2 = k) P) as [[i p]|] eqn:EB; simpl.
    + assert (Hq : noqa p.1 = false).
      { apply list_find_Some in EB as (Hp & Hk & _).
        apply list_find_None in EA.
        apply (proj1 (Forall_forall _ _)) with (x := p) in EA;
          [|eapply list_elem_of_lookup_2; exact Hp].
        destruct (noqa p.1); [exfalso; apply EA; auto | reflexivity]. }
      rewrite Hq. simpl. rewrite andb_true_r.
      destruct (decide (key = k)) as [->|Hne].
      * destruct (noqa n) eqn:Hn.
        -- rewrite decide_True by auto. reflexivity.
        -- rewrite decide_False by (intros [_ ?]; discriminate). reflexivity.
      * rewrite decide_False by (intros [? _]; contradiction). reflexivity.
    + destruct (decide (key = k)) as [->|Hne].
      * destruct (noqa n) eqn:Hn.
        -- rewrite decide_True by auto. reflexivity.
        -- rewrite decide_False by (intros [_ ?]; discriminate). reflexivity.
      * rewrite decide_False by (intros [? _]; contradiction). reflexivity.
Qed.

Lemma seen_step_winner (seen : gmap hash_key (nat * import_node))
    (P : list (import_node * hash_key)) (n : import_node) (key : hash_key) :
  (forall k, seen !! k = winner P k) ->
  forall k, seen_step seen (length P) n key !! k = winner (P ++ [(n, key)]) k.
Proof.
  intros H k. rewrite winner_snoc. unfold seen_step. rewrite <- (H k).
  destruct (decide (key = k)) as [->|Hne].
  - destruct (seen !! k) as [kept|] eqn:E.
    + destruct (noqa n && negb (noqa kept.2)).
      * apply lookup_insert_eq.
      * exact E.
    + apply lookup_insert_eq.
  - destruct (seen !! key) as [kept|] eqn:E.
    + destruct (noqa n && negb (noqa kept.2)).
      * rewrite lookup_insert_ne by exact Hne. reflexivity.
      * reflexivity.
    + rewrite lookup_insert_ne by exact Hne. reflexivity.
Qed.

Lemma dedupe_scan_spec (nodes : list import_node) :
  forall (P : list (import_node * hash_key))
         (seen : gmap hash_key (nat * import_node)),
    (forall k, seen !! k = winner P k) ->
    match dedupe_scan nodes (length P) seen, mapM hash_key_of nodes with
    | Ok r, Ok keys =>
        r.1 = indexed (length P) (zip nodes keys)
        /\ forall k, r.2 !! k = winner (P ++ zip nodes keys) k
    | Raise e, Raise e' => e = e'
    | _, _ => False
    end.
Proof.
  induction nodes as [|n nodes IH]; intros P seen H; simpl.
  - split; [reflexivity|]. intros k. rewrite app_nil_r. apply H.
  - destruct (hash_key_of n) as [key|e]; simpl; [|reflexivity].
    specialize (IH (P ++ [(n, key)]) (seen_step seen (length P) n key)
                  (seen_step_winner _ _ _ _ H)).
    rewrite length_app in IH. simpl in IH.
    replace (length P + 1)%nat with (S (length P)) in IH by lia.
    destruct (dedupe_scan nodes (S (length P)) _) as [r|e];
      destruct (mapM hash_key_of nodes) as [keys|e']; simpl; try exact IH.
    destruct IH as [H1 H2]. split.
    + rewrite H1. reflexivity.
    + intros k. rewrite H2, <- app_assoc. reflexivity.
Qed.

Lemma survivors_from_length (ks all : list (import_node * hash_key)) (i : nat) :
  (length (survivors_from ks all i) <= length ks)%nat.
Proof.
  revert i. induction ks as [|[n k] ks IH]; intros i; simpl; [lia|].
  destruct (bool_decide _); simpl; specialize (IH (S i)); lia.
Qed.

Lemma dedupe_emit_spec (all : list (import_node * hash_key))
    (seen : gmap hash_key (nat * import_node)) :
  (forall k, seen !! k = winner all k) ->
  forall (ks : list (import_node * hash_key)) (i : nat) (st : stats),
    dedupe_emit (indexed i ks) seen st =
    (survivors_from ks all i,
     set_removed_imports st
       (removed_imports st
        + (Z.of_nat (length ks) - Z.of_nat (length (survivors_from ks all i))))).
Proof.
  intros H ks. induction ks as [|[n k] ks IH]; intros i st; simpl.
  - destruct st; unfold set_removed_imports; simpl. f_equal. f_equal. lia.
  - rewrite H. destruct (bool_decide (fst <$> winner all k = Some i)).
    + rewrite IH. simpl. f_equal. f_equal. lia.
    + rewrite IH. unfold set_removed_imports. simpl. f_equal. f_equal. lia.
Qed.

Lemma survivors_from_sublist (nodes : list import_node) (keys : list hash_key)
    (all : list (import_node * hash_key)) (i : nat) :
  sublist (survivors_from (zip nodes keys) all i) nodes.
Proof.
  revert keys i. induction nodes as [|n nodes IH]; intros keys i; simpl.
  - constructor.
  - destruct keys as [|k keys]; simpl; [apply sublist_nil_l|].
    destruct (bool_decide _).
    + apply sublist_skip, IH.
    + apply sublist_cons, IH.
Qed.

(** [_dedupe_single_imports] fails only where the single-name assertion
    does; otherwise it yields, in the order of the input, exactly the
    declarations that are the winner of their key (the first with that key
    that carries suppress_removal, or the first with that key when none
    does, which is what replacing the kept declaration by a later
    suppressed duplicate computes, see [winner_snoc]), and the counter grows
    by the number of declarations dropped. *)
Lemma dedupe_yields_survivors (import_nodes : list import_node) (st : stats) :
  _dedupe_single_imports import_nodes st =
  (keys ← mapM hash_key_of import_nodes;
   let out := survivors (zip import_nodes keys) in
   Ok (out,
       set_removed_imports st
         (removed_imports st
          + (Z.of_nat (length import_nodes) - Z.of_nat (length out)))))
  /\ forall keys, sublist (survivors (zip import_nodes keys)) import_nodes.
Proof.
  split; [|intros keys; apply survivors_from_sublist].
  unfold _dedupe_single_imports.
  pose proof (dedupe_scan_spec import_nodes [] ∅) as H. simpl in H.
  specialize (H (fun k => eq_trans (lookup_empty k) eq_refl)).
  destruct (dedupe_scan import_nodes 0 ∅) as [r|e] eqn:E;
    destruct (mapM hash_key_of import_nodes) as [keys|e'] eqn:E';
    simpl; try contradiction; [|congruence].
  destruct H as [H1 H2]. rewrite H1.
  rewrite (dedupe_emit_spec _ _ H2). unfold survivors.
  pose proof (mapM_length _ _ _ E') as Hlen.
  rewrite length_zip_with. rewrite Hlen.
  replace (length import_nodes `min` length import_nodes)%nat
    with (length import_nodes) by lia.
  reflexivity.
Qed.

(** ** Sort keys *)

Lemma split_aux_cons (sep : ascii) (s cur : string) :
  exists t rest, split_aux sep s cur = t :: rest.
Proof.
  revert cur. induction s as [|c s IH]; intros cur; simpl; [eauto|].
  destruct (Ascii.eqb c sep); eauto.
Qed.

Lemma split_cons (sep : ascii) (s : string) :
  exists t rest, split sep s = t :: rest.
Proof. apply split_aux_cons. Qed.

(** The first token of the module path of a from-import, or of the dotted
    name of a direct import. *)
Definition leading_token (n : import_node) (nm : string) : string :=
  match kind n with
  | ImportFrom =>
      hd "" (if truthy (module n) then split "." (or_empty (module n)) else [""])
  | Import => hd "" (split "." nm)
  end.

(** The token is empty or starts below [chr(127)], as every token made of
    ASCII letters, digits and underscores does. *)
Definition below_sentinel (t : string) : Prop :=
  match t with
  | EmptyString => True
  | String c _ => ord c < 127
  end.

Lemma lower_char_below (c : ascii) :
  ord c < 127 -> Ascii.compare (lower_char c) LAST = Lt.
Proof.
  destruct c as [[] [] [] [] [] [] [] []]; intros H;
    vm_compute in H |- *; congruence.
Qed.

Lemma str_repeat_pos (c : ascii) (n : Z) :
  0 < n -> str_repeat c n = String c (str_repeat c (n - 1)).
Proof.
  intros H. unfold str_repeat.
  replace (Z.to_nat n) with (S (Z.to_nat (n - 1))) by lia. reflexivity.
Qed.

Lemma str_repeat_nonpos (c : ascii) (n : Z) : n <= 0 -> str_repeat c n = "".
Proof.
  intros H. unfold str_repeat. replace (Z.to_nat n) with O by lia. reflexivity.
Qed.

(** The key of a relative import starts with a token that starts with the
    sentinel. *)
Lemma relative_key_head (r : import_node) (nr : string) :
  kind r = ImportFrom -> 0 < level r ->
  exists t rest, _sort_key r nr = key_token (String LAST t) :: rest.
Proof.
  intros Hk Hl. unfold _sort_key. rewrite Hk, (str_repeat_pos _ _ Hl).
  destruct (truthy (module r)).
  - destruct (split_cons "." (or_empty (module r))) as (t & rest & ->).
    simpl. eauto.
  - simpl. eauto.
Qed.

(** The key of an absolute import starts with its leading token. *)
Lemma absolute_key_head (a : import_node) (na : string) :
  kind a = Import \/ level a <= 0 ->
  exists rest, _sort_key a na = key_token (leading_token a na) :: rest.
Proof.
  intros H. unfold _sort_key, leading_token. destruct (kind a) eqn:Hk.
  - destruct (split_cons "." na) as (t & rest & ->). simpl. eauto.
  - destruct H as [H|H]; [discriminate|].
    rewrite (str_repeat_nonpos _ _ H).
    destruct (truthy (module a)).
    + destruct (split_cons "." (or_empty (module a))) as (t & rest & ->).
      simpl. eauto.
    + simpl. eauto.
Qed.

Lemma below_sentinel_compare (t u : string) :
  below_sentinel t ->
  pair_compare (key_token t) (key_token (String LAST u)) = Lt.
Proof.
  intros H. unfold pair_compare, key_token, str_compare. simpl.
  destruct t as [|c t]; simpl; [reflexivity|].
  simpl in H. replace (lower_char LAST) with LAST by reflexivity.
  rewrite (lower_char_below c H). reflexivity.
Qed.

Lemma pair_compare_antisym (x y : string * string) :
  pair_compare x y = CompOpp (pair_compare y x).
Proof.
  unfold pair_compare, str_compare.
  rewrite (String.compare_antisym x.1 y.1), (String.compare_antisym x.2 y.2).
  destruct (String.compare y.1 x.1); reflexivity.
Qed.

(** C8, as amended: a relative import ([level > 0]) has a sort key strictly
    greater than that of every absolute import, direct or from, whose
    leading token is empty or starts with a character below [chr(127)]; this
    covers the absolute local imports that share its leading token when
    that token is ASCII.  The first token of the relative key starts with as
    many [chr(127)] as the level, and the first tokens decide. *)
Theorem relative_sorts_after_absolute (r a : import_node) (nr na : string) :
  kind r = ImportFrom -> 0 < level r ->
  kind a = Import \/ level a <= 0 ->
  below_sentinel (leading_token a na) ->
  key_compare (_sort_key a na) (_sort_key r nr) = Lt
  /\ key_lt (_sort_key a na) (_sort_key r nr) = true
  /\ key_lt (_sort_key r nr) (_sort_key a na) = false.
Proof.
  intros Hk Hl Ha Hb.
  destruct (relative_key_head r nr Hk Hl) as (t & rest & Hr).
  destruct (absolute_key_head a na Ha) as (rest' & Ha').
  unfold key_lt. rewrite Hr, Ha'. simpl.
  rewrite (below_sentinel_compare _ t Hb).
  rewrite (pair_compare_antisym (key_token (String LAST t))),
    (below_sentinel_compare _ t Hb). simpl. auto.
Qed.

Definition e_acute : string := String (ascii_of_nat 233) "".

Definition from_dot_e : import_node :=
  mk_import ImportFrom (Some e_acute) 1 [mk_alias "x" None] 1 false false.

Definition from_e : import_node :=
  mk_import ImportFrom (Some e_acute) 0 [mk_alias "y" None] 2 false false.

Definition from_dot_alpha : import_node :=
  mk_import ImportFrom (Some "alpha") 1 [mk_alias "x" None] 1 false false.

Definition from_alpha : import_node :=
  mk_import ImportFrom (Some "alpha") 0 [mk_alias "y" None] 2 false false.

Lemma relative_sorts_after_absolute_witness :
  key_compare (_sort_key from_alpha "y") (_sort_key from_dot_alpha "x") = Lt
  /\ key_lt (_sort_key from_alpha "y") (_sort_key from_dot_alpha "x") = true
  /\ key_lt (_sort_key from_dot_alpha "x") (_sort_key from_alpha "y") = false.
Proof.
  apply (relative_sorts_after_absolute from_dot_alpha from_alpha "x" "y").
  - reflexivity.
  - simpl. lia.
  - right. simpl. lia.
  - vm_compute. reflexivity.
Defined.

(** C8, as stated, fails for a module whose name starts with a letter
    above [chr(127)]: with the local module prefix [é] (code point 233),
    [from .é import x] and [from é import y] both go to the local group,
    share the leading token, and the relative one has the smaller key, so it
    is written first. *)
Lemma relative_sorts_before_non_ascii :
  classify Sample.STDLIB_NAMES (split "," e_acute) from_dot_e "x" = Locals
  /\ classify Sample.STDLIB_NAMES (split "," e_acute) from_e "y" = Locals
  /\ leading_token from_e "y" = e_acute
  /\ module from_dot_e = Some e_acute
  /\ key_lt (_sort_key from_dot_e "x") (_sort_key from_e "y") = true
  /\ locals_ <$> _get_import_groups Sample.STDLIB_NAMES id [from_e; from_dot_e] e_acute
     = Ok [from_dot_e; from_e].
Proof. vm_compute. repeat split; reflexivity. Qed.

(** ** The warning-drilling loop *)

Definition valid_index (len : nat) (i : Z) : Prop :=
  - Z.of_nat len <= i < Z.of_nat len.

Lemma py_index_valid {A : Type} (l : list A) (i : Z) (x : A) :
  py_index l i = Ok x -> valid_index (length l) i.
Proof.
  unfold py_index, valid_index. cbv zeta.
  destruct (Z.ltb_spec i 0) as [Hi|Hi].
  - destruct (Z.leb_spec 0 (i + Z.of_nat (length l)));
      destruct (Z.ltb_spec (i + Z.of_nat (length l)) (Z.of_nat (length l)));
      simpl; try discriminate; intros _; lia.
  - destruct (Z.leb_spec 0 i); destruct (Z.ltb_spec i (Z.of_nat (length l)));
      simpl; try discriminate; intros _; lia.
Qed.

Lemma py_setitem_length {A : Type} (l l' : list A) (i : Z) (x : A) :
  py_setitem l i x = Ok l' -> length l' = length l.
Proof.
  unfold py_setitem. destruct (_ && _); [|discriminate].
  intros [= <-]. apply length_insert.
Qed.

(** [V] holds every line number that a pass can accept from [messages],
    for a text of [len] lines. *)
Definition lines_within (V : gset Z) (len : nat) (messages : list message)
  : Prop :=
  forall arg0 line,
    In (UnusedImport arg0 line) messages -> valid_index len (line - 1) ->
    line ∈ V.

(** One message leaves the state as it is, or sets the flag and adds a line
    number that was not seen before. *)
Lemma drill_message_step (V : gset Z) (st st' : drill_state) (w : message) :
  lines_within V (length (d_source_lines st)) [w] ->
  d_seen_lineno st ⊆ V ->
  drill_message st w = Ok st' ->
  length (d_source_lines st') = length (d_source_lines st)
  /\ d_seen_lineno st' ⊆ V
  /\ (st' = st
      \/ d_has_warnings st' = true /\ d_seen_lineno st ⊂ d_seen_lineno st').
Proof.
  intros HV Hseen. destruct w as [arg0 line|line]; simpl.
  2:{ intros [= <-]. auto. }
  destruct (bool_decide (line ∈ d_seen_lineno st)) eqn:Hin.
  { intros [= <-]. auto. }
  apply bool_decide_eq_false in Hin.
  destruct (py_index (d_source_lines st) (line - 1)) as [text|e] eqn:Hidx;
    simpl; [|discriminate].
  destruct (leading_whitespace text).
  { intros [= <-]. auto. }
  destruct (py_setitem (d_source_lines st) (line - 1) "") as [blanked|e] eqn:Hset;
    simpl; [|discriminate].
  intros [= <-]. simpl.
  assert (Hline : line ∈ V).
  { apply (HV arg0); [simpl; auto|]. eapply py_index_valid. exact Hidx. }
  split; [eapply py_setitem_length; exact Hset|].
  split.
  { apply union_subseteq. split; [exact Hseen|].
    apply singleton_subseteq_l. exact Hline. }
  right. split; [reflexivity|]. split.
  - apply union_subseteq_l.
  - intros Hsub. apply Hin, Hsub, elem_of_union_r, elem_of_singleton.
    reflexivity.
Qed.

Lemma drill_messages_pass (V : gset Z) (messages : list message) :
  forall st st',
    lines_within V (length (d_source_lines st)) messages ->
    d_seen_lineno st ⊆ V ->
    drill_messages st messages = Ok st' ->
    length (d_source_lines st') = length (d_source_lines st)
    /\ d_seen_lineno st' ⊆ V
    /\ (st' = st
        \/ d_has_warnings st' = true /\ d_seen_lineno st ⊂ d_seen_lineno st').
Proof.
  induction messages as [|w messages IH]; intros st st' HV Hseen; simpl.
  - intros [= <-]. auto.
  - intros H. apply bind_inv in H as (st1 & H1 & H2).
    apply (drill_message_step V) in H1 as (Hlen1 & HV1 & Hst1); [|
      intros a l [->|[]] Hv; apply (HV a l); simpl; auto | exact Hseen].
    apply IH in H2 as (Hlen2 & HV2 & Hst2); [| | exact HV1].
    2:{ rewrite Hlen1. intros a l Hin Hv. apply (HV a l); simpl; auto. }
    split; [congruence|]. split; [exact HV2|].
    destruct Hst2 as [->|[Hh2 Hs2]]; [exact Hst1|].
    right. split; [exact Hh2|].
    destruct Hst1 as [->|[_ Hs1]]; [exact Hs2|].
    etransitivity; eassumption.
Qed.

Section Drill.

Variable ast_parse : string -> result ast.
Variable Checker : ast -> list message.

(** The loop ends once the fuel exceeds the number of acceptable line
    numbers that are not seen yet. *)
Lemma drill_loop_ends (V : gset Z) (len : nat) :
  (forall source tree,
     ast_parse source = Ok tree -> lines_within V len (Checker tree)) ->
  forall fuel messages st,
    lines_within V len messages ->
    length (d_source_lines st) = len ->
    d_seen_lineno st ⊆ V ->
    (size V - size (d_seen_lineno st) < fuel)%nat ->
    is_Some (drill_loop ast_parse Checker fuel messages st).
Proof.
  intros HC fuel. induction fuel as [|fuel IH]; intros messages st HV Hlen Hseen Hf;
    [lia|]. simpl.
  destruct (drill_messages _ messages) as [st'|e] eqn:Hpass; [|eauto].
  apply (drill_messages_pass V) in Hpass as (Hlen' & HV' & Hst');
    simpl in *; [| rewrite Hlen; exact HV | exact Hseen].
  destruct (d_has_warnings st') eqn:Hhas; simpl; [|eauto].
  destruct Hst' as [->|[_ Hgrow]]; [discriminate|].
  destruct (ast_parse _) as [tree|e] eqn:Hparse; [|eauto].
  apply IH; [eapply HC; exact Hparse | congruence | exact HV' |].
  apply subset_size in Hgrow. apply subseteq_size in HV'. lia.
Qed.

Lemma drill_loop_more_fuel (fuel : nat) :
  forall fuel' messages st r,
    (fuel <= fuel')%nat ->
    drill_loop ast_parse Checker fuel messages st = Some r ->
    drill_loop ast_parse Checker fuel' messages st = Some r.
Proof.
  induction fuel as [|fuel IH]; intros fuel' messages st r Hle; simpl;
    [discriminate|].
  destruct fuel' as [|fuel']; [lia|]. simpl.
  destruct (drill_messages _ messages) as [st'|e]; [|auto].
  destruct (negb (d_has_warnings st')); [auto|].
  destruct (ast_parse _) as [tree|e]; [|auto].
  apply IH. lia.
Qed.

(** Every subscript the loop accepts is a line number from [1 - len] to
    [len], so [drill_fuel] passes are always enough: [_drill_for_warnings]
    never takes its last branch. *)
Lemma drill_loop_total (source_lines : list string) (warnings : list message) :
  drill_loop ast_parse Checker (drill_fuel source_lines) warnings
    (mk_drill source_lines ∅ ∅ false)
  = Some (_drill_for_warnings ast_parse Checker source_lines warnings).
Proof.
  set (len := length source_lines).
  set (V := list_to_set (seqZ (1 - Z.of_nat len) (2 * Z.of_nat len)) : gset Z).
  assert (HV : forall ms, lines_within V len ms).
  { intros ms a l _ Hv. unfold valid_index in Hv. subst V.
    apply elem_of_list_to_set, elem_of_seqZ. lia. }
  assert (Hsize : size V = (2 * len)%nat).
  { subst V. rewrite size_list_to_set by apply NoDup_seqZ.
    rewrite length_seqZ. lia. }
  assert (Hsome : is_Some (drill_loop ast_parse Checker (drill_fuel source_lines)
                             warnings (mk_drill source_lines ∅ ∅ false))).
  { apply (drill_loop_ends V len).
    - intros source tree _. apply HV.
    - apply HV.
    - reflexivity.
    - apply empty_subseteq.
    - cbn [d_seen_lineno]. rewrite size_empty. unfold drill_fuel. fold len. lia. }
  destruct Hsome as [r Hr]. unfold _drill_for_warnings. rewrite Hr. reflexivity.
Qed.

End Drill.

(** A pass that sets [has_warnings] has added a line number to
    [seen_lineno]. *)
Lemma drill_pass_grows (source_lines : list string)
    (warnings_set : gset (string * Z)) (seen_lineno : gset Z)
    (messages : list message) (st' : drill_state) :
  drill_messages (mk_drill source_lines warnings_set seen_lineno false) messages
  = Ok st' ->
  d_has_warnings st' = true ->
  seen_lineno ⊂ d_seen_lineno st'.
Proof.
  intros Hpass Hhas.
  set (len := length source_lines).
  set (V := seen_lineno
            ∪ list_to_set (seqZ (1 - Z.of_nat len) (2 * Z.of_nat len)) : gset Z).
  apply (drill_messages_pass V) in Hpass as (_ & _ & [->|[_ H]]); simpl in *.
  - discriminate.
  - exact H.
  - intros a l _ Hv. unfold valid_index in Hv. subst V.
    apply elem_of_union_r, elem_of_list_to_set, elem_of_seqZ. fold len in Hv. lia.
  - subst V. set_solver.
Qed.

(** C10: the loop of [_drill_for_warnings] ends.  A pass that goes on to
    another one has added a line number to [seen_lineno]; when the checker
    reports line numbers from 1 on, the numbers added are lines of the
    working text, so a pass for every line and one more reach the [break]
    (or an exception): with that fuel the loop returns, and what it returns
    is the result of [_drill_for_warnings]. *)
Theorem drill_for_warnings_terminates (ast_parse : string -> result ast)
    (Checker : ast -> list message) (source_lines : list string)
    (warnings : list message) :
  (forall arg0 line, In (UnusedImport arg0 line) warnings -> 1 <= line) ->
  (forall source tree arg0 line,
     ast_parse source = Ok tree ->
     In (UnusedImport arg0 line) (Checker tree) -> 1 <= line) ->
  (forall lines warnings_set seen_lineno messages st',
     drill_messages (mk_drill lines warnings_set seen_lineno false) messages
     = Ok st' ->
     d_has_warnings st' = true ->
     seen_lineno ⊂ d_seen_lineno st')
  /\ drill_loop ast_parse Checker (S (length source_lines)) warnings
       (mk_drill source_lines ∅ ∅ false)
     = Some (_drill_for_warnings ast_parse Checker source_lines warnings).
Proof.
  intros H0 HC. split; [intros; eapply drill_pass_grows; eauto|].
  set (len := length source_lines).
  set (V := list_to_set (seqZ 1 (Z.of_nat len)) : gset Z).
  assert (HV : forall ms,
             (forall a l, In (UnusedImport a l) ms -> 1 <= l) ->
             lines_within V len ms).
  { intros ms Hms a l Hin Hv. unfold valid_index in Hv. subst V.
    apply Hms in Hin. apply elem_of_list_to_set, elem_of_seqZ. lia. }
  assert (Hsize : size V = len).
  { subst V. rewrite size_list_to_set by apply NoDup_seqZ.
    rewrite length_seqZ. lia. }
  assert (Hsome : is_Some (drill_loop ast_parse Checker (S len) warnings
                             (mk_drill source_lines ∅ ∅ false))).
  { apply (drill_loop_ends ast_parse Checker V len).
    - intros source tree Hp. apply HV. intros a l. apply (HC source tree a l Hp).
    - apply HV, H0.
    - reflexivity.
    - apply empty_subseteq.
    - cbn [d_seen_lineno]. rewrite size_empty. lia. }
  destruct Hsome as [r Hr]. rewrite Hr. f_equal.
  apply (drill_loop_more_fuel _ _ _ (drill_fuel source_lines)) in Hr;
    [|unfold drill_fuel; fold len; lia].
  rewrite drill_loop_total in Hr. congruence.
Qed.

(** ** The sample collaborators report lines of the text *)

Lemma sample_statement_line (line : Z) (text : string) (t : ast) :
  Sample.statement line text = Some t -> node_lineno t = Some line.
Proof.
  unfold Sample.statement.
  repeat match goal with
         | |- context [if ?b then _ else _] => destruct b
         end; intros [= <-]; reflexivity.
Qed.

Lemma sample_statements_lines (lines : list string) (k : Z) :
  1 <= k ->
  Forall (fun t => forall l, node_lineno t = Some l -> 1 <= l)
    (omap (fun p : Z * string => Sample.statement p.1 p.2) (enumerate k lines)).
Proof.
  revert k. induction lines as [|text lines IH]; intros k Hk; simpl;
    [constructor|].
  destruct (Sample.statement k text) as [t|] eqn:E; [|apply IH; lia].
  constructor; [|apply IH; lia].
  intros l Hl. apply sample_statement_line in E. congruence.
Qed.

Definition scope_lines_ok (sc : Sample.scope) : Prop :=
  Forall (fun b : string * (string * Z * bool) => 1 <= b.2.1.2) sc.

Lemma sample_bind_name_ok sc nm rep line :
  scope_lines_ok sc -> 1 <= line ->
  scope_lines_ok (Sample.bind_name sc nm rep line).
Proof.
  intros Hsc Hl. unfold scope_lines_ok, Sample.bind_name.
  destruct (existsb _ sc).
  - apply Forall_fmap. eapply Forall_impl; [exact Hsc|].
    intros b Hb. simpl. destruct (String.eqb b.1 nm); [exact Hl | exact Hb].
  - apply Forall_app. split; [exact Hsc|]. constructor; [exact Hl | constructor].
Qed.

Lemma sample_use_name_ok sc nm :
  scope_lines_ok sc -> scope_lines_ok (Sample.use_name sc nm).
Proof.
  intros Hsc. unfold scope_lines_ok, Sample.use_name.
  apply Forall_fmap. eapply Forall_impl; [exact Hsc|].
  intros b Hb. simpl. destruct (String.eqb b.1 nm); exact Hb.
Qed.

Lemma sample_visit_ok sc t :
  scope_lines_ok sc -> (forall l, node_lineno t = Some l -> 1 <= l) ->
  scope_lines_ok (Sample.visit sc t).
Proof.
  intros Hsc Ht. destruct t as [body|k line cs|cs]; simpl; try exact Hsc.
  destruct k as [ns|m lv ns|id|]; try exact Hsc.
  - destruct ns as [|a [|]]; try exact Hsc.
    apply sample_bind_name_ok; [exact Hsc | apply Ht; reflexivity].
  - destruct ns as [|a [|]]; try exact Hsc.
    apply sample_bind_name_ok; [exact Hsc | apply Ht; reflexivity].
  - clear Ht. revert sc Hsc. induction cs as [|c cs IH]; intros sc Hsc; simpl;
      [exact Hsc|].
    apply IH. destruct c as [|[| |id|] ? ?|]; try exact Hsc.
    apply sample_use_name_ok. exact Hsc.
Qed.

Lemma sample_checker_lines (source : string) (tree : ast) (arg0 : string)
    (line : Z) :
  Sample.ast_parse source = Ok tree ->
  In (UnusedImport arg0 line) (Sample.Checker tree) -> 1 <= line.
Proof.
  unfold Sample.ast_parse. intros [= <-]. unfold Sample.Checker. simpl.
  pose proof (sample_statements_lines (split (ascii_of_nat 10) source) 1
                ltac:(lia)) as Hst.
  set (body := omap _ _) in *.
  assert (Hsc : scope_lines_ok (fold_left Sample.visit body [])).
  { assert (Hgen : forall sc, scope_lines_ok sc ->
                              scope_lines_ok (fold_left Sample.visit body sc)).
    { induction Hst as [|t body Ht Hst IH]; intros sc Hsc; simpl; [exact Hsc|].
      apply IH, sample_visit_ok; assumption. }
    apply Hgen. constructor. }
  intros Hin. apply list_elem_of_In, list_elem_of_omap in Hin.
  destruct Hin as (b & Hb & Hw).
  apply (proj1 (Forall_forall _ _) Hsc) in Hb.
  destruct (b.2.2); [discriminate|]. injection Hw as _ <-. exact Hb.
Qed.

Definition two_unused : list string :=
  ["from a import x"; "from b import x"; "y = 1"].

Lemma drill_for_warnings_terminates_witness :
  (forall lines warnings_set seen_lineno messages st',
     drill_messages (mk_drill lines warnings_set seen_lineno false) messages
     = Ok st' ->
     d_has_warnings st' = true ->
     seen_lineno ⊂ d_seen_lineno st')
  /\ drill_loop Sample.ast_parse Sample.Checker (S (length two_unused))
       [UnusedImport "b.x" 2] (mk_drill two_unused ∅ ∅ false)
     = Some (_drill_for_warnings Sample.ast_parse Sample.Checker two_unused
               [UnusedImport "b.x" 2]).
Proof.
  apply (drill_for_warnings_terminates Sample.ast_parse Sample.Checker
           two_unused [UnusedImport "b.x" 2]).
  - intros arg0 line [[= _ <-]|[]]. lia.
  - exact sample_checker_lines.
Defined.

Example drill_two_unused :
  _drill_for_warnings Sample.ast_parse Sample.Checker two_unused
    [UnusedImport "b.x" 2]
  = Ok {[ ("b.x", 2); ("a.x", 1) ]}.
Proof. vm_compute. reflexivity. Qed.

(** ** Duplicate bindings: what the loop collects and the remover drops *)


(** The working text after [source_lines[line - 1] = ""]. *)
Definition blanked (source_lines : list string) (line : Z) : list string :=
  match py_setitem source_lines (line - 1) "" with
  | Ok l => l
  | Raise _ => source_lines
  end.













Definition from_a_x (line : Z) : import_node :=
  mk_import ImportFrom (Some "a") 0 [mk_alias "x" None] line false false.







(** The file with two unused bindings through the whole pipeline with the
    sample checker: both declarations are removed. *)
Example rewrite_two_unused :
  fst <$> Sample.rewrite id two_unused "" None = Ok ["y = 1"].
Proof. vm_compute. reflexivity. Qed.

(** ** The classifier and the order of the groups *)

Definition single_named (n : import_node) : bool :=
  match names n with
  | [_] => true
  | _ => false
  end.

(** The group of a declaration, from its first name. *)
Definition class_of (STDLIB_NAMES : gset string) (local_modules : list string)
    (n : import_node) : group :=
  match names n with
  | a :: _ => classify STDLIB_NAMES local_modules n (name a)
  | [] => Package
  end.

(** The declarations of a group, in the order of the list. *)
Definition members (STDLIB_NAMES : gset string) (local_modules : list string)
    (g : group) (imports : list import_node) : list import_node :=
  List.filter
    (fun n => bool_decide (class_of STDLIB_NAMES local_modules n = g)) imports.

Lemma members_cons (STDLIB_NAMES : gset string) (local_modules : list string)
    (g : group) (n : import_node) (imports : list import_node) :
  members STDLIB_NAMES local_modules g (n :: imports) =
  if bool_decide (class_of STDLIB_NAMES local_modules n = g)
  then n :: members STDLIB_NAMES local_modules g imports
  else members STDLIB_NAMES local_modules g imports.
Proof. reflexivity. Qed.

Lemma group_loop_spec (STDLIB_NAMES : gset string) (local_modules : list string)
    (imports : list import_node) :
  forall gs,
    group_loop STDLIB_NAMES local_modules imports gs =
    if forallb single_named imports then
      Ok (mk_groups
            (future gs ++ members STDLIB_NAMES local_modules Future imports)
            (stdlib gs ++ members STDLIB_NAMES local_modules Stdlib imports)
            (package gs ++ members STDLIB_NAMES local_modules Package imports)
            (nosort_ gs ++ members STDLIB_NAMES local_modules Nosort imports)
            (locals_ gs ++ members STDLIB_NAMES local_modules Locals imports))
    else Raise AssertionError.
Proof.
  induction imports as [|n imports IH]; intros gs.
  - simpl. rewrite !app_nil_r. destruct gs; reflexivity.
  - cbn [group_loop forallb]. rewrite !members_cons.
    unfold single_named at 1, class_of.
    destruct (names n) as [|a [|b rest]]; try reflexivity.
    rewrite IH. cbn [andb].
    destruct (forallb single_named imports); [|reflexivity].
    destruct (classify STDLIB_NAMES local_modules n (name a)); cbn;
      rewrite <- ?app_assoc; reflexivity.
Qed.

Lemma class_of_nosort (STDLIB_NAMES : gset string) (local_modules : list string)
    (n : import_node) :
  single_named n = true ->
  bool_decide (class_of STDLIB_NAMES local_modules n = Nosort) = nosort n.
Proof.
  unfold single_named, class_of, classify.
  destruct (names n) as [|a [|]]; try discriminate. intros _.
  destruct (kind n); destruct (nosort n); try reflexivity;
    repeat match goal with
           | |- context [if ?b then _ else _] => destruct b
           end; reflexivity.
Qed.

Lemma members_nosort (STDLIB_NAMES : gset string) (local_modules : list string)
    (imports : list import_node) :
  forallb single_named imports = true ->
  members STDLIB_NAMES local_modules Nosort imports = List.filter nosort imports.
Proof.
  unfold members. induction imports as [|n imports IH]; simpl; [reflexivity|].
  intros H. apply andb_prop in H as [Hn H].
  rewrite (class_of_nosort _ _ _ Hn), (IH H). reflexivity.
Qed.

Lemma insert_by_perm {A : Type} (key : A -> sort_key) (x : A) (l : list A) :
  Permutation (insert_by key x l) (x :: l).
Proof.
  induction l as [|y l IH]; simpl; [reflexivity|].
  destruct (key_lt (key y) (key x)); [|reflexivity].
  rewrite IH. apply perm_swap.
Qed.

Lemma sorted_perm {A : Type} (key : A -> sort_key) (l : list A) :
  Permutation (sorted key l) l.
Proof.
  unfold sorted. induction l as [|x l IH]; simpl; [reflexivity|].
  rewrite insert_by_perm, IH. reflexivity.
Qed.

Lemma key_compare_antisym (a b : sort_key) :
  key_compare a b = CompOpp (key_compare b a).
Proof.
  revert b. induction a as [|x a IH]; intros [|y b]; simpl; try reflexivity.
  rewrite (pair_compare_antisym x y).
  destruct (pair_compare y x); simpl; auto.
Qed.

Lemma key_lt_asym (a b : sort_key) : key_lt a b = true -> key_lt b a = false.
Proof.
  unfold key_lt. rewrite (key_compare_antisym b a).
  destruct (key_compare a b); simpl; congruence.
Qed.

(** [a] may stand before [b]: [b]'s key is not smaller than [a]'s. *)
Definition in_order {A : Type} (key : A -> sort_key) (a b : A) : Prop :=
  key_lt (key b) (key a) = false.

Lemma insert_by_sorted {A : Type} (key : A -> sort_key) (x : A) (l : list A) :
  Sorted (in_order key) l -> Sorted (in_order key) (insert_by key x l).
Proof.
  induction l as [|y l IH]; intros Hs; simpl.
  - repeat constructor.
  - destruct (key_lt (key y) (key x)) eqn:E.
    + apply Sorted_inv in Hs as [Hs Hd]. constructor; [apply IH; exact Hs|].
      destruct l as [|z l]; simpl.
      * constructor. apply key_lt_asym. exact E.
      * destruct (key_lt (key z) (key x)).
        -- constructor. apply HdRel_inv in Hd. exact Hd.
        -- constructor. apply key_lt_asym. exact E.
    + constructor; [exact Hs|]. constructor. exact E.
Qed.

Lemma sorted_is_sorted {A : Type} (key : A -> sort_key) (l : list A) :
  Sorted (in_order key) (sorted key l).
Proof.
  unfold sorted. induction l as [|x l IH]; simpl; [constructor|].
  apply insert_by_sorted. exact IH.
Qed.

Lemma render_single (n : import_node) :
  single_named n = true -> exists s, _write_singlename_import n = Ok s.
Proof.
  unfold single_named, _write_singlename_import.
  destruct (names n) as [|a [|]]; try discriminate. intros _.
  simpl. destruct (kind n); eauto.
Qed.

Lemma render_all (l : list import_node) :
  (forall n, In n l -> single_named n = true) ->
  exists r, mapM _write_singlename_import l = Ok r.
Proof.
  induction l as [|n l IH]; intros H; simpl; [eauto|].
  destruct (render_single n) as [s ->]; [apply H; simpl; auto|].
  destruct IH as [r ->]; [intros; apply H; simpl; auto|].
  simpl. eauto.
Qed.

Lemma members_single (STDLIB_NAMES : gset string) (local_modules : list string)
    (g : group) (imports l : list import_node) :
  forallb single_named imports = true ->
  Permutation l (members STDLIB_NAMES local_modules g imports) ->
  forall n, In n l -> single_named n = true.
Proof.
  intros Hall Hp n Hn. apply (Permutation_in _ Hp) in Hn.
  apply filter_In in Hn as [Hn _].
  exact (proj1 (forallb_forall _ _) Hall n Hn).
Qed.

(** The classifier and the writer: the four sorted groups hold the
    declarations classified as future, standard library, third party and
    local, each in the order of its keys; the declarations flagged
    suppress_sort form the passthrough group, in the order they had among
    themselves.  Written in the order future, standard library, third
    party, local, passthrough, each group that is not empty is followed by
    one empty line, the last of which is dropped.  The order in which a set
    of nodes is iterated is only known to be some order of its members. *)
Theorem groups_then_writer (STDLIB_NAMES : gset string)
    (set_iter : list import_node -> list import_node)
    (source_lines : list string) (imports : list import_node)
    (local_modules : string) (import_gap_lines : gset Z)
    (imports_start_on : Z) (gs : groups) :
  (forall l, Permutation (set_iter l) l) ->
  _get_import_groups STDLIB_NAMES set_iter imports local_modules = Ok gs ->
  let m := fun g => members STDLIB_NAMES (split "," local_modules) g imports in
  let numbered := enumerate 1 source_lines in
  nosort_ gs = List.filter nosort imports
  /\ Permutation (future gs) (m Future)
  /\ Permutation (stdlib gs) (m Stdlib)
  /\ Permutation (package gs) (m Package)
  /\ Permutation (locals_ gs) (m Locals)
  /\ Sorted (in_order node_key) (future gs)
  /\ Sorted (in_order node_key) (stdlib gs)
  /\ Sorted (in_order node_key) (package gs)
  /\ Sorted (in_order node_key) (locals_ gs)
  /\ exists rf rs rp rl rn,
       mapM _write_singlename_import (future gs) = Ok rf
       /\ mapM _write_singlename_import (stdlib gs) = Ok rs
       /\ mapM _write_singlename_import (package gs) = Ok rp
       /\ mapM _write_singlename_import (locals_ gs) = Ok rl
       /\ mapM _write_singlename_import (nosort_ gs) = Ok rn
       /\ _write_source source_lines
            [future gs; stdlib gs; package gs; locals_ gs; nosort_ gs]
            import_gap_lines imports_start_on
          = Ok (kept import_gap_lines (before imports_start_on numbered)
                  ++ (if (1 <=? imports_start_on)
                         && (imports_start_on <=? Z.of_nat (length source_lines))
                      then import_block [rf; rs; rp; rl; rn] else [])
                  ++ kept import_gap_lines (from imports_start_on numbered)).
Proof.
  intros Hperm Hgs m numbered. unfold _get_import_groups in Hgs.
  rewrite group_loop_spec in Hgs.
  destruct (forallb single_named imports) eqn:Hall; [|discriminate].
  cbn in Hgs. injection Hgs as <-. cbn [future stdlib package nosort_ locals_].
  fold (m Future) (m Stdlib) (m Package) (m Locals) (m Nosort).
  unfold sorted_set.
  assert (Hp : forall g, Permutation (sorted node_key (set_iter (m g))) (m g)).
  { intros g. rewrite sorted_perm. apply Hperm. }
  split; [apply members_nosort; exact Hall|].
  repeat (split; [apply Hp|]).
  repeat (split; [apply sorted_is_sorted|]).
  destruct (render_all _ (members_single _ _ Future imports _ Hall (Hp Future)))
    as [rf Hrf].
  destruct (render_all _ (members_single _ _ Stdlib imports _ Hall (Hp Stdlib)))
    as [rs Hrs].
  destruct (render_all _ (members_single _ _ Package imports _ Hall (Hp Package)))
    as [rp Hrp].
  destruct (render_all _ (members_single _ _ Locals imports _ Hall (Hp Locals)))
    as [rl Hrl].
  destruct (render_all (m Nosort)) as [rn Hrn].
  { intros n Hn. apply filter_In in Hn as [Hn _].
    exact (proj1 (forallb_forall _ _) Hall n Hn). }
  exists rf, rs, rp, rl, rn. repeat (split; [assumption|]).
  rewrite write_source_spec.
  unfold render_groups. cbn [mapM]. fold m.
  rewrite Hrf, Hrs, Hrp, Hrl, Hrn. simpl.
  destruct ((1 <=? imports_start_on)
            && (imports_start_on <=? Z.of_nat (length source_lines)));
    reflexivity.
Qed.

Definition from_dot_x : import_node :=
  mk_import ImportFrom None 1 [mk_alias "x" None] 1 true true.

Definition from_dot_y : import_node :=
  mk_import ImportFrom None 1 [mk_alias "y" None] 2 false false.

Definition passthrough_file : list string :=
  ["from . import x  # noqa nosort"; "from . import y"; "print(x, y)"].

Definition passthrough_groups : groups :=
  mk_groups [] [] [] [from_dot_x] [from_dot_y].

Lemma groups_then_writer_example :
  nosort_ passthrough_groups = List.filter nosort [from_dot_x; from_dot_y]
  /\ Permutation (future passthrough_groups)
       (members Sample.STDLIB_NAMES (split "," "") Future [from_dot_x; from_dot_y])
  /\ Permutation (stdlib passthrough_groups)
       (members Sample.STDLIB_NAMES (split "," "") Stdlib [from_dot_x; from_dot_y])
  /\ Permutation (package passthrough_groups)
       (members Sample.STDLIB_NAMES (split "," "") Package [from_dot_x; from_dot_y])
  /\ Permutation (locals_ passthrough_groups)
       (members Sample.STDLIB_NAMES (split "," "") Locals [from_dot_x; from_dot_y])
  /\ Sorted (in_order node_key) (future passthrough_groups)
  /\ Sorted (in_order node_key) (stdlib passthrough_groups)
  /\ Sorted (in_order node_key) (package passthrough_groups)
  /\ Sorted (in_order node_key) (locals_ passthrough_groups)
  /\ exists rf rs rp rl rn,
       mapM _write_singlename_import (future passthrough_groups) = Ok rf
       /\ mapM _write_singlename_import (stdlib passthrough_groups) = Ok rs
       /\ mapM _write_singlename_import (package passthrough_groups) = Ok rp
       /\ mapM _write_singlename_import (locals_ passthrough_groups) = Ok rl
       /\ mapM _write_singlename_import (nosort_ passthrough_groups) = Ok rn
       /\ _write_source passthrough_file
            [future passthrough_groups; stdlib passthrough_groups;
             package passthrough_groups; locals_ passthrough_groups;
             nosort_ passthrough_groups]
            {[1; 2]} 1
          = Ok (kept {[1; 2]} (before 1 (enumerate 1 passthrough_file))
                  ++ (if (1 <=? 1) && (1 <=? Z.of_nat (length passthrough_file))
                      then import_block [rf; rs; rp; rl; rn] else [])
                  ++ kept {[1; 2]} (from 1 (enumerate 1 passthrough_file))).
Proof.
  apply (groups_then_writer Sample.STDLIB_NAMES id passthrough_file
           [from_dot_x; from_dot_y] "" {[1; 2]} 1 passthrough_groups).
  - intros l. reflexivity.
  - vm_compute. reflexivity.
Defined.

(** The declarations that [_rewrite_source] groups and writes: those of
    the second parse, of the text with one declaration on a line, after the
    remover (when the threshold lets it run).  [gaps] and [start] are what
    its two calls of the writer get as [import_gap_lines] and
    [imports_start_on]. *)
Definition grouped_by_rewrite (ast_parse : string -> result ast)
    (Checker : ast -> list message)
    (star_names : option string -> result (list string))
    (source_lines : list string) (keep_threshhold : option Z)
    (expand_stars : bool) (imports : list import_node) (gaps : gset Z)
    (start : Z) : Prop :=
  exists parsed deduped on_singleline parsed2 warnings,
    _parse_toplevel_imports ast_parse Checker source_lines false = Ok parsed
    /\ start = match parsed.1.1 with n :: _ => lineno n | [] => 0 end
    /\ _get_import_discard_lines source_lines parsed.1.1 parsed.2 = Ok gaps
    /\ (flat ← _as_single_imports star_names parsed.1.1 stats0 expand_stars;
        _dedupe_single_imports flat.1 flat.2) = Ok deduped
    /\ _write_source source_lines [deduped.1] gaps start = Ok on_singleline
    /\ _parse_toplevel_imports ast_parse Checker on_singleline true = Ok parsed2
    /\ parsed2.1.2 = Some warnings
    /\ imports = (remove_stage keep_threshhold (length parsed.1.1) parsed2.1.1
                    warnings parsed2.2 deduped.2).1.

(** C4, as amended: what [_rewrite_source] returns is the text before the
    first import, then the import block, then the rest of the text, both
    without the lines of the imports.  The block holds the five groups of
    the declarations left after the remover, written in the order future,
    standard library, third party, local, passthrough: the four sorted
    groups hold the declarations of their class in the order of their keys,
    and the passthrough group holds the declarations flagged suppress_sort
    in the order they had among themselves; it is written last, after the
    local group, not at the place they had among the imports.  The order in
    which a set of nodes is iterated is only known to be some order of its
    members. *)
Theorem groups_written_in_order
    (ast_parse : string -> result ast) (Checker : ast -> list message)
    (star_names : option string -> result (list string))
    (STDLIB_NAMES : gset string)
    (set_iter : list import_node -> list import_node)
    (Differ_compare : list string -> list string -> list string)
    (source_lines : list string) (local_modules : string)
    (keep_threshhold : option Z) (expand_stars : bool)
    (out : list string) (st : stats) :
  (forall l, Permutation (set_iter l) l) ->
  _rewrite_source ast_parse Checker star_names STDLIB_NAMES set_iter
    Differ_compare source_lines local_modules keep_threshhold expand_stars
  = Ok (out, st) ->
  exists imports gaps start gs rf rs rp rl rn,
    grouped_by_rewrite ast_parse Checker star_names source_lines
      keep_threshhold expand_stars imports gaps start
    /\ _get_import_groups STDLIB_NAMES set_iter imports local_modules = Ok gs
    /\ (let m := fun g =>
          members STDLIB_NAMES (split "," local_modules) g imports in
        nosort_ gs = List.filter nosort imports
        /\ Permutation (future gs) (m Future)
        /\ Permutation (stdlib gs) (m Stdlib)
        /\ Permutation (package gs) (m Package)
        /\ Permutation (locals_ gs) (m Locals))
    /\ (Sorted (in_order node_key) (future gs)
        /\ Sorted (in_order node_key) (stdlib gs)
        /\ Sorted (in_order node_key) (package gs)
        /\ Sorted (in_order node_key) (locals_ gs))
    /\ (mapM _write_singlename_import (future gs) = Ok rf
        /\ mapM _write_singlename_import (stdlib gs) = Ok rs
        /\ mapM _write_singlename_import (package gs) = Ok rp
        /\ mapM _write_singlename_import (locals_ gs) = Ok rl
        /\ mapM _write_singlename_import (nosort_ gs) = Ok rn)
    /\ out
       = kept gaps (before start (enumerate 1 source_lines))
         ++ (if (1 <=? start) && (start <=? Z.of_nat (length source_lines))
             then import_block [rf; rs; rp; rl; rn] else [])
         ++ kept gaps (from start (enumerate 1 source_lines)).
Proof.
  intros Hperm H. unfold _rewrite_source in H.
  apply bind_inv in H as (parsed & Hparsed & H). cbv zeta in H.
  apply bind_inv in H as (gaps & Hgaps & H).
  apply bind_inv in H as (flat & Hflat & H).
  apply bind_inv in H as (deduped & Hdeduped & H).
  apply bind_inv in H as (on_singleline & Hsingle & H).
  apply bind_inv in H as (parsed2 & Hparsed2 & H).
  apply bind_inv in H as (warnings & Hwarnings & H).
  apply bind_inv in H as (gs & Hgs & H).
  apply bind_inv in H as (rewritten & Hrewritten & H). injection H as <- _.
  set (start := match parsed.1.1 with n :: _ => lineno n | [] => 0 end) in *.
  set (imports := (remove_stage keep_threshhold (length parsed.1.1) parsed2.1.1
                     warnings parsed2.2 deduped.2).1) in *.
  destruct (groups_then_writer STDLIB_NAMES set_iter source_lines imports
              local_modules gaps start gs Hperm Hgs)
    as (Hn & Hf & Hs & Hp & Hl & Sf & Ss & Sp & Sl
        & rf & rs & rp & rl & rn & Rf & Rs & Rp & Rl & Rn & Hw).
  exists imports, gaps, start, gs, rf, rs, rp, rl, rn.
  split.
  { exists parsed, deduped, on_singleline, parsed2, warnings.
    split; [exact Hparsed|]. split; [reflexivity|]. split; [exact Hgaps|].
    split; [rewrite Hflat; exact Hdeduped|]. split; [exact Hsingle|].
    split; [exact Hparsed2|]. split; [|reflexivity].
    destruct (parsed2.1.2); [injection Hwarnings as ->; reflexivity | discriminate]. }
  split; [exact Hgs|]. split; [cbv zeta; auto|]. split; [auto|].
  split; [auto|]. rewrite Hw in Hrewritten. injection Hrewritten as <-.
  reflexivity.
Qed.

(** A file with a declaration of each group, in the opposite order. *)
Definition five_groups : list string :=
  ["from . import x  # noqa nosort";
   "from . import y";
   "import requests";
   "import os";
   "from __future__ import division";
   "print(x, y, requests, os, division)"].

Definition five_groups_sorted : list string :=
  ["from __future__ import division"; "";
   "import os"; "";
   "import requests"; "";
   "from . import y"; "";
   "from . import x  # noqa nosort";
   "print(x, y, requests, os, division)"].

Lemma groups_written_in_order_witness :
  (forall l : list import_node, Permutation (id l) l)
  /\ fst <$> Sample.rewrite id five_groups "" None = Ok five_groups_sorted
  /\ exists imports gaps start gs rf rs rp rl rn,
       grouped_by_rewrite Sample.ast_parse Sample.Checker Sample.star_names
         five_groups None false imports gaps start
       /\ _get_import_groups Sample.STDLIB_NAMES id imports "" = Ok gs
       /\ (let m := fun g =>
             members Sample.STDLIB_NAMES (split "," "") g imports in
           nosort_ gs = List.filter nosort imports
           /\ Permutation (future gs) (m Future)
           /\ Permutation (stdlib gs) (m Stdlib)
           /\ Permutation (package gs) (m Package)
           /\ Permutation (locals_ gs) (m Locals))
       /\ (Sorted (in_order node_key) (future gs)
           /\ Sorted (in_order node_key) (stdlib gs)
           /\ Sorted (in_order node_key) (package gs)
           /\ Sorted (in_order node_key) (locals_ gs))
       /\ (mapM _write_singlename_import (future gs) = Ok rf
           /\ mapM _write_singlename_import (stdlib gs) = Ok rs
           /\ mapM _write_singlename_import (package gs) = Ok rp
           /\ mapM _write_singlename_import (locals_ gs) = Ok rl
           /\ mapM _write_singlename_import (nosort_ gs) = Ok rn)
       /\ five_groups_sorted
          = kept gaps (before start (enumerate 1 five_groups))
            ++ (if (1 <=? start) && (start <=? Z.of_nat (length five_groups))
                then import_block [rf; rs; rp; rl; rn] else [])
            ++ kept gaps (from start (enumerate 1 five_groups)).
Proof.
  assert (Hp : forall l : list import_node, Permutation (id l) l)
    by (intros l; reflexivity).
  destruct (Sample.rewrite id five_groups "" None) as [[out st]|e] eqn:E;
    [|vm_compute in E; discriminate].
  assert (Hout : out = five_groups_sorted).
  { vm_compute in E. injection E as <- _. reflexivity. }
  split; [exact Hp|]. split; [simpl; f_equal; exact Hout|].
  rewrite <- Hout.
  exact (groups_written_in_order Sample.ast_parse Sample.Checker
           Sample.star_names Sample.STDLIB_NAMES id Sample.Differ_compare
           five_groups "" None false out st Hp E).
Defined.

(** C4, as stated, fails on the example of the specification: the
    declaration flagged suppress_sort is the first import of the file and
    the last one of the output, after the local group.  Every set has one
    member here, so the iteration order plays no part. *)
Lemma passthrough_group_is_written_last :
  fst <$> Sample.rewrite id passthrough_file "" None
  = Ok ["from . import y"; ""; "from . import x  # noqa nosort"; "print(x, y)"]
  /\ _get_import_groups Sample.STDLIB_NAMES id [from_dot_x; from_dot_y] ""
     = Ok passthrough_groups.
Proof. split; vm_compute; reflexivity. Qed.

(** ** The two options that exclude each other *)

Definition conflict : exn :=
  Exception "keep-unused and heuristic-unused are mutually exclusive".

(** X27: with [-k] and a threshold other than zero, the run stops in the first
    pass of the loop over the files, once the first file is read: nothing
    is written anywhere. *)
Lemma keep_unused_with_threshold_is_refused
    (ast_parse : string -> result ast) (Checker : ast -> list message)
    (star_names : option string -> result (list string))
    (STDLIB_NAMES : gset string)
    (set_iter : list import_node -> list import_node)
    (Differ_compare : list string -> list string -> list string)
    (fs : Type) (fs_read : fs -> string -> result (list string))
    (fs_write : fs -> string -> string -> fs)
    (o : options) (disk : fs) (n : Z) (file : string) (rest file_ : list string) :
  keep_unused o = true -> heuristic_unused o = Some n -> n <> 0 ->
  filename o = file :: rest -> fs_read disk file = Ok file_ ->
  main ast_parse Checker star_names STDLIB_NAMES set_iter Differ_compare
    fs fs_read fs_write o disk
  = (mk_run fs disk [] (Some n), Some conflict).
Proof.
  intros Hk Hh Hn Hf Hr. unfold main. rewrite Hf, Hh. simpl.
  unfold main_file. simpl. rewrite Hr, Hk. simpl.
  destruct (Z.eqb_spec n 0); [contradiction|]. reflexivity.
Qed.

Definition keep_and_zero : options :=
  mk_options "" true (Some 0) false false false ["f.py"].

Definition unused_os : Sample.disk := [("f.py", ["import os" +:+ newline])].

(** C9, at the failing input: with [-k] and [--heuristic-unused 0] the run
    raises nothing; the file is processed with the threshold 0 and its text
    is written to the standard output. *)
Lemma keep_unused_with_zero_threshold_runs :
  (Sample.run_main id keep_and_zero unused_os).2 = None
  /\ run_events _ (Sample.run_main id keep_and_zero unused_os).1
     = [StderrUnchanged "f.py"; StdoutWrite ("import os" +:+ newline)].
Proof. split; vm_compute; reflexivity. Qed.

(** The same file with [--heuristic-unused 5] instead. *)
Example keep_unused_with_five_is_refused :
  Sample.run_main id (mk_options "" true (Some 5) false false false ["f.py"])
    unused_os
  = (mk_run _ unused_os [] (Some 5), Some conflict).
Proof. vm_compute. reflexivity. Qed.

(** ** Declarations with equal sort keys *)

Definition foo_as (b : string) (line : Z) : import_node :=
  mk_import Import None 0 [mk_alias "foo" (Some b)] line false false.

(** The sort key leaves out the alias, which the key of the deduplicator
    includes: two declarations that differ in the alias only both survive
    and compare equal. *)
Lemma alias_is_not_in_the_sort_key :
  node_key (foo_as "a" 1) = node_key (foo_as "b" 2)
  /\ hash_key_of (foo_as "a" 1) <> hash_key_of (foo_as "b" 2).
Proof. split; [reflexivity | discriminate]. Qed.

(** C2, at the failing input: the two declarations have equal keys, so
    their order in the output is the order in which the set that holds them
    is iterated.  When that order is the reverse of the order of insertion,
    the output of the rewrite is not a fixed point of the rewrite: a second
    run swaps the two lines again.  (When it is the order of insertion the
    file is left as it is.) *)
Lemma equal_keys_are_not_a_fixed_point :
  let file := ["import foo as a"; "import foo as b"; "a(b)"] in
  let once := ["import foo as b"; "import foo as a"; "a(b)"] in
  (forall l : list import_node, Permutation (rev l) l)
  /\ fst <$> Sample.rewrite (@rev import_node) file "" None = Ok once
  /\ fst <$> Sample.rewrite (@rev import_node) once "" None = Ok file
  /\ fst <$> Sample.rewrite id file "" None = Ok file.
Proof.
  split; [intros l; symmetry; apply Permutation_rev|].
  repeat split; vm_compute; reflexivity.
Qed.

(** ** The tree walk *)

Definition queue_size (todo : list (option ast * ast)) : nat :=
  list_sum (map (fun pn => ast_size pn.2) todo).

Lemma ast_size_children (t : ast) :
  ast_size t = S (list_sum (map ast_size (iter_child_nodes t))).
Proof. destruct t; reflexivity. Qed.

Lemma queue_size_app (q1 q2 : list (option ast * ast)) :
  queue_size (q1 ++ q2) = (queue_size q1 + queue_size q2)%nat.
Proof. unfold queue_size. rewrite map_app, list_sum_app. reflexivity. Qed.

Lemma queue_size_children (parent : option ast) (cs : list ast) :
  queue_size (map (pair parent) cs) = list_sum (map ast_size cs).
Proof.
  unfold queue_size. rewrite map_map. reflexivity.
Qed.

(** The fuel of [walk] is enough: every node of the tree is visited. *)
Lemma walk_queue_length (fuel : nat) :
  forall todo, (queue_size todo <= fuel)%nat ->
               length (walk_queue fuel todo) = queue_size todo.
Proof.
  induction fuel as [|fuel IH]; intros todo Hle.
  - destruct todo as [|[p t] rest]; [reflexivity|].
    unfold queue_size in Hle. simpl in Hle. rewrite ast_size_children in Hle. lia.
  - destruct todo as [|[p t] rest]; [reflexivity|].
    simpl. rewrite IH.
    + rewrite queue_size_app, queue_size_children.
      unfold queue_size. simpl. rewrite (ast_size_children t). lia.
    + rewrite queue_size_app, queue_size_children.
      unfold queue_size in *. simpl in Hle.
      rewrite (ast_size_children t) in Hle. lia.
Qed.

Lemma walk_length (tree : ast) : length (walk tree) = ast_size tree.
Proof.
  unfold walk. rewrite walk_queue_length; unfold queue_size; simpl; lia.
Qed.

(** ** The deduplicator and the identity of a declaration *)

(** Two declarations have the same identity, in the words of the
    specification: both are direct imports with the same exported name and
    local alias, or both are from-imports with the same module path,
    relative level, exported name and local alias. *)
Definition same_identity (n m : import_node) : bool :=
  match kind n, kind m with
  | Import, Import =>
      bool_decide (name <$> names n = name <$> names m)
      && bool_decide (asname <$> names n = asname <$> names m)
  | ImportFrom, ImportFrom =>
      bool_decide (module n = module m)
      && (level n =? level m)
      && bool_decide (name <$> names n = name <$> names m)
      && bool_decide (asname <$> names n = asname <$> names m)
  | _, _ => false
  end.

(** The declaration [n] at position [i] is the one kept for its identity:
    it is the first seen, unless a later duplicate is suppressed and it is
    not; or it is suppressed and no duplicate seen before it is. *)
Definition is_kept (nodes : list import_node) (i : nat) (n : import_node) : bool :=
  let duplicate := fun m => same_identity m n in
  let earlier := take i nodes in
  let later := drop (S i) nodes in
  if noqa n
  then negb (existsb (fun m => duplicate m && noqa m) earlier)
  else negb (existsb duplicate earlier)
       && negb (existsb (fun m => duplicate m && noqa m) later).

Fixpoint kept_from (rest all : list import_node) (i : nat)
  : list import_node :=
  match rest with
  | [] => []
  | n :: rest' =>
      if is_kept all i n then n :: kept_from rest' all (S i)
      else kept_from rest' all (S i)
  end.

(** What the specification says is left of a list of declarations. *)
Definition deduplicated (nodes : list import_node) : list import_node :=
  kept_from nodes nodes 0.

Lemma hash_key_identity (n m : import_node) (k k' : hash_key) :
  hash_key_of n = Ok k -> hash_key_of m = Ok k' ->
  (k = k' <-> same_identity n m = true).
Proof.
  unfold hash_key_of, same_identity.
  destruct (names n) as [|a [|]]; try discriminate.
  destruct (names m) as [|b [|]]; try discriminate.
  destruct (kind n), (kind m); intros [= <-] [= <-]; simpl.
  - rewrite andb_true_iff, !bool_decide_eq_true. split.
    + intros [= -> ->]. auto.
    + intros [[= ->] [= ->]]. reflexivity.
  - split; discriminate.
  - split; discriminate.
  - rewrite !andb_true_iff, !bool_decide_eq_true, Z.eqb_eq. split.
    + intros [= -> -> -> ->]. auto.
    + intros [[[-> ->] [= ->]] [= ->]]. reflexivity.
Qed.

Lemma mapM_lookup {A B : Type} (f : A -> result B) (l : list A) (l' : list B) :
  mapM f l = Ok l' ->
  forall i x y, l !! i = Some x -> l' !! i = Some y -> f x = Ok y.
Proof.
  revert l'. induction l as [|a l IH]; intros l' H i x y Hx Hy.
  - discriminate.
  - simpl in H. apply bind_inv in H as (b & Hb & H).
    apply bind_inv in H as (bs & Hbs & H). injection H as <-.
    destruct i as [|i]; simpl in Hx, Hy.
    + injection Hx as <-. injection Hy as <-. exact Hb.
    + exact (IH bs Hbs i x y Hx Hy).
Qed.

Lemma existsb_false_lookup {A : Type} (f : A -> bool) (l : list A) :
  existsb f l = false <-> forall j x, l !! j = Some x -> f x = false.
Proof.
  induction l as [|a l IH]; simpl.
  - split; [intros _ j x H; discriminate | reflexivity].
  - rewrite orb_false_iff, IH. split.
    + intros [Ha Hl] [|j] x H; simpl in H; [injection H as <-; exact Ha|eauto].
    + intros H. split; [exact (H 0%nat a eq_refl)|].
      intros j x Hj. exact (H (S j) x Hj).
Qed.

Lemma existsb_take_false {A : Type} (f : A -> bool) (l : list A) (i : nat) :
  existsb f (take i l) = false
  <-> forall j x, (j < i)%nat -> l !! j = Some x -> f x = false.
Proof.
  rewrite existsb_false_lookup. split.
  - intros H j x Hj Hx. apply (H j). rewrite lookup_take_lt by exact Hj. exact Hx.
  - intros H j x Hx. apply lookup_take_Some in Hx as [Hx Hj]. eauto.
Qed.

Lemma existsb_drop_false {A : Type} (f : A -> bool) (l : list A) (i : nat) :
  existsb f (drop (S i) l) = false
  <-> forall j x, (i < j)%nat -> l !! j = Some x -> f x = false.
Proof.
  rewrite existsb_false_lookup. split.
  - intros H j x Hj Hx. apply (H (j - S i)%nat). rewrite lookup_drop.
    replace (S i + (j - S i))%nat with j by lia. exact Hx.
  - intros H j x Hx. rewrite lookup_drop in Hx. apply (H (S i + j)%nat); [lia|].
    exact Hx.
Qed.

(** The declaration at a position is the winner of its key exactly when it
    is the one kept for its identity. *)
Lemma winner_kept (nodes : list import_node) (keys : list hash_key) :
  mapM hash_key_of nodes = Ok keys ->
  forall i n k, nodes !! i = Some n -> keys !! i = Some k ->
    bool_decide (fst <$> winner (zip nodes keys) k = Some i) = is_kept nodes i n.
Proof.
  intros HM i n k Hn Hk.
  assert (Hkey : forall j m k', nodes !! j = Some m -> keys !! j = Some k' ->
                   (k' = k <-> same_identity m n = true)).
  { intros j m k' Hm Hk'.
    apply (hash_key_identity m n k' k);
      [exact (mapM_lookup _ _ _ HM j m k' Hm Hk')
      |exact (mapM_lookup _ _ _ HM i n k Hn Hk)]. }
  assert (Hzip : forall j p, zip nodes keys !! j = Some p ->
                   nodes !! j = Some p.1 /\ keys !! j = Some p.2).
  { intros j p Hp. apply lookup_zip_with_Some in Hp as (x & y & -> & Hx & Hy).
    auto. }
  assert (Hself : zip nodes keys !! i = Some (n, k)).
  { apply lookup_zip_with_Some. eauto. }
  assert (Hlen : length keys = length nodes)
    by exact (mapM_length _ _ _ HM).
  assert (Hall : forall j m, nodes !! j = Some m ->
                   exists k', keys !! j = Some k'
                              /\ zip nodes keys !! j = Some (m, k')).
  { intros j m Hm. destruct (keys !! j) as [k'|] eqn:E.
    - exists k'. split; [reflexivity|]. apply lookup_zip_with_Some. eauto.
    - apply lookup_ge_None in E. apply lookup_lt_Some in Hm. lia. }
  unfold winner, is_kept.
  destruct (list_find (fun p : import_node * hash_key =>
                         p.2 = k /\ noqa p.1 = true) (zip nodes keys))
    as [[i0 [m0 k0]]|] eqn:F1.
  - apply list_find_Some in F1 as (Hl0 & [Hk0 Hq0] & Hmin). simpl in Hk0, Hq0.
    destruct (Hzip _ _ Hl0) as [Hm0 Hk0']. simpl in Hm0, Hk0'.
    pose proof (proj1 (Hkey i0 m0 k0 Hm0 Hk0') Hk0) as Hsame.
    simpl. destruct (noqa n) eqn:Q.
    + destruct (lt_eq_lt_dec i0 i) as [[Hlt|Heq]|Hgt].
      * rewrite bool_decide_eq_false_2 by (intros [= ?]; lia).
        symmetry. apply negb_false_iff, not_false_iff_true. intros Hf.
        rewrite existsb_take_false in Hf.
        specialize (Hf i0 m0 Hlt Hm0). simpl in Hf.
        rewrite Hsame, Hq0 in Hf. discriminate.
      * subst i0. rewrite bool_decide_eq_true_2 by reflexivity.
        symmetry. apply negb_true_iff, existsb_take_false.
        intros j m Hj Hm. destruct (Hall j m Hm) as (k' & Hk' & Hz).
        destruct (same_identity m n) eqn:S; [|reflexivity].
        destruct (noqa m) eqn:Qm; [|reflexivity]. exfalso.
        apply (Hmin j (m, k') Hz Hj). split; [|exact Qm].
        exact (proj2 (Hkey j m k' Hm Hk') S).
      * exfalso. apply (Hmin i (n, k) Hself Hgt). split; [reflexivity|exact Q].
    + assert (Hne : i0 <> i).
      { intros ->. rewrite Hn in Hm0. injection Hm0 as ->. congruence. }
      rewrite bool_decide_eq_false_2 by (intros [= ?]; contradiction).
      symmetry. apply andb_false_iff.
      destruct (lt_eq_lt_dec i0 i) as [[Hlt|Heq]|Hgt]; [|contradiction|].
      * left. apply negb_false_iff, not_false_iff_true. intros Hf.
        rewrite existsb_take_false in Hf.
        specialize (Hf i0 m0 Hlt Hm0). simpl in Hf. congruence.
      * right. apply negb_false_iff, not_false_iff_true. intros Hf.
        rewrite existsb_drop_false in Hf.
        specialize (Hf i0 m0 Hgt Hm0). simpl in Hf.
        rewrite Hsame, Hq0 in Hf. discriminate.
  - apply list_find_None in F1.
    assert (Hnone : forall j m, nodes !! j = Some m ->
                      same_identity m n && noqa m = false).
    { intros j m Hm. destruct (Hall j m Hm) as (k' & Hk' & Hz).
      destruct (same_identity m n) eqn:S; [|reflexivity].
      destruct (noqa m) eqn:Qm; [|reflexivity]. exfalso.
      apply (proj1 (Forall_lookup _ _) F1 j (m, k') Hz). split; [|exact Qm].
      exact (proj2 (Hkey j m k' Hm Hk') S). }
    assert (Q : noqa n = false).
    { specialize (Hnone i n Hn).
      rewrite (proj1 (Hkey i n k Hn Hk) eq_refl) in Hnone. exact Hnone. }
    rewrite Q.
    destruct (list_find (fun p : import_node * hash_key => p.2 = k)
                (zip nodes keys)) as [[i1 [m1 k1]]|] eqn:F2.
    + apply list_find_Some in F2 as (Hl1 & Hk1 & Hmin). simpl in Hk1.
      destruct (Hzip _ _ Hl1) as [Hm1 Hk1']. simpl in Hm1, Hk1'.
      pose proof (proj1 (Hkey i1 m1 k1 Hm1 Hk1') Hk1) as Hsame.
      simpl.
      replace (existsb (fun m => same_identity m n && noqa m)
                 (drop (S i) nodes)) with false
        by (symmetry; apply existsb_drop_false; intros j m _ Hm; eauto).
      rewrite andb_true_r.
      destruct (lt_eq_lt_dec i1 i) as [[Hlt|Heq]|Hgt].
      * rewrite bool_decide_eq_false_2 by (intros [= ?]; lia).
        symmetry. apply negb_false_iff, not_false_iff_true. intros Hf.
        rewrite existsb_take_false in Hf.
        specialize (Hf i1 m1 Hlt Hm1). simpl in Hf. congruence.
      * subst i1. rewrite bool_decide_eq_true_2 by reflexivity.
        symmetry. apply negb_true_iff, existsb_take_false.
        intros j m Hj Hm. destruct (Hall j m Hm) as (k' & Hk' & Hz).
        destruct (same_identity m n) eqn:S; [|reflexivity]. exfalso.
        apply (Hmin j (m, k') Hz Hj). exact (proj2 (Hkey j m k' Hm Hk') S).
      * exfalso. exact (Hmin i (n, k) Hself Hgt eq_refl).
    + apply list_find_None in F2. exfalso.
      exact (proj1 (Forall_lookup _ _) F2 i (n, k) Hself eq_refl).
Qed.

Lemma survivors_kept (nodes : list import_node) (keys : list hash_key) :
  mapM hash_key_of nodes = Ok keys ->
  survivors (zip nodes keys) = deduplicated nodes.
Proof.
  intros HM. unfold survivors, deduplicated.
  pose proof (mapM_length _ _ _ HM) as Hlen.
  assert (G : forall (rest : list import_node) (krest : list hash_key) (i : nat),
            rest = drop i nodes -> krest = drop i keys ->
            survivors_from (zip rest krest) (zip nodes keys) i
            = kept_from rest nodes i).
  { induction rest as [|n rest IH]; intros krest i Hr Hk.
    - reflexivity.
    - assert (Hn : nodes !! i = Some n).
      { rewrite <- (Nat.add_0_r i), <- lookup_drop, <- Hr. reflexivity. }
      destruct krest as [|k krest].
      { exfalso. apply lookup_lt_Some in Hn.
        assert (length (drop i keys) = 0%nat) by (rewrite <- Hk; reflexivity).
        rewrite length_drop in H. lia. }
      assert (Hki : keys !! i = Some k).
      { rewrite <- (Nat.add_0_r i), <- lookup_drop, <- Hk. reflexivity. }
      cbn [zip zip_with survivors_from kept_from].
      rewrite (winner_kept nodes keys HM i n k Hn Hki).
      assert (E : survivors_from (zip rest krest) (zip nodes keys) (S i)
                  = kept_from rest nodes (S i)).
      { apply IH.
        - rewrite (drop_S _ _ _ Hn) in Hr. injection Hr as ->. reflexivity.
        - rewrite (drop_S _ _ _ Hki) in Hk. injection Hk as ->. reflexivity. }
      rewrite E. reflexivity. }
  apply G; reflexivity.
Qed.

Lemma kept_from_sublist (rest all : list import_node) (i : nat) :
  sublist (kept_from rest all i) rest.
Proof.
  revert i. induction rest as [|n rest IH]; intros i; simpl.
  - constructor.
  - destruct (is_kept all i n); [apply sublist_skip | apply sublist_cons]; apply IH.
Qed.

Lemma mapM_hash_key_of (nodes : list import_node) :
  if forallb single_named nodes
  then exists keys, mapM hash_key_of nodes = Ok keys
  else mapM hash_key_of nodes = Raise AssertionError.
Proof.
  induction nodes as [|n nodes IH]; [simpl; eauto|].
  assert (Hn : if single_named n then exists k, hash_key_of n = Ok k
               else hash_key_of n = Raise AssertionError).
  { unfold single_named, hash_key_of.
    destruct (names n) as [|a [|]]; try reflexivity. destruct (kind n); eauto. }
  cbn [forallb mapM]. destruct (single_named n); cbn [andb].
  - destruct Hn as [k ->]. rewrite bind_Ok.
    destruct (forallb single_named nodes).
    + destruct IH as [keys ->]. rewrite bind_Ok. eauto.
    + rewrite IH. reflexivity.
  - rewrite Hn. reflexivity.
Qed.

(** C5: when every declaration has one name, [_dedupe_single_imports]
    yields the declarations that are kept for their identity, in the order
    of the input, and the counter grows by the number of declarations
    dropped.  The identity is (exported name, local alias) for a direct
    import and (module path, relative level, exported name, local alias)
    for a from-import; the declaration kept for an identity is the first
    seen, unless a later duplicate carries suppress_removal and the first
    does not: then it is the first duplicate that carries it.  Where a
    declaration has no name or several, the assertion fails. *)
Theorem dedupe_keeps_winner (import_nodes : list import_node) (st : stats) :
  (forallb single_named import_nodes = true ->
   _dedupe_single_imports import_nodes st
   = Ok (deduplicated import_nodes,
         set_removed_imports st
           (removed_imports st
            + (Z.of_nat (length import_nodes)
               - Z.of_nat (length (deduplicated import_nodes))))))
  /\ (forallb single_named import_nodes = false ->
      _dedupe_single_imports import_nodes st = Raise AssertionError)
  /\ sublist (deduplicated import_nodes) import_nodes.
Proof.
  pose proof (mapM_hash_key_of import_nodes) as HM.
  pose proof (proj1 (dedupe_yields_survivors import_nodes st)) as HD.
  split; [|split].
  - intros H. rewrite H in HM. destruct HM as [keys HM].
    rewrite HD, HM. simpl. rewrite (survivors_kept _ _ HM). reflexivity.
  - intros H. rewrite H in HM. rewrite HD, HM. reflexivity.
  - apply kept_from_sublist.
Qed.

(** Declarations that differ in the line only are duplicates; a direct
    import and a from-import of the same name are not, nor are two imports
    that differ in the alias, the module or the level. *)
Definition duplicates : list import_node :=
  [mk_import Import None 0 [mk_alias "os" None] 1 false false;
   mk_import ImportFrom (Some "a") 0 [mk_alias "os" None] 2 false false;
   mk_import Import None 0 [mk_alias "os" None] 3 true false;
   mk_import Import None 0 [mk_alias "os" None] 4 true false;
   mk_import ImportFrom (Some "a") 0 [mk_alias "os" None] 5 false false;
   mk_import Import None 0 [mk_alias "os" (Some "o")] 6 false false;
   mk_import ImportFrom (Some "a") 1 [mk_alias "os" None] 7 false false;
   mk_import ImportFrom (Some "b") 0 [mk_alias "os" None] 8 false false;
   mk_import ImportFrom (Some "a") 0 [mk_alias "os" (Some "o")] 9 false false].

Lemma dedupe_keeps_winner_witness :
  forallb single_named duplicates = true
  /\ lineno <$> deduplicated duplicates = [2; 3; 6; 7; 8; 9]
  /\ _dedupe_single_imports duplicates stats0
     = Ok (deduplicated duplicates, set_removed_imports stats0 3).
Proof.
  split; [reflexivity|]. split; [vm_compute; reflexivity|].
  exact (proj1 (dedupe_keeps_winner duplicates stats0) eq_refl).
Defined.

(** ** An example of the deduplicator *)

Example dedupe_prefers_the_suppressed_duplicate :
  let plain := mk_import Import None 0 [mk_alias "os" None] 1 false false in
  let kept := mk_import Import None 0 [mk_alias "os" None] 3 true false in
  let late := mk_import Import None 0 [mk_alias "os" None] 4 true false in
  let other := mk_import ImportFrom (Some "a") 0 [mk_alias "os" None] 2 false false in
  _dedupe_single_imports [plain; other; kept; late; other] stats0
  = Ok ([other; kept], set_removed_imports stats0 3).
Proof. vm_compute. reflexivity. Qed.

(** ** The threshold on two unused imports

    Two declarations on three lines of code are 66.7 percent: the remover
    is skipped at a threshold of 50 and runs at a threshold of 70. *)
Example threshold_gates_the_remover :
  let file := ["import os"; "import sys"; "x = 1"] in
  fst <$> Sample.rewrite id file "" (Some 50) = Ok file
  /\ fst <$> Sample.rewrite id file "" (Some 70) = Ok ["x = 1"]
  /\ fst <$> Sample.rewrite id file "" None = Ok ["x = 1"].
Proof. repeat split; vm_compute; reflexivity. Qed.

(** ** The gate at the threshold *)

(** The density of the specification, as a rational number:
    [(surviving_declaration_count + star_imports_removed
      - names_expanded_from_star) / code_line_count * 100], and 0 when no
    line carries code. *)
Definition exact_density (n_imports : nat) (st : stats)
    (lines_with_code : gset Z) : Q :=
  if bool_decide (lines_with_code = ∅) then 0%Q
  else (inject_Z (Z.of_nat n_imports + star_imports_removed st
                  - names_from_star st)
        / inject_Z (Z.of_nat (size lines_with_code)) * inject_Z 100)%Q.

(** The gate of the specification: the threshold is null or the density is
    strictly less than it. *)
Definition exact_remover_enabled (keep_threshhold : option Z) (d : Q) : bool :=
  match keep_threshhold with
  | None => true
  | Some t => negb (Qle_bool (inject_Z t) d)
  end.

Definition two_digits (i : nat) : string :=
  String (ascii_of_nat (48 + i / 10))
    (String (ascii_of_nat (48 + i mod 10)) EmptyString).

(** A hundred lines of code: the imports [import m01] to [import m29],
    none of which is used, and seventy-one assignments. *)
Definition at_the_threshold : list string :=
  map (fun i => "import m" +:+ two_digits i) (seq 1 29) ++ repeat "x = 1" 71%nat.

(** C6, at a threshold of 29 on a file whose density is 29 percent: the
    second parse finds 29 declarations and 100 lines of code, so the
    density of the specification is 29, which is not strictly less than the
    threshold; [_rewrite_source] computes
    [29 / float(100) * 100 = 28.999999999999996], finds it below 29 and
    runs the remover, which drops the 29 imports.  At a threshold of 28 the
    remover is skipped and the file is returned as it was. *)
Theorem remover_runs_at_the_threshold :
  let lines_with_code : gset Z := list_to_set (seqZ 1 100) in
  (fun r : list import_node * option (gset (string * Z)) * gset Z =>
     (length r.1.1, r.2))
    <$> _parse_toplevel_imports Sample.ast_parse Sample.Checker
          at_the_threshold true
  = Ok (29%nat, lines_with_code)
  /\ (exact_density 29 stats0 lines_with_code == inject_Z 29)%Q
  /\ exact_remover_enabled (Some 29) (exact_density 29 stats0 lines_with_code)
     = false
  /\ density 29 stats0 lines_with_code = PyFloat 0x1.cffffffffffffp+4%float
  /\ remover_enabled (Some 29) (density 29 stats0 lines_with_code) = true
  /\ (fun r : list string * stats =>
        (r.1, removed_imports r.2, import_proportion r.2))
       <$> Sample.rewrite id at_the_threshold "" (Some 29)
     = Ok (repeat "x = 1" 71%nat, 29, PyFloat 0x1.cffffffffffffp+4%float)
  /\ fst <$> Sample.rewrite id at_the_threshold "" (Some 28)
     = Ok at_the_threshold.
Proof.
  cbv zeta. repeat match goal with |- _ /\ _ => split end;
    vm_compute; reflexivity.
Qed.

(** * Further properties *)

(** ** The gap calculator *)

(** A line that the first loop adds: it is not white space or a comment,
    and it comes after the line [p] with no node on a line after [p] up to
    and including it. *)
Definition continuation (source_lines : list string) (lines_with_code : gset Z)
    (p l : Z) : Prop :=
  p < l
  /\ (forall g, p < g <= l -> g ∉ lines_with_code)
  /\ exists text, py_index source_lines (l - 1) = Ok text
                  /\ _is_whitespace_or_comment text = false.

(** A line that the second loop adds: it holds white space only. *)
Definition blank (source_lines : list string) (l : Z) : Prop :=
  exists text, py_index source_lines (l - 1) = Ok text
               /\ str_empty (rstrip text) = true.

Lemma py_index_in_range {A : Type} (l : list A) (i : Z) :
  0 <= i < Z.of_nat (length l) -> exists x, py_index l i = Ok x.
Proof.
  intros H. unfold py_index. cbv zeta.
  destruct (Z.ltb_spec i 0); [lia|].
  destruct (Z.leb_spec 0 i); [|lia].
  destruct (Z.ltb_spec i (Z.of_nat (length l))); [|lia]. simpl.
  destruct (nth_error l (Z.to_nat i)) eqn:E; [eauto|].
  apply nth_error_None in E. lia.
Qed.

Lemma py_index_upper {A : Type} (l : list A) (i : Z) (x : A) :
  py_index l i = Ok x -> i < Z.of_nat (length l).
Proof.
  unfold py_index. cbv zeta.
  destruct (Z.ltb_spec i 0); [lia|].
  destruct (Z.leb_spec 0 i); [|discriminate].
  destruct (Z.ltb_spec i (Z.of_nat (length l))); [lia | discriminate].
Qed.

Lemma sweep_segment_inv (source_lines : list string) (lines_with_code : gset Z)
    (gaps : list Z) :
  forall acc r,
    sweep_segment source_lines lines_with_code gaps acc = Ok r ->
    acc ⊆ r
    /\ forall l, l ∈ r ->
         l ∈ acc
         \/ exists i : nat,
              gaps !! i = Some l
              /\ (forall (j : nat) g, (j <= i)%nat -> gaps !! j = Some g ->
                                      g ∉ lines_with_code)
              /\ exists text, py_index source_lines (l - 1) = Ok text
                              /\ _is_whitespace_or_comment text = false.
Proof.
  induction gaps as [|gap gaps IH]; intros acc r H; simpl in H.
  - injection H as <-. split; [reflexivity | auto].
  - destruct (bool_decide (gap ∈ lines_with_code)) eqn:Hc.
    + injection H as <-. split; [reflexivity | auto].
    + apply bool_decide_eq_false in Hc.
      apply bind_inv in H as (text & Ht & H).
      apply IH in H as [Hsub Hin].
      assert (Hnext : forall l (i : nat),
                 gaps !! i = Some l ->
                 (forall (j : nat) g, (j <= i)%nat -> gaps !! j = Some g ->
                                      g ∉ lines_with_code) ->
                 forall (j : nat) g, (j <= S i)%nat -> (gap :: gaps) !! j = Some g ->
                                     g ∉ lines_with_code).
      { intros l i _ Hpre [|j] g Hj Hg; simpl in Hg.
        - injection Hg as <-. exact Hc.
        - apply (Hpre j); [lia | exact Hg]. }
      destruct (_is_whitespace_or_comment text) eqn:Hw.
      * split; [exact Hsub|]. intros l Hl.
        destruct (Hin l Hl) as [?|(i & Hi & Hpre & Htext)]; [auto|].
        right. exists (S i). split; [exact Hi|]. split; [|exact Htext].
        eapply Hnext; eassumption.
      * split; [etransitivity; [apply union_subseteq_l | exact Hsub]|].
        intros l Hl. destruct (Hin l Hl) as [Hu|(i & Hi & Hpre & Htext)].
        -- apply elem_of_union in Hu as [?|Hu]; [auto|].
           apply elem_of_singleton in Hu as ->. right. exists 0%nat.
           split; [reflexivity|]. split; [|eauto].
           intros [|j] g Hj Hg; [|lia]. injection Hg as <-. exact Hc.
        -- right. exists (S i). split; [exact Hi|]. split; [|exact Htext].
           eapply Hnext; eassumption.
Qed.

Lemma elem_of_range (a b l : Z) : In l (range a b) <-> a <= l < b.
Proof.
  unfold range. rewrite <- list_elem_of_In, elem_of_seqZ. lia.
Qed.

Lemma sweep_imports_inv (source_lines : list string) (lines_with_code : gset Z)
    (linenos : list Z) :
  forall prev acc r,
    sweep_imports source_lines lines_with_code linenos prev acc = Ok r ->
    acc ⊆ r
    /\ forall l, l ∈ r ->
         l ∈ acc
         \/ exists p, (prev = Some p \/ In p linenos)
                      /\ continuation source_lines lines_with_code p l.
Proof.
  induction linenos as [|lineno linenos IH]; intros prev acc r H; simpl in H.
  - injection H as <-. split; [reflexivity | auto].
  - apply bind_inv in H as (mid & Hmid & H). apply IH in H as [Hsub Hin].
    destruct prev as [p|].
    + apply sweep_segment_inv in Hmid as [Hsub' Hin'].
      split; [etransitivity; eassumption|].
      intros l Hl. destruct (Hin l Hl) as [Hm|(q & Hq & Hc)].
      * destruct (Hin' l Hm) as [?|(i & Hi & Hpre & Htext)]; [auto|].
        right. exists p. split; [auto|].
        unfold range in Hi, Hpre. apply lookup_seqZ in Hi as [-> Hi].
        split; [lia|]. split; [|exact Htext].
        intros g Hg. apply (Hpre (Z.to_nat (g - (p + 1)))); [lia|].
        apply lookup_seqZ. lia.
      * right. exists q. split; [|exact Hc].
        destruct Hq as [[= <-]|Hq]; simpl; auto.
    + injection Hmid as <-. split; [exact Hsub|].
      intros l Hl. destruct (Hin l Hl) as [?|(q & Hq & Hc)]; [auto|].
      right. exists q. split; [|exact Hc].
      destruct Hq as [[= <-]|Hq]; simpl; auto.
Qed.

Lemma blank_run_inv (source_lines : list string) (linenos : list Z) :
  forall ws r,
    blank_run source_lines linenos ws = Ok r ->
    forall l, In l r -> In l ws \/ (In l linenos /\ blank source_lines l).
Proof.
  induction linenos as [|lineno linenos IH]; intros ws r H l Hl; simpl in H.
  - injection H as <-. auto.
  - apply bind_inv in H as (text & Ht & H).
    destruct (IH _ _ H l Hl) as [Hw|[? ?]]; [|simpl; auto].
    destruct (str_empty (rstrip text)) eqn:Hb; [|destruct Hw].
    apply in_app_or in Hw as [?|[<-|[]]]; [auto|].
    right. split; [simpl; auto|]. exists text. auto.
Qed.

Lemma sweep_blank_inv (source_lines : list string) (sorted_gap_lines : list Z) :
  forall acc r,
    sweep_blank source_lines sorted_gap_lines acc = Ok r ->
    acc ⊆ r
    /\ forall l, l ∈ r ->
         l ∈ acc
         \/ (blank source_lines l
             /\ exists g, In g sorted_gap_lines /\ g < l).
Proof.
  induction sorted_gap_lines as [|gap_line rest IH]; intros acc r H.
  - injection H as <-. split; [reflexivity | auto].
  - destruct rest as [|next rest].
    + injection H as <-. split; [reflexivity | auto].
    + cbn [sweep_blank] in H. apply bind_inv in H as (ws & Hws & H).
      apply IH in H as [Hsub Hin].
      split; [etransitivity; [apply union_subseteq_l | exact Hsub]|].
      intros l Hl. destruct (Hin l Hl) as [Hu|(Hb & g & Hg & Hlt)].
      * apply elem_of_union in Hu as [?|Hu]; [auto|].
        apply elem_of_list_to_set, list_elem_of_In in Hu.
        destruct (blank_run_inv _ _ _ _ Hws l Hu) as [[]|[Hr Hb]].
        apply elem_of_range in Hr. right. split; [exact Hb|].
        exists gap_line. split; [left; reflexivity | lia].
      * right. split; [exact Hb|]. exists g. split; [right; exact Hg | exact Hlt].
Qed.

(** What the set returned by [_get_import_discard_lines] holds. *)
Lemma discard_lines_inv (source_lines : list string)
    (imports : list import_node) (lines_with_code gaps : gset Z) :
  _get_import_discard_lines source_lines imports lines_with_code = Ok gaps ->
  (forall n, In n imports -> lineno n ∈ gaps)
  /\ forall l, l ∈ gaps ->
       In l (map lineno imports)
       \/ (exists n, In n imports
                     /\ continuation source_lines lines_with_code (lineno n) l)
       \/ blank source_lines l.
Proof.
  unfold _get_import_discard_lines. intros H.
  apply bind_inv in H as (mid & Hmid & H).
  apply sweep_imports_inv in Hmid as [Hsub1 Hin1].
  apply sweep_blank_inv in H as [Hsub2 Hin2]. split.
  - intros n Hn. apply Hsub2, Hsub1, elem_of_list_to_set, list_elem_of_In.
    apply in_map. exact Hn.
  - intros l Hl. destruct (Hin2 l Hl) as [Hm|[? _]]; [|auto].
    destruct (Hin1 l Hm) as [Hi|(p & Hp & Hc)].
    + left. apply list_elem_of_In. apply elem_of_list_to_set in Hi. exact Hi.
    + right. left. destruct Hp as [Hp|Hp]; [discriminate|].
      apply in_app_or in Hp as [Hp|[<-|[]]].
      * apply in_map_iff in Hp as (n & <- & Hn). eauto.
      * destruct Hc as (Hlt & _ & text & Ht & _).
        apply py_index_upper in Ht. lia.
Qed.

(** X1: the set that [_get_import_discard_lines] returns holds the line of
    every import statement.  Any other line in it either holds white space
    only, or is not a comment and follows an import statement with no
    syntax node on a line between that statement and the line itself (a
    line on which the statement goes on).  So a line that is not blank and
    that holds code or a comment is discarded only if an import statement
    starts on it. *)
Theorem discard_lines_are_imports_continuations_or_blank
    (source_lines : list string) (imports : list import_node)
    (lines_with_code gaps : gset Z) :
  _get_import_discard_lines source_lines imports lines_with_code = Ok gaps ->
  (forall n, In n imports -> lineno n ∈ gaps)
  /\ (forall l, l ∈ gaps ->
        In l (map lineno imports)
        \/ (exists n, In n imports
                      /\ continuation source_lines lines_with_code (lineno n) l)
        \/ blank source_lines l)
  /\ (forall l text,
        py_index source_lines (l - 1) = Ok text ->
        str_empty (rstrip text) = false ->
        l ∈ lines_with_code \/ _is_whitespace_or_comment text = true ->
        l ∈ gaps -> In l (map lineno imports)).
Proof.
  intros H. destruct (discard_lines_inv _ _ _ _ H) as [H1 H2].
  split; [exact H1|]. split; [exact H2|].
  intros l text Ht Hb Hc Hl.
  destruct (H2 l Hl) as [?|[(n & _ & Hlt & Hn & t & Ht' & Hw)|(t & Ht' & Hb')]];
    [auto| |].
  - assert (t = text) as -> by congruence.
    destruct Hc as [Hc|Hc]; [|congruence].
    exfalso. apply (Hn l); [lia | exact Hc].
  - assert (t = text) as -> by congruence. congruence.
Qed.

Lemma sweep_segment_total (source_lines : list string)
    (lines_with_code : gset Z) (gaps : list Z) :
  (forall g, In g gaps -> 1 <= g <= Z.of_nat (length source_lines)) ->
  forall acc, exists r,
    sweep_segment source_lines lines_with_code gaps acc = Ok r.
Proof.
  induction gaps as [|gap gaps IH]; intros Hg acc; simpl; [eauto|].
  destruct (bool_decide (gap ∈ lines_with_code)); [eauto|].
  destruct (py_index_in_range source_lines (gap - 1)) as [text ->].
  { specialize (Hg gap (or_introl eq_refl)). lia. }
  simpl. apply IH. intros g Hin. apply Hg. simpl. auto.
Qed.

Lemma sweep_imports_total (source_lines : list string)
    (lines_with_code : gset Z) (linenos : list Z) :
  (forall l, In l linenos -> 1 <= l <= Z.of_nat (length source_lines) + 1) ->
  forall prev acc,
    (forall p, prev = Some p -> 1 <= p) ->
    exists r,
      sweep_imports source_lines lines_with_code linenos prev acc = Ok r.
Proof.
  induction linenos as [|lineno linenos IH]; intros Hl prev acc Hp; simpl;
    [eauto|].
  assert (Hmid : exists mid,
             match prev with
             | Some p =>
                 sweep_segment source_lines lines_with_code
                   (range (p + 1) lineno) acc
             | None => Ok acc
             end = Ok mid).
  { destruct prev as [p|]; [|eauto]. apply sweep_segment_total.
    intros g Hg. apply elem_of_range in Hg.
    specialize (Hp p eq_refl). specialize (Hl lineno (or_introl eq_refl)). lia. }
  destruct Hmid as [mid ->]. simpl. apply IH.
  - intros l Hin. apply Hl. simpl. auto.
  - intros p [= <-]. apply (Hl lineno). simpl. auto.
Qed.

Lemma blank_run_total (source_lines : list string) (linenos : list Z) :
  (forall l, In l linenos -> 1 <= l <= Z.of_nat (length source_lines)) ->
  forall ws, exists r, blank_run source_lines linenos ws = Ok r.
Proof.
  induction linenos as [|lineno linenos IH]; intros Hl ws; simpl; [eauto|].
  destruct (py_index_in_range source_lines (lineno - 1)) as [text ->].
  { specialize (Hl lineno (or_introl eq_refl)). lia. }
  simpl. apply IH. intros l Hin. apply Hl. simpl. auto.
Qed.

Lemma sweep_blank_total (source_lines : list string)
    (sorted_gap_lines : list Z) :
  (forall g, In g sorted_gap_lines -> 1 <= g <= Z.of_nat (length source_lines)) ->
  forall acc, exists r, sweep_blank source_lines sorted_gap_lines acc = Ok r.
Proof.
  induction sorted_gap_lines as [|gap_line rest IH]; intros Hg acc; [simpl; eauto|].
  destruct rest as [|next rest]; [simpl; eauto|]. cbn [sweep_blank].
  destruct (blank_run_total source_lines (range (gap_line + 1) next)) with (ws := @nil Z)
    as [ws ->].
  { intros l Hl. apply elem_of_range in Hl.
    pose proof (Hg gap_line (or_introl eq_refl)).
    pose proof (Hg next (or_intror (or_introl eq_refl))). lia. }
  simpl. apply IH. intros g Hin. apply Hg. simpl. auto.
Qed.

Lemma sorted_Z_In (s : gset Z) (l : Z) : In l (sorted_Z s) <-> l ∈ s.
Proof.
  unfold sorted_Z. rewrite <- list_elem_of_In, merge_sort_Permutation.
  apply elem_of_elements.
Qed.

(** X2: when every import statement is on a line of the file,
    [_get_import_discard_lines] raises no [IndexError], and every line
    number it returns is a line of the file. *)
Theorem discard_lines_within_file (source_lines : list string)
    (imports : list import_node) (lines_with_code : gset Z) :
  (forall n, In n imports -> 1 <= lineno n <= Z.of_nat (length source_lines)) ->
  exists gaps,
    _get_import_discard_lines source_lines imports lines_with_code = Ok gaps
    /\ forall l, l ∈ gaps -> 1 <= l <= Z.of_nat (length source_lines).
Proof.
  intros Hin. unfold _get_import_discard_lines.
  destruct (sweep_imports_total source_lines lines_with_code
              (map lineno imports ++ [Z.of_nat (length source_lines) + 1]))
    with (prev := @None Z) (acc := (list_to_set (map lineno imports) : gset Z))
    as [mid Hmid].
  { intros l Hl. apply in_app_or in Hl as [Hl|[<-|[]]]; [|lia].
    apply in_map_iff in Hl as (n & <- & Hn). specialize (Hin n Hn). lia. }
  { discriminate. }
  rewrite Hmid. simpl.
  assert (Hbound : forall l, l ∈ mid -> 1 <= l <= Z.of_nat (length source_lines)).
  { intros l Hl. apply sweep_imports_inv in Hmid as [_ Hinv].
    destruct (Hinv l Hl) as [Hi|(p & Hp & Hlt & _ & text & Ht & _)].
    - apply elem_of_list_to_set, list_elem_of_In, in_map_iff in Hi
        as (n & <- & Hn). apply Hin, Hn.
    - apply py_index_upper in Ht.
      destruct Hp as [Hp|Hp]; [discriminate|].
      apply in_app_or in Hp as [Hp|[<-|[]]]; [|lia].
      apply in_map_iff in Hp as (n & <- & Hn). specialize (Hin n Hn). lia. }
  destruct (sweep_blank_total source_lines (sorted_Z mid)) with (acc := mid)
    as [gaps Hgaps].
  { intros g Hg. apply sorted_Z_In in Hg. auto. }
  exists gaps. split; [exact Hgaps|].
  intros l Hl. apply sweep_blank_inv in Hgaps as [_ Hinv].
  destruct (Hinv l Hl) as [?|((text & Ht & _) & g & Hg & Hlt)]; [auto|].
  apply py_index_upper in Ht. apply sorted_Z_In, Hbound in Hg. lia.
Qed.

(** A file without imports: the set is empty. *)
Lemma discard_lines_no_imports (source_lines : list string)
    (lines_with_code : gset Z) :
  _get_import_discard_lines source_lines [] lines_with_code = Ok ∅.
Proof. reflexivity. Qed.

(** A declaration wrapped over three lines, a blank line, a second
    declaration and a line of code. *)
Definition wrapped_file : list string :=
  ["from a import ("; "    b,"; ")"; ""; "import c"; "# note"; "b(c)"].

Definition wrapped_imports : list import_node :=
  [mk_import ImportFrom (Some "a") 0 [mk_alias "b" None] 1 false false;
   mk_import Import None 0 [mk_alias "c" None] 5 false false].

Lemma discard_lines_are_imports_continuations_or_blank_witness :
  _get_import_discard_lines wrapped_file wrapped_imports {[1; 5; 7]}
  = Ok {[1; 2; 3; 4; 5]}
  /\ (6 ∈ ({[1; 2; 3; 4; 5]} : gset Z) -> In 6 (map lineno wrapped_imports)).
Proof.
  assert (H : _get_import_discard_lines wrapped_file wrapped_imports {[1; 5; 7]}
              = Ok {[1; 2; 3; 4; 5]}) by (vm_compute; reflexivity).
  split; [exact H|].
  apply (proj2 (proj2 (discard_lines_are_imports_continuations_or_blank
                         _ _ _ _ H)) 6 "# note");
    [reflexivity | reflexivity | right; reflexivity].
Defined.

Lemma discard_lines_within_file_witness :
  (forall n, In n wrapped_imports ->
             1 <= lineno n <= Z.of_nat (length wrapped_file))
  /\ exists gaps,
       _get_import_discard_lines wrapped_file wrapped_imports {[1; 5; 7]}
       = Ok gaps
       /\ forall l, l ∈ gaps -> 1 <= l <= Z.of_nat (length wrapped_file).
Proof.
  assert (H : forall n, In n wrapped_imports ->
                        1 <= lineno n <= Z.of_nat (length wrapped_file)).
  { intros n [<-|[<-|[]]]; simpl; lia. }
  split; [exact H|].
  exact (discard_lines_within_file wrapped_file wrapped_imports {[1; 5; 7]} H).
Defined.

(** ** When the writer fails *)

Lemma write_singlename_import_ok (n : import_node) :
  is_ok (_write_singlename_import n) = has_names n.
Proof.
  unfold _write_singlename_import, has_names, py_index.
  destruct (names n) as [|a rest]; simpl; [reflexivity|].
  destruct (kind n); reflexivity.
Qed.

Lemma write_singlename_import_error (n : import_node) (e : exn) :
  _write_singlename_import n = Raise e -> e = IndexError.
Proof.
  unfold _write_singlename_import, py_index.
  destruct (names n) as [|a rest]; simpl; [congruence|].
  destruct (kind n); discriminate.
Qed.

Lemma mapM_ok {A B : Type} (f : A -> result B) (l : list A) :
  is_ok (mapM f l) = forallb (fun x => is_ok (f x)) l.
Proof.
  induction l as [|x l IH]; simpl; [reflexivity|].
  destruct (f x); simpl; [|reflexivity].
  rewrite <- IH. destruct (mapM f l); reflexivity.
Qed.

Lemma mapM_error {A B : Type} (f : A -> result B) (l : list A) (e : exn) :
  mapM f l = Raise e -> exists x, In x l /\ f x = Raise e.
Proof.
  induction l as [|x l IH]; simpl; [discriminate|].
  destruct (f x) eqn:Hx; simpl; [|intros [= <-]; eauto].
  destruct (mapM f l); simpl; [discriminate|].
  intros [= <-]. destruct IH as (y & ? & ?); eauto.
Qed.

Lemma forallb_ext_in {A : Type} (f g : A -> bool) (l : list A) :
  (forall x, f x = g x) -> forallb f l = forallb g l.
Proof. intros H. induction l; simpl; congruence. Qed.

(** X3: [_write_source] fails when, and only when, the block is written (the
    line [imports_start_on] is a line of the file) and some declaration has
    an empty [names]; the exception is the [IndexError] of [names[0]]. *)
Theorem write_source_fails_on_a_declaration_without_names
    (source_lines : list string) (grouped_imports : list (list import_node))
    (import_gap_lines : gset Z) (imports_start_on : Z) :
  is_ok (_write_source source_lines grouped_imports import_gap_lines
           imports_start_on)
  = negb ((1 <=? imports_start_on)
          && (imports_start_on <=? Z.of_nat (length source_lines)))
    || forallb (forallb has_names) grouped_imports
  /\ forall e,
       _write_source source_lines grouped_imports import_gap_lines
         imports_start_on = Raise e -> e = IndexError.
Proof.
  rewrite write_source_spec.
  destruct ((1 <=? imports_start_on)
            && (imports_start_on <=? Z.of_nat (length source_lines)));
    simpl; [|split; [reflexivity | discriminate]].
  split.
  - transitivity (is_ok (render_groups grouped_imports)).
    { destruct (render_groups grouped_imports); reflexivity. }
    unfold render_groups. rewrite mapM_ok. apply forallb_ext_in. intros g.
    rewrite mapM_ok. apply forallb_ext_in, write_singlename_import_ok.
  - intros e. destruct (render_groups grouped_imports) as [rs|e'] eqn:E; simpl;
      [discriminate|].
    intros [= <-]. unfold render_groups in E.
    apply mapM_error in E as (g & _ & E).
    apply mapM_error in E as (n & _ & E).
    eapply write_singlename_import_error. exact E.
Qed.

(** ** The directive comment is read back *)

Definition one_line (s : string) : bool :=
  forallb (fun c => negb (Ascii.eqb c (ascii_of_nat 10))) (list_ascii_of_string s).

Definition no_hash (s : string) : bool :=
  forallb (fun c => negb (Ascii.eqb c "#")) (list_ascii_of_string s).

Lemma one_line_app (s t : string) :
  one_line (s +:+ t) = one_line s && one_line t.
Proof.
  unfold one_line. induction s as [|c s IH]; simpl; [reflexivity|].
  rewrite IH. apply andb_assoc.
Qed.

Lemma no_hash_app (s t : string) :
  no_hash (s +:+ t) = no_hash s && no_hash t.
Proof.
  unfold no_hash. induction s as [|c s IH]; simpl; [reflexivity|].
  rewrite IH. apply andb_assoc.
Qed.

Lemma startswith_noqa_no_hash (c : ascii) (s : string) :
  no_hash s = true -> startswith (String c s) " # noqa" = false.
Proof.
  intros H. unfold startswith. cbn [String.prefix].
  destruct (ascii_dec " " c); [|reflexivity].
  destruct s as [|d s]; [reflexivity|].
  change (no_hash (String d s)) with (negb (Ascii.eqb d "#") && no_hash s) in H.
  apply andb_prop in H as [Hd _]. cbn [String.prefix].
  destruct (ascii_dec "#" d) as [<-|]; [discriminate | reflexivity].
Qed.

(** Without a hash there is no directive. *)
Lemma match_noqa_no_hash (s : string) : no_hash s = true -> match_noqa s = None.
Proof.
  induction s as [|c s IH]; [reflexivity|]. intros H.
  change (no_hash (String c s)) with (negb (Ascii.eqb c "#") && no_hash s) in H.
  apply andb_prop in H as [Hc Hs]. cbn [match_noqa]. rewrite (IH Hs).
  rewrite (startswith_noqa_no_hash c s Hs).
  destruct (Ascii.eqb c (ascii_of_nat 10)); reflexivity.
Qed.

(** The directive written after a text of one line is the one found. *)
Lemma match_noqa_written (s : string) (sort : bool) :
  one_line s = true ->
  match_noqa (s +:+ "  # noqa" +:+ (if sort then " nosort" else ""))
  = Some sort.
Proof.
  induction s as [|c s IH]; intros H.
  - destruct sort; vm_compute; reflexivity.
  - change (one_line (String c s))
      with (negb (Ascii.eqb c (ascii_of_nat 10)) && one_line s) in H.
    apply andb_prop in H as [Hc Hs].
    change (String c s +:+ ?t) with (String c (s +:+ t)).
    cbn [match_noqa]. apply negb_true_iff in Hc. rewrite Hc.
    rewrite (IH Hs). reflexivity.
Qed.

Lemma rstrip_app_kept (s t : string) :
  str_empty (rstrip t) = false -> rstrip (s +:+ t) = s +:+ rstrip t.
Proof.
  intros H. induction s as [|c s IH]; simpl; [reflexivity|].
  rewrite IH. destruct (rstrip t); [discriminate|].
  destruct s; reflexivity.
Qed.

Lemma no_hash_rstrip (s : string) : no_hash s = true -> no_hash (rstrip s) = true.
Proof.
  induction s as [|c s IH]; [reflexivity|]. intros H.
  change (no_hash (String c s)) with (negb (Ascii.eqb c "#") && no_hash s) in H.
  apply andb_prop in H as [Hc Hs]. simpl.
  destruct (str_empty (rstrip s) && isspace c); [reflexivity|].
  change (no_hash (String c (rstrip s)))
    with (negb (Ascii.eqb c "#") && no_hash (rstrip s)).
  rewrite Hc, (IH Hs). reflexivity.
Qed.

Lemma append_assoc (a b c : string) : (a +:+ b) +:+ c = a +:+ (b +:+ c).
Proof.
  induction a as [|x a IH]; [reflexivity|]. exact (f_equal (String x) IH).
Qed.

(** The text of a declaration and its directive. *)
Lemma write_singlename_import_flags (n : import_node) (line : string) :
  _write_singlename_import n = Ok line ->
  exists text, line = text +:+ render_flags n.
Proof.
  unfold _write_singlename_import. intros H.
  apply bind_inv in H as (a & _ & H).
  destruct (kind n); injection H as <-.
  - exists ("import " +:+ render_alias a). reflexivity.
  - exists ("from " +:+ str_repeat "." (level n) +:+ or_empty (module n)
            +:+ " import " +:+ render_alias a).
    rewrite !append_assoc. reflexivity.
Qed.

(** X4: what [_write_singlename_import] writes for the two flags is what the
    loop at the end of [_parse_toplevel_imports] reads from that line. *)
Theorem written_directive_is_read_back (n n' : import_node)
    (source_lines : list string) (line : string) :
  _write_singlename_import n = Ok line ->
  one_line line = true ->
  (noqa n = false -> no_hash line = true) ->
  (nosort n = true -> noqa n = true) ->
  py_index source_lines (lineno n' - 1) = Ok line ->
  mark_directives source_lines n' = Ok (set_flags n' (noqa n) (nosort n)).
Proof.
  intros Hw Hone Hhash Hflags Hidx. unfold mark_directives. rewrite Hidx. simpl.
  apply write_singlename_import_flags in Hw as (text & ->).
  unfold render_flags in *. destruct (noqa n) eqn:Hq.
  - rewrite one_line_app in Hone. apply andb_prop in Hone as [Hone _].
    rewrite rstrip_app_kept by (destruct (nosort n); reflexivity).
    replace (rstrip ("  # noqa" +:+ (if nosort n then " nosort" else "")))
      with ("  # noqa" +:+ (if nosort n then " nosort" else ""))
      by (destruct (nosort n); reflexivity).
    rewrite (match_noqa_written text (nosort n) Hone). reflexivity.
  - destruct (nosort n) eqn:Hs; [specialize (Hflags eq_refl); discriminate|].
    rewrite (match_noqa_no_hash _ (no_hash_rstrip _ (Hhash eq_refl))).
    reflexivity.
Qed.

Definition from_pkg_name : import_node :=
  mk_import ImportFrom (Some "pkg") 0 [mk_alias "name" None] 7 true true.

Lemma written_directive_is_read_back_witness :
  _write_singlename_import from_pkg_name
  = Ok "from pkg import name  # noqa nosort"
  /\ mark_directives ["from pkg import name  # noqa nosort"]
       (mk_import ImportFrom (Some "pkg") 0 [mk_alias "name" None] 1 false false)
     = Ok (mk_import ImportFrom (Some "pkg") 0 [mk_alias "name" None] 1 true true).
Proof.
  split; [reflexivity|].
  apply (written_directive_is_read_back from_pkg_name
           (mk_import ImportFrom (Some "pkg") 0 [mk_alias "name" None] 1 false false)
           ["from pkg import name  # noqa nosort"]
           "from pkg import name  # noqa nosort");
    try reflexivity; discriminate.
Defined.

(** ** The flattener *)

(** The attributes that [_as_single_imports] copies from a statement to
    the declarations made from it. *)
Definition same_statement (m n : import_node) : Prop :=
  kind m = kind n /\ module m = module n /\ level m = level n
  /\ lineno m = lineno n /\ noqa m = noqa n /\ nosort m = nosort n.

Lemma same_statement_single (n : import_node) (a : alias) :
  same_statement (single n a) n.
Proof. repeat split. Qed.

Lemma flatten_from_plain (star_names : option string -> result (list string))
    (n : import_node) (todo : list alias) (st : stats) :
  flatten_from star_names false n todo st = Ok (map (single n) todo, st).
Proof.
  induction todo as [|a todo IH]; simpl; [reflexivity|].
  rewrite andb_false_r, IH. reflexivity.
Qed.

(** X5: without [expand_stars] the module loader is not called: nothing fails,
    the counters are left alone, and every name of every statement becomes
    one declaration, in the order of the source. *)
Theorem as_single_imports_without_expand_stars
    (star_names : option string -> result (list string))
    (import_nodes : list import_node) (st : stats) :
  _as_single_imports star_names import_nodes st false
  = Ok (flat_map (fun n => map (single n) (names n)) import_nodes, st).
Proof.
  induction import_nodes as [|n rest IH]; simpl; [reflexivity|].
  assert (H : match kind n with
              | Import => Ok (map (single n) (names n), st)
              | ImportFrom => flatten_from star_names false n (names n) st
              end = Ok (map (single n) (names n), st)).
  { destruct (kind n); [reflexivity | apply flatten_from_plain]. }
  rewrite H. simpl. rewrite IH. reflexivity.
Qed.

(** What a pass of the flattener keeps: every declaration binds one name
    and is made from the statement [n]; the two counters only grow, and the
    number of declarations is the number of names, less the stars expanded,
    plus the names they gave. *)
Definition flattened (n_names : nat) (origin : import_node -> Prop)
    (st : stats) (r : list import_node * stats) : Prop :=
  Forall (fun m => single_named m = true /\ exists n, origin n /\ same_statement m n) r.1
  /\ names_from_star st <= names_from_star r.2
  /\ star_imports_removed st <= star_imports_removed r.2
  /\ Z.of_nat (length r.1)
     + (star_imports_removed r.2 - star_imports_removed st)
     - (names_from_star r.2 - names_from_star st)
     = Z.of_nat n_names
  /\ removed_imports r.2 = removed_imports st.

Lemma flatten_from_flattened
    (star_names : option string -> result (list string)) (expand_stars : bool)
    (n : import_node) (todo : list alias) :
  forall st r,
    flatten_from star_names expand_stars n todo st = Ok r ->
    flattened (length todo) (eq n) st r.
Proof.
  induction todo as [|a todo IH]; intros st r H; simpl in H.
  - injection H as <-. unfold flattened. simpl.
    repeat split; try lia. constructor.
  - destruct (String.eqb (name a) "*" && expand_stars).
    + apply bind_inv in H as (exported & _ & H).
      apply bind_inv in H as (r' & Hr' & H). injection H as <-.
      apply IH in Hr' as (Hall & Hn & Hs & Hlen & Hrem).
      unfold flattened. simpl in *. repeat split; try lia.
      * apply Forall_app. split; [|exact Hall].
        apply Forall_forall. intros m Hm.
        apply list_elem_of_In, in_map_iff in Hm as (s & <- & _).
        split; [reflexivity|]. exists n. split; [reflexivity|].
        apply same_statement_single.
      * rewrite length_app, length_map. lia.
    + apply bind_inv in H as (r' & Hr' & H). injection H as <-.
      apply IH in Hr' as (Hall & Hn & Hs & Hlen & Hrem).
      unfold flattened. simpl in *. repeat split; try lia.
      constructor; [|exact Hall].
      split; [reflexivity|]. exists n. split; [reflexivity|].
      apply same_statement_single.
Qed.

Lemma flattened_weaken (k : nat) (P Q : import_node -> Prop) (st : stats)
    (r : list import_node * stats) :
  (forall n, P n -> Q n) -> flattened k P st r -> flattened k Q st r.
Proof.
  intros HPQ (Hall & H). split; [|exact H].
  eapply Forall_impl; [exact Hall|]. simpl.
  intros m (Hm & n & Hn & Hs). split; [exact Hm|]. exists n. auto.
Qed.

Lemma as_single_imports_flattened
    (star_names : option string -> result (list string)) (expand_stars : bool)
    (import_nodes : list import_node) :
  forall st r,
    _as_single_imports star_names import_nodes st expand_stars = Ok r ->
    flattened (length (concat (map names import_nodes)))
      (fun n => In n import_nodes) st r.
Proof.
  induction import_nodes as [|n rest IH]; intros st r H; simpl in H.
  - injection H as <-. unfold flattened. simpl. repeat split; try lia. constructor.
  - apply bind_inv in H as (r1 & H1 & H). apply bind_inv in H as (r2 & H2 & H).
    injection H as <-.
    assert (F1 : flattened (length (names n)) (eq n) st r1).
    { destruct (kind n).
      - injection H1 as <-.
        apply (flatten_from_flattened star_names false n (names n) st).
        apply flatten_from_plain.
      - eapply flatten_from_flattened. exact H1. }
    apply IH in H2.
    apply (flattened_weaken _ _ (fun m => In m (n :: rest))) in F1;
      [|intros ? <-; left; reflexivity].
    apply (flattened_weaken _ _ (fun m => In m (n :: rest))) in H2;
      [|intros ? ?; right; assumption].
    destruct F1 as (A1 & B1 & C1 & D1 & E1), H2 as (A2 & B2 & C2 & D2 & E2).
    unfold flattened. simpl in *.
    repeat split; try lia.
    + apply Forall_app. auto.
    + rewrite !length_app. lia.
Qed.

(** The flattener fails only in the module loader. *)
Lemma flatten_from_error
    (star_names : option string -> result (list string)) (expand_stars : bool)
    (n : import_node) (todo : list alias) :
  forall st e,
    flatten_from star_names expand_stars n todo st = Raise e ->
    expand_stars = true /\ star_names (module n) = Raise e.
Proof.
  induction todo as [|a todo IH]; intros st e H; simpl in H; [discriminate|].
  destruct (String.eqb (name a) "*" && expand_stars) eqn:Hstar.
  - apply andb_prop in Hstar as [_ ->].
    destruct (star_names (module n)) as [exported|e'] eqn:Hl; simpl in H.
    + destruct (flatten_from star_names true n todo _) as [r|e'] eqn:Hr;
        simpl in H; [discriminate|].
      injection H as <-. destruct (IH _ _ Hr) as [_ ?]. auto.
    + injection H as <-. auto.
  - destruct (flatten_from star_names expand_stars n todo st) as [r|e'] eqn:Hr;
      simpl in H; [discriminate|].
    injection H as <-. eapply IH. exact Hr.
Qed.

Lemma as_single_imports_error
    (star_names : option string -> result (list string)) (expand_stars : bool)
    (import_nodes : list import_node) :
  forall st e,
    _as_single_imports star_names import_nodes st expand_stars = Raise e ->
    expand_stars = true
    /\ exists n, In n import_nodes /\ kind n = ImportFrom
                 /\ star_names (module n) = Raise e.
Proof.
  induction import_nodes as [|n rest IH]; intros st e H; simpl in H;
    [discriminate|].
  destruct (kind n) eqn:Hk; simpl in H.
  - destruct (_as_single_imports star_names rest st expand_stars) as [r|e'] eqn:Hr;
      simpl in H; [discriminate|].
    injection H as <-. destruct (IH _ _ Hr) as (? & m & ? & ?).
    split; [assumption|]. exists m. simpl. auto.
  - destruct (flatten_from star_names expand_stars n (names n) st) as [r1|e1] eqn:H1;
      simpl in H.
    + destruct (_as_single_imports star_names rest r1.2 expand_stars) as [r|e'] eqn:Hr;
        simpl in H; [discriminate|].
      injection H as <-. destruct (IH _ _ Hr) as (? & m & ? & ?).
      split; [assumption|]. exists m. simpl. auto.
    + injection H as <-. apply flatten_from_error in H1 as [? ?].
      split; [assumption|]. exists n. simpl. auto.
Qed.

(** X6: the flattener, with or without [expand_stars].  Every declaration
    it yields binds one name and has the kind, module, level, line and flags
    of a statement of the input; the two counters only grow, and the number
    of declarations is the number of names in the input, less the stars
    expanded, plus the names they gave; [removed_imports] is not touched.
    It fails only with [expand_stars], on a from-import, with the exception
    of the module loader. *)
Theorem as_single_imports_counts_the_names
    (star_names : option string -> result (list string)) (expand_stars : bool)
    (import_nodes : list import_node) (st : stats) :
  match _as_single_imports star_names import_nodes st expand_stars with
  | Ok r =>
      Forall (fun m => single_named m = true
                       /\ exists n, In n import_nodes /\ same_statement m n) r.1
      /\ names_from_star st <= names_from_star r.2
      /\ star_imports_removed st <= star_imports_removed r.2
      /\ Z.of_nat (length r.1)
         + (star_imports_removed r.2 - star_imports_removed st)
         - (names_from_star r.2 - names_from_star st)
         = Z.of_nat (length (concat (map names import_nodes)))
      /\ removed_imports r.2 = removed_imports st
  | Raise e =>
      expand_stars = true
      /\ exists n, In n import_nodes /\ kind n = ImportFrom
                   /\ star_names (module n) = Raise e
  end.
Proof.
  destruct (_as_single_imports star_names import_nodes st expand_stars)
    as [r|e] eqn:H.
  - exact (as_single_imports_flattened _ _ _ _ _ H).
  - exact (as_single_imports_error _ _ _ _ _ H).
Qed.

(** ** The deduplicator: one declaration for each key *)

(** [_dedupe_single_imports] in terms of [survivors]. *)
Lemma dedupe_single_imports_eq (import_nodes : list import_node) (st : stats) :
  _dedupe_single_imports import_nodes st =
  (keys ← mapM hash_key_of import_nodes;
   let out := survivors (zip import_nodes keys) in
   Ok (out,
       set_removed_imports st
         (removed_imports st
          + (Z.of_nat (length import_nodes) - Z.of_nat (length out))))).
Proof.
  unfold _dedupe_single_imports.
  pose proof (dedupe_scan_spec import_nodes [] ∅) as H. simpl in H.
  specialize (H (fun k => eq_trans (lookup_empty k) eq_refl)).
  destruct (dedupe_scan import_nodes 0 ∅) as [r|e] eqn:E;
    destruct (mapM hash_key_of import_nodes) as [keys|e'] eqn:E';
    simpl; try contradiction; [|congruence].
  destruct H as [H1 H2]. rewrite H1.
  rewrite (dedupe_emit_spec _ _ H2). unfold survivors.
  pose proof (mapM_length _ _ _ E') as Hlen.
  rewrite length_zip_with. rewrite Hlen.
  replace (length import_nodes `min` length import_nodes)%nat
    with (length import_nodes) by lia.
  reflexivity.
Qed.

(** The survivors with their keys. *)
Fixpoint keyed_survivors_from (ks all : list (import_node * hash_key)) (i : nat)
  : list (import_node * hash_key) :=
  match ks with
  | [] => []
  | (n, k) :: rest =>
      if bool_decide (fst <$> winner all k = Some i)
      then (n, k) :: keyed_survivors_from rest all (S i)
      else keyed_survivors_from rest all (S i)
  end.

Lemma keyed_survivors_fst (ks all : list (import_node * hash_key)) (i : nat) :
  (keyed_survivors_from ks all i).*1 = survivors_from ks all i.
Proof.
  revert i. induction ks as [|[n k] ks IH]; intros i; simpl; [reflexivity|].
  destruct (bool_decide _); simpl; rewrite IH; reflexivity.
Qed.

Lemma keyed_survivors_sub (ks all : list (import_node * hash_key)) (i : nat)
    (p : import_node * hash_key) :
  p ∈ keyed_survivors_from ks all i -> p ∈ ks.
Proof.
  revert i. induction ks as [|[n k] ks IH]; intros i; simpl; [auto|].
  destruct (bool_decide _); rewrite ?elem_of_cons; intros H.
  - destruct H as [->|H]; [left; reflexivity | right; eauto].
  - right. eauto.
Qed.

(** A survivor is the winner of its key, at its own position. *)
Lemma keyed_survivors_index (ks all : list (import_node * hash_key)) (i : nat)
    (p : import_node * hash_key) :
  p ∈ keyed_survivors_from ks all i ->
  exists j, (i <= j)%nat /\ fst <$> winner all p.2 = Some j.
Proof.
  revert i. induction ks as [|[n k] ks IH]; intros i; simpl.
  - intros H. inversion H.
  - destruct (bool_decide (fst <$> winner all k = Some i)) eqn:Hw.
    + apply bool_decide_eq_true in Hw. rewrite elem_of_cons.
      intros [->|H]; [exists i; auto|].
      destruct (IH _ H) as (j & ? & ?). exists j. split; [lia | assumption].
    + intros H. destruct (IH _ H) as (j & ? & ?). exists j. split; [lia | assumption].
Qed.

Lemma keyed_survivors_NoDup (ks all : list (import_node * hash_key)) (i : nat) :
  NoDup (keyed_survivors_from ks all i).*2.
Proof.
  revert i. induction ks as [|[n k] ks IH]; intros i; simpl; [constructor|].
  destruct (bool_decide (fst <$> winner all k = Some i)) eqn:Hw; [|apply IH].
  apply bool_decide_eq_true in Hw. simpl. constructor; [|apply IH].
  intros Hin. apply list_elem_of_fmap in Hin as (p & Hk & Hp).
  apply keyed_survivors_index in Hp as (j & Hj & Hwj).
  simpl in Hk. subst k. rewrite Hw in Hwj. injection Hwj as <-. lia.
Qed.

(** The winner of a key is a declaration of the list with that key. *)
Lemma winner_lookup (all : list (import_node * hash_key)) (k : hash_key)
    (j : nat) (m : import_node) :
  winner all k = Some (j, m) -> all !! j = Some (m, k).
Proof.
  unfold winner.
  destruct (list_find (fun p => p.2 = k /\ noqa p.1 = true) all) as [[i p]|] eqn:EA.
  - intros [= <- <-]. apply list_find_Some in EA as (Hl & [Hk _] & _).
    rewrite Hl. destruct p; simpl in *; congruence.
  - destruct (list_find (fun p => p.2 = k) all) as [[i p]|] eqn:EB; simpl;
      [|discriminate].
    intros [= <- <-]. apply list_find_Some in EB as (Hl & Hk & _).
    rewrite Hl. destruct p; simpl in *; congruence.
Qed.

Lemma winner_is_Some (all : list (import_node * hash_key))
    (n : import_node) (k : hash_key) :
  (n, k) ∈ all -> is_Some (winner all k).
Proof.
  intros Hin. unfold winner.
  destruct (list_find (fun p => p.2 = k /\ noqa p.1 = true) all) as [[i p]|];
    [eauto|].
  destruct (list_find (fun p => p.2 = k) all) as [[i p]|] eqn:EB; simpl; [eauto|].
  apply list_find_None in EB.
  apply (proj1 (Forall_forall _ _)) with (x := (n, k)) in EB; [|exact Hin].
  exfalso. apply EB. reflexivity.
Qed.

(** The declaration at the winning position survives. *)
Lemma keyed_survivors_winner (all : list (import_node * hash_key)) :
  forall ks i idx m k,
    ks !! idx = Some (m, k) ->
    fst <$> winner all k = Some (i + idx)%nat ->
    (m, k) ∈ keyed_survivors_from ks all i.
Proof.
  induction ks as [|[n k'] ks IH]; intros i idx m k Hl Hw; [discriminate|].
  destruct idx as [|idx]; simpl in Hl.
  - injection Hl as -> ->. simpl.
    rewrite Nat.add_0_r in Hw. rewrite bool_decide_eq_true_2 by exact Hw.
    left.
  - simpl. assert ((m, k) ∈ keyed_survivors_from ks all (S i)).
    { apply (IH (S i) idx); [exact Hl|]. rewrite Hw. f_equal. lia. }
    destruct (bool_decide _); [right|]; assumption.
Qed.

(** In a list without two equal keys, every declaration is its key's
    winner. *)
Lemma winner_NoDup (all : list (import_node * hash_key)) (i : nat)
    (n : import_node) (k : hash_key) :
  NoDup all.*2 -> all !! i = Some (n, k) -> fst <$> winner all k = Some i.
Proof.
  intros Hnd Hi.
  assert (Hsame : forall j p, all !! j = Some p -> p.2 = k -> j = i).
  { intros j p Hj Hk. apply (NoDup_lookup all.*2 j i k Hnd).
    - rewrite list_lookup_fmap, Hj. simpl. congruence.
    - rewrite list_lookup_fmap, Hi. reflexivity. }
  unfold winner.
  destruct (list_find (fun p => p.2 = k /\ noqa p.1 = true) all) as [[j p]|] eqn:EA.
  - apply list_find_Some in EA as (Hl & [Hk _] & _). simpl.
    f_equal. eapply Hsame; eassumption.
  - destruct (list_find (fun p => p.2 = k) all) as [[j p]|] eqn:EB; simpl.
    + apply list_find_Some in EB as (Hl & Hk & _). f_equal. eapply Hsame; eassumption.
    + apply list_find_None in EB.
      apply (proj1 (Forall_forall _ _)) with (x := (n, k)) in EB;
        [|eapply list_elem_of_lookup_2; exact Hi].
      exfalso. apply EB. reflexivity.
Qed.

Lemma survivors_from_NoDup (all : list (import_node * hash_key)) :
  NoDup all.*2 ->
  forall ks i,
    (forall idx p, ks !! idx = Some p -> all !! (i + idx)%nat = Some p) ->
    survivors_from ks all i = ks.*1.
Proof.
  intros Hnd. induction ks as [|[n k] ks IH]; intros i Hks; simpl; [reflexivity|].
  rewrite bool_decide_eq_true_2.
  - f_equal. apply IH. intros idx p Hp.
    replace (S i + idx)%nat with (i + S idx)%nat by lia. apply Hks. exact Hp.
  - apply (winner_NoDup all i n k Hnd).
    rewrite <- (Nat.add_0_r i). apply Hks. reflexivity.
Qed.

(** A list and its keys, as pairs. *)
Lemma mapM_zip {A B : Type} (f : A -> result B) (l : list A) (l' : list B) :
  mapM f l = Ok l' ->
  (zip l l').*1 = l /\ (zip l l').*2 = l'
  /\ Forall (fun p => f p.1 = Ok p.2) (zip l l').
Proof.
  revert l'. induction l as [|x l IH]; simpl; intros l' H.
  - injection H as <-. repeat split. constructor.
  - apply bind_inv in H as (y & Hy & H). apply bind_inv in H as (ys & Hys & H).
    injection H as <-. destruct (IH _ Hys) as (H1 & H2 & H3).
    split; [exact (f_equal (cons x) H1)|].
    split; [exact (f_equal (cons y) H2)|].
    constructor; assumption.
Qed.

Lemma mapM_pairs {A B : Type} (f : A -> result B) (l : list (A * B)) :
  Forall (fun p => f p.1 = Ok p.2) l -> mapM f l.*1 = Ok l.*2.
Proof.
  induction 1 as [|p l Hp _ IH]; [reflexivity|].
  change (mapM f (p :: l).*1) with (y ← f p.1; ys ← mapM f l.*1; Ok (y :: ys)).
  rewrite Hp, IH. reflexivity.
Qed.

(** What is left after the deduplicator, with the keys. *)
Lemma dedupe_single_imports_keyed (import_nodes : list import_node) (st : stats)
    (out : list import_node) (st' : stats) :
  _dedupe_single_imports import_nodes st = Ok (out, st') ->
  exists keys,
    mapM hash_key_of import_nodes = Ok keys
    /\ let all := zip import_nodes keys in
       let kept := keyed_survivors_from all all 0 in
       out = kept.*1
       /\ mapM hash_key_of out = Ok kept.*2
       /\ st' = set_removed_imports st
                  (removed_imports st
                   + (Z.of_nat (length import_nodes) - Z.of_nat (length out))).
Proof.
  rewrite dedupe_single_imports_eq. intros H.
  apply bind_inv in H as (keys & Hkeys & H). cbv zeta in H.
  injection H as <- <-. exists keys. split; [exact Hkeys|]. cbv zeta.
  unfold survivors. rewrite <- keyed_survivors_fst.
  split; [reflexivity|]. split; [|reflexivity].
  apply mapM_pairs. apply Forall_forall. intros p Hp.
  apply keyed_survivors_sub in Hp.
  destruct (mapM_zip _ _ _ Hkeys) as (_ & _ & Hall).
  exact (proj1 (Forall_forall _ _) Hall p Hp).
Qed.

(** X7: after [_dedupe_single_imports] no two declarations have the same
    key, and every key of the input is still there. *)
Theorem dedupe_leaves_one_declaration_for_each_key
    (import_nodes : list import_node) (st : stats)
    (out : list import_node) (st' : stats) :
  _dedupe_single_imports import_nodes st = Ok (out, st') ->
  (exists keys, mapM hash_key_of out = Ok keys /\ NoDup keys)
  /\ forall n, In n import_nodes ->
       exists m, In m out /\ hash_key_of m = hash_key_of n.
Proof.
  intros H. apply dedupe_single_imports_keyed in H as (keys & Hkeys & H).
  cbv zeta in H. destruct H as (-> & Hout & _). split.
  - eexists. split; [exact Hout | apply keyed_survivors_NoDup].
  - intros n Hn. destruct (mapM_zip _ _ _ Hkeys) as (Hfst & _ & Hall).
    set (all := zip import_nodes keys) in *.
    rewrite <- Hfst in Hn. apply list_elem_of_In, list_elem_of_fmap in Hn
      as ([n' k] & -> & Hp). simpl.
    destruct (winner_is_Some all n' k Hp) as [[j m] Hw].
    pose proof (winner_lookup _ _ _ _ Hw) as Hj.
    assert (Hm : (m, k) ∈ keyed_survivors_from all all 0).
    { apply (keyed_survivors_winner all all 0%nat j); [exact Hj|].
      rewrite Hw. reflexivity. }
    exists m. split.
    + apply list_elem_of_In, list_elem_of_fmap. exists (m, k). auto.
    + pose proof (proj1 (Forall_forall _ _) Hall (n', k) Hp) as Hn'.
      pose proof (proj1 (Forall_forall _ _) Hall (m, k)
                    (list_elem_of_lookup_2 _ _ _ Hj)) as Hm'.
      simpl in Hn', Hm'. congruence.
Qed.

(** X8: a second pass of the deduplicator changes nothing. *)
Theorem dedupe_is_idempotent (import_nodes : list import_node) (st : stats)
    (out : list import_node) (st' : stats) :
  _dedupe_single_imports import_nodes st = Ok (out, st') ->
  _dedupe_single_imports out st' = Ok (out, st').
Proof.
  intros H. apply dedupe_single_imports_keyed in H as (keys & Hkeys & H).
  cbv zeta in H. destruct H as (Hout & Hkept & _).
  set (kept := keyed_survivors_from (zip import_nodes keys)
                 (zip import_nodes keys) 0) in *.
  rewrite dedupe_single_imports_eq, Hkept. simpl.
  rewrite Hout, zip_fst_snd. unfold survivors.
  rewrite (survivors_from_NoDup kept (keyed_survivors_NoDup _ _ _) kept 0%nat)
    by (intros idx p Hp; exact Hp).
  f_equal. f_equal. destruct st'. unfold set_removed_imports. simpl.
  f_equal. lia.
Qed.

Definition import_os (line : Z) (q : bool) : import_node :=
  mk_import Import None 0 [mk_alias "os" None] line q false.

Lemma dedupe_leaves_one_declaration_for_each_key_witness :
  _dedupe_single_imports [import_os 1 false; import_os 2 true] stats0
  = Ok ([import_os 2 true], set_removed_imports stats0 1)
  /\ (exists keys, mapM hash_key_of [import_os 2 true] = Ok keys /\ NoDup keys)
  /\ forall n, In n [import_os 1 false; import_os 2 true] ->
       exists m, In m [import_os 2 true] /\ hash_key_of m = hash_key_of n.
Proof.
  assert (H : _dedupe_single_imports [import_os 1 false; import_os 2 true] stats0
              = Ok ([import_os 2 true], set_removed_imports stats0 1))
    by (vm_compute; reflexivity).
  split; [exact H|].
  exact (dedupe_leaves_one_declaration_for_each_key _ _ _ _ H).
Defined.

Lemma dedupe_is_idempotent_witness :
  _dedupe_single_imports [import_os 1 false; import_os 2 true] stats0
  = Ok ([import_os 2 true], set_removed_imports stats0 1)
  /\ _dedupe_single_imports [import_os 2 true] (set_removed_imports stats0 1)
     = Ok ([import_os 2 true], set_removed_imports stats0 1).
Proof.
  assert (H : _dedupe_single_imports [import_os 1 false; import_os 2 true] stats0
              = Ok ([import_os 2 true], set_removed_imports stats0 1))
    by (vm_compute; reflexivity).
  split; [exact H|].
  exact (dedupe_is_idempotent _ _ _ _ H).
Defined.

(** X9: the assertions of the deduplicator hold for what the flattener
    yields: the two stages in a row fail only where the flattener does. *)
Theorem dedupe_accepts_what_the_flattener_yields
    (star_names : option string -> result (list string)) (expand_stars : bool)
    (import_nodes : list import_node) (st : stats) :
  is_ok (flat ← _as_single_imports star_names import_nodes st expand_stars;
         _dedupe_single_imports flat.1 flat.2)
  = is_ok (_as_single_imports star_names import_nodes st expand_stars).
Proof.
  destruct (_as_single_imports star_names import_nodes st expand_stars)
    as [flat|e] eqn:H; simpl; [|reflexivity].
  apply as_single_imports_flattened in H as (Hall & _).
  rewrite dedupe_single_imports_eq.
  assert (Hk : exists keys, mapM hash_key_of flat.1 = Ok keys).
  { induction Hall as [|m l [Hm _] _ IH]; simpl; [eauto|].
    assert (Hkey : exists k, hash_key_of m = Ok k).
    { unfold hash_key_of. unfold single_named in Hm.
      destruct (names m) as [|a [|]]; try discriminate.
      destruct (kind m); eauto. }
    destruct Hkey as [k ->], IH as [keys ->]. simpl. eauto. }
  destruct Hk as [keys ->]. reflexivity.
Qed.

(** ** The remover on declarations of one name *)

(** The test the remover makes for a declaration: the [warning_key] of a
    from-import, [name.name] of a direct import. *)
Definition named_by (remove_imports : gset (string * Z)) (n : import_node)
  : bool :=
  match kind n with
  | ImportFrom => bool_decide ((warning_key n, lineno n) ∈ remove_imports)
  | Import =>
      existsb (fun a => bool_decide ((name a, lineno n) ∈ remove_imports))
        (names n)
  end.

Lemma remove_from_node_single (R : gset (string * Z)) (n : import_node) :
  single_named n = true ->
  remove_from_node R n = if named_by R n then (set_names n [], 1) else (n, 0).
Proof.
  unfold single_named, remove_from_node, named_by. intros H.
  destruct (kind n) eqn:Hk.
  - destruct (names n) as [|a [|]] eqn:Hn; try discriminate. simpl.
    destruct (bool_decide ((name a, lineno n) ∈ R)); simpl; [reflexivity|].
    rewrite <- Hn, set_names_same. reflexivity.
  - destruct (bool_decide _); reflexivity.
Qed.

Lemma remove_pass_single (R : gset (string * Z)) (imports : list import_node) :
  forallb single_named imports = true ->
  let passed := map (remove_from_node R) imports in
  let out := List.filter (fun n => negb (named_by R n)) imports in
  List.filter has_names (map fst passed) = out
  /\ fold_right Z.add 0 (map snd passed)
     = Z.of_nat (length imports) - Z.of_nat (length out).
Proof.
  induction imports as [|n imports IH]; intros H; [split; reflexivity|].
  cbn [forallb] in H. apply andb_prop in H as [Hn H].
  destruct (IH H) as [IH1 IH2]. cbv zeta in *. cbn [map List.filter fold_right].
  rewrite (remove_from_node_single R n Hn).
  destruct (named_by R n); cbn [fst snd negb has_names set_names names].
  - split; [exact IH1|]. rewrite IH2. cbn [length]. lia.
  - assert (Hh : has_names n = true).
    { unfold has_names, single_named in *. destruct (names n); [discriminate|reflexivity]. }
    rewrite Hh. split; [f_equal; exact IH1|]. rewrite IH2. cbn [length]. lia.
Qed.

(** X10: on declarations that bind one name each, the remover drops whole
    declarations and changes none; the counter grows by the number dropped,
    less [names_from_star], plus [star_imports_removed]. *)
Theorem remove_unused_names_drops_whole_declarations
    (imports : list import_node) (warnings : gset (string * Z)) (st : stats) :
  forallb single_named imports = true ->
  let remove_imports := remove_imports_of imports warnings in
  let r := _remove_unused_names imports warnings st in
  r.1 = List.filter (fun n => negb (named_by remove_imports n)) imports
  /\ sublist r.1 imports
  /\ removed_imports r.2
     = removed_imports st
       + (Z.of_nat (length imports) - Z.of_nat (length r.1))
       - names_from_star st + star_imports_removed st.
Proof.
  intros H remove_imports r.
  destruct (remove_pass_single remove_imports imports H) as [H1 H2].
  cbv zeta in H1, H2.
  assert (Hr : r.1 = List.filter (fun n => negb (named_by remove_imports n)) imports)
    by exact H1.
  split; [exact Hr|]. split.
  - rewrite Hr. generalize remove_imports. clear. intros R.
    induction imports as [|n imports IH]; simpl; [constructor|].
    destruct (negb _); [apply sublist_skip | apply sublist_cons]; exact IH.
  - rewrite Hr. subst r. unfold _remove_unused_names. cbn [snd fst].
    unfold set_removed_imports. cbn [removed_imports].
    fold remove_imports. rewrite H2. lia.
Qed.

Definition import_sys : import_node :=
  mk_import Import None 0 [mk_alias "sys" None] 2 false false.

Definition from_os_path : import_node :=
  mk_import ImportFrom (Some "os") 0 [mk_alias "path" None] 1 false false.

Lemma remove_unused_names_drops_whole_declarations_witness :
  forallb single_named [from_os_path; import_sys] = true
  /\ (_remove_unused_names [from_os_path; import_sys] {[ ("os.path", 1) ]} stats0).1
     = [import_sys]
  /\ removed_imports
       (_remove_unused_names [from_os_path; import_sys] {[ ("os.path", 1) ]} stats0).2
     = 1.
Proof.
  split; [reflexivity|].
  pose proof (remove_unused_names_drops_whole_declarations
                [from_os_path; import_sys] {[ ("os.path", 1) ]} stats0 eq_refl)
    as (H1 & _ & H3).
  split.
  - rewrite H1. vm_compute. reflexivity.
  - rewrite H3, H1. vm_compute. reflexivity.
Defined.

(** ** The remover without warnings *)

Lemma remove_from_node_empty (n : import_node) :
  remove_from_node ∅ n = (n, 0).
Proof.
  unfold remove_from_node. destruct (kind n).
  - rewrite filter_all.
    + rewrite set_names_same. f_equal. lia.
    + intros a _. rewrite bool_decide_eq_false_2 by apply not_elem_of_empty.
      reflexivity.
  - rewrite bool_decide_eq_false_2 by apply not_elem_of_empty. reflexivity.
Qed.

(** X11: with no warning at all, the remover still drops the statements that
    have no name left, and still adds [star_imports_removed] less
    [names_from_star] to the counter. *)
Theorem remove_unused_names_without_warnings (imports : list import_node)
    (st : stats) :
  _remove_unused_names imports ∅ st
  = (List.filter has_names imports,
     set_removed_imports st
       (removed_imports st
        + (0 - names_from_star st + star_imports_removed st))).
Proof.
  unfold _remove_unused_names.
  assert (HR : remove_imports_of imports ∅ = ∅).
  { unfold remove_imports_of. apply set_eq. intros w.
    rewrite elem_of_filter. split; [tauto|]. intros Hw.
    exfalso. exact (not_elem_of_empty w Hw). }
  rewrite HR.
  assert (Hmap : map (remove_from_node ∅) imports = map (fun n => (n, 0)) imports).
  { apply map_ext. intros n. apply remove_from_node_empty. }
  rewrite Hmap, !map_map. cbn [fst snd]. rewrite map_id.
  replace (fold_right Z.add 0 (map (fun _ : import_node => 0) imports)) with 0;
    [reflexivity|].
  clear. induction imports as [|n imports IH]; simpl; [reflexivity | exact IH].
Qed.

(** ** A direct import with an alias *)

Lemma length_append (s t : string) :
  String.length (s +:+ t) = (String.length s + String.length t)%nat.
Proof.
  induction s as [|c s IH]; [reflexivity|].
  change (String.length (String c s +:+ t)) with (S (String.length (s +:+ t))).
  rewrite IH. reflexivity.
Qed.

Lemma render_alias_aliased (a : alias) :
  truthy (asname a) = true -> render_alias a <> name a.
Proof.
  unfold render_alias. intros ->. intros H.
  apply (f_equal String.length) in H. rewrite !length_append in H.
  simpl in H. lia.
Qed.

(** X12: the remover looks a direct import up by [name.name] alone.  When
    the only warnings for the line of [import name as alias] spell it the
    way the statement is written, [name as alias] (which is also the
    spelling the remover itself uses for a from-import), the declaration
    is not removed. *)
Theorem aliased_direct_import_is_not_removed (imports : list import_node)
    (warnings : gset (string * Z)) (st : stats) (n : import_node) (a : alias) :
  In n imports -> kind n = Import -> names n = [a] ->
  truthy (asname a) = true ->
  (forall k, (k, lineno n) ∈ warnings -> k = render_alias a) ->
  In n (_remove_unused_names imports warnings st).1.
Proof.
  intros Hn Hk Ha Has Hw. unfold _remove_unused_names. cbn [fst].
  apply filter_In. split.
  - rewrite map_map. apply in_map_iff. exists n. split; [|exact Hn].
    unfold remove_from_node. rewrite Hk, Ha. cbn [List.filter fst].
    rewrite bool_decide_eq_false_2.
    + cbn [negb]. rewrite <- Ha. apply set_names_same.
    + intros Hin. unfold remove_imports_of in Hin.
      apply elem_of_filter in Hin as [_ Hin].
      apply Hw in Hin. symmetry in Hin.
      exact (render_alias_aliased a Has Hin).
  - unfold has_names. rewrite Ha. reflexivity.
Qed.

Lemma aliased_direct_import_is_not_removed_witness :
  In (foo_as "bar" 1) [foo_as "bar" 1]
  /\ (_remove_unused_names [foo_as "bar" 1] {[ ("foo as bar", 1) ]} stats0).1
     = [foo_as "bar" 1]
  /\ In (foo_as "bar" 1)
       (_remove_unused_names [foo_as "bar" 1] {[ ("foo as bar", 1) ]} stats0).1.
Proof.
  assert (H : In (foo_as "bar" 1) [foo_as "bar" 1]) by (left; reflexivity).
  split; [exact H|]. split; [vm_compute; reflexivity|].
  apply (aliased_direct_import_is_not_removed [foo_as "bar" 1] _ stats0
           (foo_as "bar" 1) (mk_alias "foo" (Some "bar")) H); try reflexivity.
  intros k Hk. apply elem_of_singleton in Hk. injection Hk as ->. reflexivity.
Defined.

(** ** The five groups hold every declaration once *)

Lemma Permutation_insert {A : Type} (x : A) (l1 l2 l : list A) :
  Permutation (l1 ++ l2) l -> Permutation (l1 ++ x :: l2) (x :: l).
Proof.
  intros H. rewrite <- Permutation_middle. apply perm_skip. exact H.
Qed.

Lemma Permutation_insert_5 {A : Type} (x : A) (a b c d e l : list A) :
  Permutation (a ++ b ++ c ++ d ++ e) l ->
  Permutation ((x :: a) ++ b ++ c ++ d ++ e) (x :: l)
  /\ Permutation (a ++ (x :: b) ++ c ++ d ++ e) (x :: l)
  /\ Permutation (a ++ b ++ (x :: c) ++ d ++ e) (x :: l)
  /\ Permutation (a ++ b ++ c ++ (x :: d) ++ e) (x :: l)
  /\ Permutation (a ++ b ++ c ++ d ++ x :: e) (x :: l).
Proof.
  intros H. repeat split.
  - apply (Permutation_insert x []). exact H.
  - apply Permutation_insert. exact H.
  - rewrite (app_assoc a b). apply Permutation_insert.
    rewrite <- app_assoc. exact H.
  - rewrite (app_assoc a b), (app_assoc (a ++ b) c). apply Permutation_insert.
    rewrite <- !app_assoc. exact H.
  - rewrite (app_assoc a b), (app_assoc (a ++ b) c), (app_assoc ((a ++ b) ++ c) d).
    apply Permutation_insert. rewrite <- !app_assoc. exact H.
Qed.

Lemma members_partition (STDLIB_NAMES : gset string) (local_modules : list string)
    (imports : list import_node) :
  let m := fun g => members STDLIB_NAMES local_modules g imports in
  Permutation (m Future ++ m Stdlib ++ m Package ++ m Locals ++ m Nosort) imports.
Proof.
  induction imports as [|n imports IH]; cbv beta zeta in *; [reflexivity|].
  rewrite !members_cons.
  destruct (Permutation_insert_5 n _ _ _ _ _ _ IH) as (H1 & H2 & H3 & H4 & H5).
  destruct (class_of STDLIB_NAMES local_modules n);
    repeat match goal with
           | |- context [bool_decide (?a = ?b)] =>
               first [ rewrite (bool_decide_eq_true_2 (a = b)) by reflexivity
                     | rewrite (bool_decide_eq_false_2 (a = b)) by discriminate ]
           end; assumption.
Qed.

(** X13: [_get_import_groups] raises [AssertionError] exactly when some
    declaration does not bind one name; otherwise the five groups together
    hold the declarations of the input, each once. *)
Theorem import_groups_hold_every_declaration_once (STDLIB_NAMES : gset string)
    (set_iter : list import_node -> list import_node)
    (imports : list import_node) (local_modules : string) :
  (forall l, Permutation (set_iter l) l) ->
  match _get_import_groups STDLIB_NAMES set_iter imports local_modules with
  | Ok gs =>
      forallb single_named imports = true
      /\ Permutation
           (future gs ++ stdlib gs ++ package gs ++ locals_ gs ++ nosort_ gs)
           imports
  | Raise e => e = AssertionError /\ forallb single_named imports = false
  end.
Proof.
  intros Hperm. unfold _get_import_groups. rewrite group_loop_spec.
  destruct (forallb single_named imports); [|split; reflexivity].
  cbn. split; [reflexivity|]. unfold sorted_set.
  rewrite !sorted_perm, !Hperm. apply members_partition.
Qed.

Lemma import_groups_hold_every_declaration_once_witness :
  (forall l : list import_node, Permutation (id l) l)
  /\ match _get_import_groups Sample.STDLIB_NAMES id
             [from_dot_y; from_dot_x] "" with
     | Ok gs =>
         forallb single_named [from_dot_y; from_dot_x] = true
         /\ Permutation
              (future gs ++ stdlib gs ++ package gs ++ locals_ gs ++ nosort_ gs)
              [from_dot_y; from_dot_x]
     | Raise e =>
         e = AssertionError
         /\ forallb single_named [from_dot_y; from_dot_x] = false
     end.
Proof.
  assert (H : forall l : list import_node, Permutation (id l) l)
    by (intros l; reflexivity).
  split; [exact H|].
  exact (import_groups_hold_every_declaration_once Sample.STDLIB_NAMES id
           [from_dot_y; from_dot_x] "" H).
Defined.

(** ** Grouping again *)

Lemma insert_by_head {A : Type} (key : A -> sort_key) (x : A) (l : list A) :
  HdRel (in_order key) x l -> insert_by key x l = x :: l.
Proof.
  destruct l as [|y l]; [reflexivity|]. intros H. apply HdRel_inv in H.
  unfold in_order in H. simpl. rewrite H. reflexivity.
Qed.

(** The sort is stable: a list that is in order already is returned as it
    is. *)
Lemma sorted_of_sorted {A : Type} (key : A -> sort_key) (l : list A) :
  Sorted (in_order key) l -> sorted key l = l.
Proof.
  unfold sorted. induction 1 as [|x l Hs IH Hd]; simpl; [reflexivity|].
  rewrite IH. apply insert_by_head. exact Hd.
Qed.

Lemma members_of_class (STDLIB_NAMES : gset string) (local_modules : list string)
    (g h : group) (l : list import_node) :
  (forall n, In n l -> class_of STDLIB_NAMES local_modules n = h) ->
  members STDLIB_NAMES local_modules g l = if decide (g = h) then l else [].
Proof.
  intros H. unfold members. destruct (decide (g = h)) as [->|Hne].
  - apply filter_all. intros n Hn. apply bool_decide_eq_true_2. auto.
  - apply filter_none. intros n Hn. apply bool_decide_eq_false_2.
    rewrite (H n Hn). congruence.
Qed.

Lemma members_app (STDLIB_NAMES : gset string) (local_modules : list string)
    (g : group) (l1 l2 : list import_node) :
  members STDLIB_NAMES local_modules g (l1 ++ l2)
  = members STDLIB_NAMES local_modules g l1
    ++ members STDLIB_NAMES local_modules g l2.
Proof. apply List.filter_app. Qed.

Lemma members_class (STDLIB_NAMES : gset string) (local_modules : list string)
    (g : group) (imports l : list import_node) :
  Permutation l (members STDLIB_NAMES local_modules g imports) ->
  forall n, In n l -> class_of STDLIB_NAMES local_modules n = g.
Proof.
  intros Hp n Hn. apply (Permutation_in _ Hp) in Hn.
  apply filter_In in Hn as [_ Hn]. apply bool_decide_eq_true in Hn. exact Hn.
Qed.

(** X14: when a set is iterated in the order of insertion, grouping the
    declarations in the order in which they are written gives the same
    groups again. *)
Theorem import_groups_of_the_written_order (STDLIB_NAMES : gset string)
    (imports : list import_node) (local_modules : string) (gs : groups) :
  _get_import_groups STDLIB_NAMES id imports local_modules = Ok gs ->
  _get_import_groups STDLIB_NAMES id
    (future gs ++ stdlib gs ++ package gs ++ locals_ gs ++ nosort_ gs)
    local_modules
  = Ok gs.
Proof.
  intros H. unfold _get_import_groups in H. rewrite group_loop_spec in H.
  destruct (forallb single_named imports) eqn:Hall; [|discriminate].
  cbv beta iota delta [mbind result_bind] in H. injection H as <-.
  cbn [future stdlib package nosort_ locals_ app].
  set (lm := split "," local_modules).
  set (m := fun g => members STDLIB_NAMES lm g imports).
  fold (m Future) (m Stdlib) (m Package) (m Locals) (m Nosort).
  unfold sorted_set, id.
  assert (Hc : forall g n, In n (sorted node_key (m g)) ->
                           class_of STDLIB_NAMES lm n = g).
  { intros g. apply (members_class _ _ g imports). apply sorted_perm. }
  assert (Hn : forall n, In n (m Nosort) -> class_of STDLIB_NAMES lm n = Nosort).
  { apply (members_class _ _ Nosort imports). reflexivity. }
  assert (Hs : forall g n, In n (m g) -> single_named n = true).
  { intros g n Hin. apply filter_In in Hin as [Hin _].
    exact (proj1 (forallb_forall _ _) Hall n Hin). }
  assert (Hall' : forallb single_named
                    (sorted node_key (m Future) ++ sorted node_key (m Stdlib)
                     ++ sorted node_key (m Package) ++ sorted node_key (m Locals)
                     ++ m Nosort) = true).
  { apply forallb_forall. intros n Hin.
    repeat (apply in_app_or in Hin as [Hin|Hin];
            [apply (Permutation_in _ (sorted_perm _ _)) in Hin; eapply Hs; exact Hin|]).
    eapply Hs. exact Hin. }
  unfold _get_import_groups. rewrite group_loop_spec. fold lm. rewrite Hall'.
  cbv beta iota delta [mbind result_bind].
  cbn [future stdlib package nosort_ locals_ app].
  rewrite !members_app.
  rewrite !(members_of_class _ _ _ Future _ (Hc Future)),
          !(members_of_class _ _ _ Stdlib _ (Hc Stdlib)),
          !(members_of_class _ _ _ Package _ (Hc Package)),
          !(members_of_class _ _ _ Locals _ (Hc Locals)),
          !(members_of_class _ _ _ Nosort _ Hn).
  repeat match goal with
         | |- context [decide (?a = ?b)] =>
             first [ rewrite (decide_True (P := a = b)) by reflexivity
                   | rewrite (decide_False (P := a = b)) by discriminate ]
         end.
  cbn [app]. rewrite !app_nil_r.
  unfold sorted_set, id.
  rewrite (sorted_of_sorted node_key (sorted node_key (m Future))),
          (sorted_of_sorted node_key (sorted node_key (m Stdlib))),
          (sorted_of_sorted node_key (sorted node_key (m Package))),
          (sorted_of_sorted node_key (sorted node_key (m Locals)))
    by apply sorted_is_sorted.
  reflexivity.
Qed.

Lemma import_groups_of_the_written_order_witness :
  _get_import_groups Sample.STDLIB_NAMES id [from_dot_x; from_dot_y] ""
  = Ok passthrough_groups
  /\ _get_import_groups Sample.STDLIB_NAMES id [from_dot_y; from_dot_x] ""
     = Ok passthrough_groups.
Proof.
  assert (H : _get_import_groups Sample.STDLIB_NAMES id [from_dot_x; from_dot_y] ""
              = Ok passthrough_groups) by (vm_compute; reflexivity).
  split; [exact H|].
  exact (import_groups_of_the_written_order Sample.STDLIB_NAMES
           [from_dot_x; from_dot_y] "" passthrough_groups H).
Defined.

(** ** What the groups hold *)

Lemma class_of_future (STDLIB_NAMES : gset string) (local_modules : list string)
    (n : import_node) :
  class_of STDLIB_NAMES local_modules n = Future ->
  kind n = ImportFrom /\ module n = Some "__future__" /\ level n <= 0
  /\ nosort n = false.
Proof.
  unfold class_of, classify. destruct (names n) as [|a rest]; [discriminate|].
  destruct (kind n).
  - destruct (nosort n); [discriminate|].
    destruct (is_local_prefix _ _); [discriminate|].
    destruct (_is_std_lib _ _); discriminate.
  - destruct (nosort n); [discriminate|].
    destruct (Z.ltb_spec 0 (level n)); [discriminate|].
    destruct (negb (truthy (module n)) || _); [discriminate|].
    destruct (truthy (module n) && _is_future (or_empty (module n))) eqn:Hf.
    + intros _. apply andb_prop in Hf as [Ht Hf].
      destruct (module n) as [s|]; [|discriminate]. simpl in Hf.
      apply String.eqb_eq in Hf. subst s. repeat split. lia.
    + destruct (truthy (module n) && _is_std_lib _ _); discriminate.
Qed.

Lemma class_of_relative (STDLIB_NAMES : gset string) (local_modules : list string)
    (n : import_node) :
  single_named n = true ->
  kind n = ImportFrom -> 0 < level n -> nosort n = false ->
  class_of STDLIB_NAMES local_modules n = Locals.
Proof.
  unfold single_named, class_of, classify.
  destruct (names n) as [|a [|]]; try discriminate.
  intros _ -> Hl ->. destruct (Z.ltb_spec 0 (level n)); [reflexivity | lia].
Qed.

(** X15: the future group holds from-imports of [__future__] only, and a
    relative import that is not flagged goes to the local group whatever
    its module is called. *)
Theorem future_and_relative_imports (STDLIB_NAMES : gset string)
    (set_iter : list import_node -> list import_node)
    (imports : list import_node) (local_modules : string) (gs : groups) :
  (forall l, Permutation (set_iter l) l) ->
  _get_import_groups STDLIB_NAMES set_iter imports local_modules = Ok gs ->
  (forall n, In n (future gs) ->
             kind n = ImportFrom /\ module n = Some "__future__"
             /\ level n <= 0 /\ nosort n = false)
  /\ (forall n, In n imports ->
                kind n = ImportFrom -> 0 < level n -> nosort n = false ->
                In n (locals_ gs)).
Proof.
  intros Hperm. unfold _get_import_groups. rewrite group_loop_spec.
  destruct (forallb single_named imports) eqn:Hall; [|discriminate].
  cbn. intros [= <-]. cbn [future locals_]. unfold sorted_set. split.
  - intros n Hn. apply (class_of_future STDLIB_NAMES (split "," local_modules)).
    eapply (members_class _ _ Future imports); [|exact Hn].
    rewrite sorted_perm. apply Hperm.
  - intros n Hn Hk Hl Hs.
    apply (Permutation_in n (Permutation_sym (sorted_perm node_key _))).
    apply (Permutation_in n (Permutation_sym (Hperm _))).
    apply filter_In. split; [exact Hn|]. apply bool_decide_eq_true_2.
    apply class_of_relative; try assumption.
    exact (proj1 (forallb_forall _ _) Hall n Hn).
Qed.

Definition from_dot_os : import_node :=
  mk_import ImportFrom (Some "os") 1 [mk_alias "path" None] 1 false false.

Definition import_future : import_node :=
  mk_import Import None 0 [mk_alias "__future__" None] 2 false false.

Lemma future_and_relative_imports_witness :
  (forall l : list import_node, Permutation (id l) l)
  /\ _get_import_groups Sample.STDLIB_NAMES id [from_dot_os; import_future] ""
     = Ok (mk_groups [] [] [import_future] [] [from_dot_os])
  /\ In from_dot_os (locals_ (mk_groups [] [] [import_future] [] [from_dot_os])).
Proof.
  assert (Hp : forall l : list import_node, Permutation (id l) l)
    by (intros l; reflexivity).
  assert (H : _get_import_groups Sample.STDLIB_NAMES id
                [from_dot_os; import_future] ""
              = Ok (mk_groups [] [] [import_future] [] [from_dot_os]))
    by (vm_compute; reflexivity).
  split; [exact Hp|]. split; [exact H|].
  apply (proj2 (future_and_relative_imports Sample.STDLIB_NAMES id
                  [from_dot_os; import_future] "" _ Hp H) from_dot_os);
    [left; reflexivity | reflexivity | reflexivity | reflexivity].
Defined.

(** ** The warnings collected are for lines at the top level *)

(** The position that a subscript stands for in a list of [len] items. *)
Definition position (len : nat) (i : Z) : option nat :=
  let n := Z.of_nat len in
  let j := if i <? 0 then i + n else i in
  if (0 <=? j) && (j <? n) then Some (Z.to_nat j) else None.

Lemma nth_error_lookup_eq {A : Type} (l : list A) (j : nat) :
  nth_error l j = l !! j.
Proof.
  revert j. induction l as [|x l IH]; intros [|j]; simpl; auto.
Qed.

Lemma py_index_position {A : Type} (l : list A) (i : Z) (x : A) :
  py_index l i = Ok x <->
  exists j, position (length l) i = Some j /\ l !! j = Some x.
Proof.
  unfold py_index, position. cbv zeta.
  destruct ((0 <=? (if i <? 0 then i + Z.of_nat (length l) else i))
            && ((if i <? 0 then i + Z.of_nat (length l) else i)
                <? Z.of_nat (length l))).
  - rewrite nth_error_lookup_eq. split.
    + destruct (l !! _) eqn:E; [|discriminate]. intros [= <-]. eauto.
    + intros (j & [= <-] & ->). reflexivity.
  - split; [discriminate|]. intros (j & Hj & _). discriminate.
Qed.

Lemma py_setitem_position {A : Type} (l l' : list A) (i : Z) (x : A) :
  py_setitem l i x = Ok l' ->
  exists j, position (length l) i = Some j /\ l' = <[j := x]> l.
Proof.
  unfold py_setitem, position. cbv zeta.
  destruct (_ && _); [|discriminate]. intros [= <-]. eauto.
Qed.

(** A report that the loop can have seen: one of the messages it was
    given, or a message of the checker for a text that parsed. *)
Definition reported_to_drill (ast_parse : string -> result ast)
    (Checker : ast -> list message) (warnings : list message)
    (k : string) (l : Z) : Prop :=
  In (UnusedImport k l) warnings
  \/ exists source tree,
       ast_parse source = Ok tree /\ In (UnusedImport k l) (Checker tree).

(** The working text against the text given: a line is as it was, or it
    was blanked and did not start with white space; and every warning
    collected is a report [seen] for such a line. *)
Definition drilled (seen : string -> Z -> Prop) (orig : list string)
    (st : drill_state) : Prop :=
  length (d_source_lines st) = length orig
  /\ (forall j t, d_source_lines st !! j = Some t ->
        exists t0, orig !! j = Some t0
                   /\ (t = t0 \/ (t = "" /\ leading_whitespace t0 = false)))
  /\ (forall k l, (k, l) ∈ d_warnings_set st ->
        seen k l
        /\ exists text, py_index orig (l - 1) = Ok text
                        /\ leading_whitespace text = false).

Lemma drill_message_drilled (seen : string -> Z -> Prop) (orig : list string)
    (st st' : drill_state) (w : message) :
  (forall k l, w = UnusedImport k l -> seen k l) ->
  drilled seen orig st -> drill_message st w = Ok st' -> drilled seen orig st'.
Proof.
  intros Hseen (Hlen & Hlines & Hw). destruct w as [arg0 line|line]; simpl.
  2:{ intros [= <-]. exact (conj Hlen (conj Hlines Hw)). }
  destruct (bool_decide (line ∈ d_seen_lineno st)).
  { intros [= <-]. exact (conj Hlen (conj Hlines Hw)). }
  destruct (py_index (d_source_lines st) (line - 1)) as [text|e] eqn:Hidx;
    simpl; [|discriminate].
  destruct (leading_whitespace text) eqn:Hlw.
  { intros [= <-]. exact (conj Hlen (conj Hlines Hw)). }
  destruct (py_setitem (d_source_lines st) (line - 1) "") as [blanked|e] eqn:Hset;
    simpl; [|discriminate].
  intros [= <-]. simpl.
  apply py_index_position in Hidx as (j & Hj & Hjt).
  apply py_setitem_position in Hset as (j' & Hj' & ->).
  assert (j' = j) as -> by congruence.
  destruct (Hlines j text Hjt) as (t0 & Ht0 & Hrel).
  assert (Hlw0 : leading_whitespace t0 = false).
  { destruct Hrel as [<-|[_ ?]]; assumption. }
  split; [|split]; simpl.
  - rewrite length_insert. exact Hlen.
  - intros i t Hi. destruct (decide (i = j)) as [->|Hne].
    + rewrite list_lookup_insert_eq in Hi by (eapply lookup_lt_Some; exact Hjt).
      injection Hi as <-. exists t0. auto.
    + rewrite list_lookup_insert_ne in Hi by congruence. auto.
  - intros k l Hin. apply elem_of_union in Hin as [Hin|Hin]; [auto|].
    apply elem_of_singleton in Hin. injection Hin as -> ->.
    split; [apply Hseen; reflexivity|].
    exists t0. split; [|exact Hlw0].
    apply py_index_position. exists j. rewrite <- Hlen. auto.
Qed.

Lemma drill_messages_drilled (seen : string -> Z -> Prop) (orig : list string)
    (messages : list message) :
  (forall k l, In (UnusedImport k l) messages -> seen k l) ->
  forall st st',
    drilled seen orig st -> drill_messages st messages = Ok st' ->
    drilled seen orig st'.
Proof.
  induction messages as [|w messages IH]; intros Hseen st st' Hst; simpl.
  - intros [= <-]. exact Hst.
  - intros H. apply bind_inv in H as (st1 & H1 & H2).
    eapply IH; [intros; apply Hseen; right; assumption | | exact H2].
    eapply drill_message_drilled; [|exact Hst | exact H1].
    intros k l ->. apply Hseen. left. reflexivity.
Qed.

Lemma drill_loop_drilled (ast_parse : string -> result ast)
    (Checker : ast -> list message) (seen : string -> Z -> Prop)
    (orig : list string) (fuel : nat) :
  (forall source tree k l,
     ast_parse source = Ok tree -> In (UnusedImport k l) (Checker tree) ->
     seen k l) ->
  forall messages st W,
    (forall k l, In (UnusedImport k l) messages -> seen k l) ->
    drilled seen orig st ->
    drill_loop ast_parse Checker fuel messages st = Some (Ok W) ->
    forall k l, (k, l) ∈ W ->
      seen k l
      /\ exists text, py_index orig (l - 1) = Ok text
                      /\ leading_whitespace text = false.
Proof.
  intros HC. induction fuel as [|fuel IH]; intros messages st W Hm Hst; simpl;
    [discriminate|].
  destruct (drill_messages _ messages) as [st'|e] eqn:Hpass; [|discriminate].
  apply (drill_messages_drilled seen orig) in Hpass; [|exact Hm|exact Hst].
  destruct (negb (d_has_warnings st')).
  - intros [= <-]. apply Hpass.
  - destruct (ast_parse _) as [tree|e] eqn:Hparse; [|discriminate].
    apply IH; [|exact Hpass]. intros k l. apply (HC _ _ _ _ Hparse).
Qed.

(** X16: every warning that [_drill_for_warnings] collects was reported,
    among the messages it was given or by the checker for a text that
    parsed, and is for a line of the text given that does not start with
    white space: warnings for indented imports are never collected. *)
Theorem drill_collects_top_level_lines (ast_parse : string -> result ast)
    (Checker : ast -> list message) (source_lines : list string)
    (warnings : list message) (warnings_set : gset (string * Z)) :
  _drill_for_warnings ast_parse Checker source_lines warnings = Ok warnings_set ->
  forall k l, (k, l) ∈ warnings_set ->
    reported_to_drill ast_parse Checker warnings k l
    /\ exists text, py_index source_lines (l - 1) = Ok text
                    /\ leading_whitespace text = false.
Proof.
  unfold _drill_for_warnings.
  destruct (drill_loop _ _ _ _ _) as [r|] eqn:H; [|discriminate].
  intros ->.
  apply (drill_loop_drilled ast_parse Checker
           (reported_to_drill ast_parse Checker warnings) source_lines
           (drill_fuel source_lines))
    with (messages := warnings) (st := mk_drill source_lines ∅ ∅ false);
    [| |split; [|split]; simpl|exact H].
  - intros source tree k l Hp Hin. right. eauto.
  - intros k l Hin. left. exact Hin.
  - reflexivity.
  - intros j t Hj. exists t. auto.
  - intros k l Hin. exfalso. exact (not_elem_of_empty _ Hin).
Qed.

Definition nested_unused : list string :=
  ["import os"; "if x:"; "    import sys"].

Lemma drill_collects_top_level_lines_witness :
  _drill_for_warnings Sample.ast_parse Sample.Checker nested_unused
    [UnusedImport "os" 1; UnusedImport "sys" 3]
  = Ok {[ ("os", 1) ]}
  /\ reported_to_drill Sample.ast_parse Sample.Checker
       [UnusedImport "os" 1; UnusedImport "sys" 3] "os" 1
  /\ exists text, py_index nested_unused (1 - 1) = Ok text
                  /\ leading_whitespace text = false.
Proof.
  assert (H : _drill_for_warnings Sample.ast_parse Sample.Checker nested_unused
                [UnusedImport "os" 1; UnusedImport "sys" 3]
              = Ok {[ ("os", 1) ]}) by (vm_compute; reflexivity).
  split; [exact H|].
  apply (drill_collects_top_level_lines _ _ _ _ _ H "os" 1).
  apply elem_of_singleton. reflexivity.
Defined.

(** ** What a run writes *)

(** The file that a status line is for, and the text printed. *)
Definition status_file (ev : event) : option string :=
  match ev with
  | StderrUnchanged file => Some file
  | StderrChanged _ file _ => Some file
  | StdoutWrite _ => None
  end.

Definition printed (ev : event) : option string :=
  match ev with
  | StdoutWrite text => Some text
  | _ => None
  end.

Section Main.

Variable ast_parse : string -> result ast.
Variable Checker : ast -> list message.
Variable star_names : option string -> result (list string).
Variable STDLIB_NAMES : gset string.
Variable set_iter : list import_node -> list import_node.
Variable Differ_compare : list string -> list string -> list string.
Variable fs : Type.
Variable fs_read : fs -> string -> result (list string).
Variable fs_write : fs -> string -> string -> fs.

Let file_step :=
  main_file ast_parse Checker star_names STDLIB_NAMES set_iter Differ_compare
    fs fs_read fs_write.
Let loop :=
  main_loop ast_parse Checker star_names STDLIB_NAMES set_iter Differ_compare
    fs fs_read fs_write.
Let program :=
  main ast_parse Checker star_names STDLIB_NAMES set_iter Differ_compare
    fs fs_read fs_write.

(** The threshold that [_rewrite_source] is called with: 0 with [-k]. *)
Definition threshold_in_force (o : options) (heuristic_unused : option Z)
  : option Z :=
  if keep_unused o then Some 0 else heuristic_unused.

(** The rewritten text of a file of the disk, as one string: the lines
    that [_rewrite_source] returns for the lines of the file, each followed
    by a line feed. *)
Definition rewritten_text (o : options) (threshold : option Z) (disk : fs)
    (file : string) : result string :=
  file_ ← fs_read disk file;
  rs ← _rewrite_source ast_parse Checker star_names STDLIB_NAMES set_iter
         Differ_compare (read_source_lines file_) (opt_module o) threshold
         (expand_stars o);
  Ok (_lines_as_buffer rs.1).

(** One pass of the loop: one status line for the file, then the text on
    the standard output unless [-s] or [-i] is given; the file is written
    only with [-i], without [-s], and when the text has changed. *)
Lemma main_file_effects (o : options) (r r' : run fs) (file : string) :
  file_step o r file = Ok r' ->
  omap status_file (run_events _ r') = omap status_file (run_events _ r) ++ [file]
  /\ length (omap printed (run_events _ r'))
     = (length (omap printed (run_events _ r))
        + if statsonly o || inplace o then 0 else 1)%nat
  /\ (statsonly o = true \/ inplace o = false -> run_fs _ r' = run_fs _ r).
Proof.
  unfold file_step, main_file. intros H.
  apply bind_inv in H as (file_ & _ & H).
  apply bind_inv in H as (threshold & _ & H).
  apply bind_inv in H as (rs & _ & H).
  assert (Hst : forall b : bool,
            omap status_file
              [if negb (is_changed rs.2) then StderrUnchanged file
               else StderrChanged b file rs.2]
            = [file]).
  { intros b. destruct (negb _); reflexivity. }
  assert (Hpr : forall b : bool,
            omap printed
              [if negb (is_changed rs.2) then StderrUnchanged file
               else StderrChanged b file rs.2]
            = []).
  { intros b. destruct (negb _); reflexivity. }
  destruct (statsonly o); [|destruct (inplace o); [destruct (is_changed rs.2) eqn:Hc|]];
    injection H as <-; cbn [run_events run_fs orb];
    rewrite ?omap_app, ?Hst, ?Hpr; cbn [omap list_omap printed status_file];
    rewrite ?app_nil_r, ?length_app; cbn [length];
    (split; [reflexivity|]); (split; [lia|]);
    try (intros _; reflexivity); intros [?|?]; discriminate.
Qed.

Lemma main_loop_effects (o : options) (files : list string) :
  forall (r r' : run fs) (e : option exn),
    loop o files r = (r', e) ->
    (exists done, omap status_file (run_events _ r')
                  = omap status_file (run_events _ r) ++ done
                  /\ (e = None -> done = files)
                  /\ length (omap printed (run_events _ r'))
                     = (length (omap printed (run_events _ r))
                        + if statsonly o || inplace o then 0 else length done)%nat)
    /\ (statsonly o = true \/ inplace o = false -> run_fs _ r' = run_fs _ r).
Proof.
  unfold loop. induction files as [|file files IH]; intros r r' e H; simpl in H.
  - injection H as <- <-. split; [|reflexivity].
    exists []. rewrite app_nil_r. repeat split.
    destruct (_ || _); simpl; lia.
  - destruct (main_file _ _ _ _ _ _ _ _ _ o r file) as [r1|e1] eqn:H1.
    + apply main_file_effects in H1 as (A1 & B1 & C1).
      apply IH in H as ((done & A2 & D2 & B2) & C2). split.
      * exists (file :: done). rewrite A2, A1, <- app_assoc.
        split; [reflexivity|]. split; [intros He; rewrite (D2 He); reflexivity|].
        rewrite B2, B1. destruct (_ || _); simpl; lia.
      * intros Ho. rewrite (C2 Ho). apply C1, Ho.
    + injection H as <- <-. split; [|reflexivity].
      exists []. rewrite app_nil_r. split; [reflexivity|].
      split; [discriminate|]. destruct (_ || _); simpl; lia.
Qed.

(** One pass of the loop without [-s] and [-i]: what is printed is the
    rewritten text of the file; the disk and the threshold in force stay as
    they are. *)
Lemma main_file_prints (o : options) (r r' : run fs) (file : string) :
  file_step o r file = Ok r' ->
  statsonly o || inplace o = false ->
  (exists text,
     rewritten_text o (threshold_in_force o (run_heuristic_unused _ r))
       (run_fs _ r) file = Ok text
     /\ omap printed (run_events _ r')
        = omap printed (run_events _ r) ++ [text])
  /\ threshold_in_force o (run_heuristic_unused _ r')
     = threshold_in_force o (run_heuristic_unused _ r)
  /\ run_fs _ r' = run_fs _ r.
Proof.
  unfold file_step, main_file, rewritten_text, threshold_in_force.
  intros H Ho. apply orb_false_iff in Ho as [Hs Hi].
  apply bind_inv in H as (file_ & Hread & H).
  apply bind_inv in H as (threshold & Ht & H).
  apply bind_inv in H as (rs & Hrs & H).
  rewrite Hs, Hi in H. injection H as <-. cbn [run_events run_fs run_heuristic_unused].
  assert (Et : threshold
               = if keep_unused o then Some 0 else run_heuristic_unused _ r).
  { destruct (keep_unused o).
    - destruct (int_truthy _); [discriminate|]. injection Ht as <-. reflexivity.
    - injection Ht as <-. reflexivity. }
  split; [|split; [|reflexivity]].
  - exists (_lines_as_buffer rs.1). rewrite Hread, bind_Ok, <- Et, Hrs, bind_Ok.
    split; [reflexivity|]. rewrite !omap_app.
    replace (omap printed
               [if negb (is_changed rs.2) then StderrUnchanged file
                else StderrChanged (false && negb false) file rs.2])
      with (@nil string) by (destruct (negb _); reflexivity).
    rewrite app_nil_r. reflexivity.
  - rewrite Et. destruct (keep_unused o); reflexivity.
Qed.

Lemma main_loop_prints (o : options) (files : list string) :
  statsonly o || inplace o = false ->
  forall (r r' : run fs),
    loop o files r = (r', None) ->
    Ok <$> drop (length (omap printed (run_events _ r)))
             (omap printed (run_events _ r'))
    = rewritten_text o (threshold_in_force o (run_heuristic_unused _ r))
        (run_fs _ r) <$> files.
Proof.
  intros Ho. unfold loop.
  induction files as [|file files IH]; intros r r' H; simpl in H.
  - injection H as <-. rewrite drop_all. reflexivity.
  - destruct (main_file _ _ _ _ _ _ _ _ _ o r file) as [r1|e1] eqn:H1;
      [|discriminate].
    pose proof (main_file_prints o r r1 file H1 Ho)
      as ((text & Htext & Hp) & Ht & Hfs).
    pose proof (IH r1 r' H) as IH1. rewrite Ht, Hfs in IH1.
    rewrite fmap_cons, Htext, <- IH1.
    rewrite Hp, length_app in IH1 |- *. cbn [length] in *.
    pose proof (main_loop_effects o files r1 r' None H)
      as [(done & _ & _ & Hlen) _].
    rewrite Ho in Hlen.
    assert (Hpre : exists rest,
              omap printed (run_events _ r')
              = (omap printed (run_events _ r) ++ [text]) ++ rest).
    { clear IH IH1 Hlen. rewrite <- Hp. clear Hp Htext Ht Hfs H1.
      revert r1 H. induction files as [|f fl IHf]; intros r1 H; simpl in H.
      - injection H as <-. exists []. rewrite app_nil_r. reflexivity.
      - destruct (main_file _ _ _ _ _ _ _ _ _ o r1 f) as [r2|e2] eqn:H2;
          [|discriminate].
        destruct (main_file_prints o r1 r2 f H2 Ho) as ((t2 & _ & Hp2) & _ & _).
        destruct (IHf r2 H) as [rest Hrest]. exists (t2 :: rest).
        rewrite Hrest, Hp2, <- app_assoc. reflexivity. }
    destruct Hpre as [rest Hrest]. rewrite Hrest.
    rewrite <- app_assoc. rewrite drop_app_length.
    replace (length (omap printed (run_events fs r)) + 1)%nat
      with (length (omap printed (run_events fs r) ++ [text]))
      by (rewrite length_app; reflexivity).
    rewrite app_assoc, drop_app_length. reflexivity.
Qed.

(** X17: a run writes a file only with [-i] and without [-s]. *)
Theorem main_writes_files_only_in_place (o : options) (disk : fs) :
  statsonly o = true \/ inplace o = false ->
  run_fs _ (program o disk).1 = disk.
Proof.
  intros Ho. unfold program, main.
  destruct (main_loop _ _ _ _ _ _ _ _ _ o (filename o) _) as [r' e] eqn:H.
  apply main_loop_effects in H as [_ H]. exact (H Ho).
Qed.

(** X18: a run that ends without an exception has written one status line
    for each file, in the order of the command line.  With [-s] or [-i] it
    has printed nothing; otherwise it has printed, for each file in that
    order, the rewritten text of the file: the lines that [_rewrite_source]
    returns for it, at a threshold of 0 with [-k] and at the threshold of
    the command line otherwise, each followed by a line feed. *)
Theorem main_reports_every_file (o : options) (disk : fs) :
  (program o disk).2 = None ->
  omap status_file (run_events _ (program o disk).1) = filename o
  /\ length (omap printed (run_events _ (program o disk).1))
     = (if statsonly o || inplace o then 0%nat else length (filename o))
  /\ (if statsonly o || inplace o
      then omap printed (run_events _ (program o disk).1) = []
      else Ok <$> omap printed (run_events _ (program o disk).1)
           = rewritten_text o (threshold_in_force o (heuristic_unused o)) disk
               <$> filename o).
Proof.
  unfold program, main.
  destruct (main_loop _ _ _ _ _ _ _ _ _ o (filename o) _) as [r' e] eqn:H.
  simpl. intros ->.
  pose proof H as H'.
  apply main_loop_effects in H as [(done & A & D & B) _]. simpl in A, B.
  rewrite (D eq_refl) in A, B. split; [exact A|]. split; [exact B|].
  destruct (statsonly o || inplace o) eqn:Ho.
  - apply length_zero_iff_nil. exact B.
  - exact (main_loop_prints o (filename o) Ho _ r' H').
Qed.

(** X19: the first exception ends the run: the files after it are not read,
    and what was written for the files before it stays written. *)
Theorem main_stops_at_the_first_exception (o : options)
    (before_ after : list string) (file : string) (r r1 : run fs) (e : exn) :
  loop o before_ r = (r1, None) ->
  file_step o r1 file = Raise e ->
  loop o (before_ ++ file :: after) r = (r1, Some e).
Proof.
  unfold loop, file_step. revert r.
  induction before_ as [|f before_ IH]; intros r H He; simpl in *.
  - injection H as <-. rewrite He. reflexivity.
  - destruct (main_file _ _ _ _ _ _ _ _ _ o r f) as [r0|e0]; [|discriminate].
    apply IH; assumption.
Qed.

(** X20: when the first file cannot be opened, the run ends with that
    exception before anything is reported, printed or written; so it does
    when the text of the file does not parse, unless [-k] comes with a
    threshold that is not 0 (the run then ends as in X27, before the text
    is parsed). *)
Theorem main_fails_on_the_first_file (o : options) (disk : fs)
    (file : string) (rest : list string) (e : exn) :
  filename o = file :: rest ->
  match fs_read disk file with
  | Ok file_ =>
      keep_unused o && int_truthy (heuristic_unused o) = false
      /\ ast_parse (join newline (read_source_lines file_)) = Raise e
  | Raise e' => e' = e
  end ->
  program o disk = (mk_run fs disk [] (heuristic_unused o), Some e).
Proof.
  intros Hf He. unfold program, main. rewrite Hf. cbn [main_loop].
  unfold main_file. cbn [run_fs run_heuristic_unused].
  destruct (fs_read disk file) as [file_|e']; [|subst e'; reflexivity].
  destruct He as [Hk He].
  rewrite bind_Ok. cbv zeta. assert (Hparse : forall t es,
             _rewrite_source ast_parse Checker star_names STDLIB_NAMES set_iter
               Differ_compare (read_source_lines file_) (opt_module o) t es
             = Raise e).
  { intros t es. unfold _rewrite_source, _parse_toplevel_imports.
    rewrite He. reflexivity. }
  destruct (keep_unused o); [simpl in Hk; rewrite Hk|];
    rewrite bind_Ok, Hparse; reflexivity.
Qed.

End Main.

Definition two_files : Sample.disk :=
  [("a.py", ["import os" +:+ newline; "x = 1" +:+ newline]);
   ("b.py", ["y = 2" +:+ newline])].

Definition stats_only (files : list string) : options :=
  mk_options "" false None true false true files.

Lemma main_writes_files_only_in_place_witness :
  (statsonly (stats_only ["a.py"; "b.py"]) = true
   \/ inplace (stats_only ["a.py"; "b.py"]) = false)
  /\ run_fs _ (Sample.run_main id (stats_only ["a.py"; "b.py"]) two_files).1
     = two_files.
Proof.
  split; [left; reflexivity|].
  apply (main_writes_files_only_in_place Sample.ast_parse Sample.Checker
           Sample.star_names Sample.STDLIB_NAMES id Sample.Differ_compare
           Sample.disk Sample.fs_read Sample.fs_write).
  left. reflexivity.
Defined.

Definition to_stdout (files : list string) : options :=
  mk_options "" false None false false false files.

(** The unused import of the first file is not in the text printed for
    it. *)
Lemma main_reports_every_file_witness :
  (Sample.run_main id (to_stdout ["a.py"; "b.py"]) two_files).2 = None
  /\ omap printed
       (run_events _ (Sample.run_main id (to_stdout ["a.py"; "b.py"]) two_files).1)
     = ["x = 1" +:+ newline; "y = 2" +:+ newline]
  /\ omap status_file
       (run_events _ (Sample.run_main id (to_stdout ["a.py"; "b.py"]) two_files).1)
     = ["a.py"; "b.py"]
  /\ length (omap printed
               (run_events _
                  (Sample.run_main id (to_stdout ["a.py"; "b.py"]) two_files).1))
     = 2%nat
  /\ Ok <$> omap printed
              (run_events _
                 (Sample.run_main id (to_stdout ["a.py"; "b.py"]) two_files).1)
     = rewritten_text Sample.ast_parse Sample.Checker Sample.star_names
         Sample.STDLIB_NAMES id Sample.Differ_compare Sample.disk Sample.fs_read
         (to_stdout ["a.py"; "b.py"]) None two_files
         <$> ["a.py"; "b.py"].
Proof.
  assert (H : (Sample.run_main id (to_stdout ["a.py"; "b.py"]) two_files).2 = None)
    by (vm_compute; reflexivity).
  split; [exact H|]. split; [vm_compute; reflexivity|].
  exact (main_reports_every_file Sample.ast_parse Sample.Checker
           Sample.star_names Sample.STDLIB_NAMES id Sample.Differ_compare
           Sample.disk Sample.fs_read Sample.fs_write
           (to_stdout ["a.py"; "b.py"]) two_files H).
Defined.

Definition in_place (files : list string) : options :=
  mk_options "" false None false false true files.

(** The first file is rewritten in place before the second one, which does
    not exist, is opened; the third one is not read. *)
Lemma main_stops_at_the_first_exception_witness :
  (Sample.run_main id (in_place ["a.py"; "missing.py"; "b.py"]) two_files).2
  = Some IOError
  /\ omap status_file
       (run_events _
          (Sample.run_main id (in_place ["a.py"; "missing.py"; "b.py"])
             two_files).1)
     = ["a.py"].
Proof.
  pose (o := in_place ["a.py"; "missing.py"; "b.py"]).
  pose (r0 := mk_run Sample.disk two_files [] None).
  pose (r1 := (main_loop Sample.ast_parse Sample.Checker Sample.star_names
                 Sample.STDLIB_NAMES id Sample.Differ_compare Sample.disk
                 Sample.fs_read Sample.fs_write o ["a.py"] r0).1).
  assert (H1 : main_loop Sample.ast_parse Sample.Checker Sample.star_names
                 Sample.STDLIB_NAMES id Sample.Differ_compare Sample.disk
                 Sample.fs_read Sample.fs_write o ["a.py"] r0 = (r1, None))
    by (vm_compute; reflexivity).
  assert (H2 : main_file Sample.ast_parse Sample.Checker Sample.star_names
                 Sample.STDLIB_NAMES id Sample.Differ_compare Sample.disk
                 Sample.fs_read Sample.fs_write o r1 "missing.py" = Raise IOError)
    by (vm_compute; reflexivity).
  assert (E : Sample.run_main id o two_files = (r1, Some IOError))
    by exact (main_stops_at_the_first_exception Sample.ast_parse Sample.Checker
                Sample.star_names Sample.STDLIB_NAMES id Sample.Differ_compare
                Sample.disk Sample.fs_read Sample.fs_write
                o ["a.py"] ["b.py"] "missing.py" r0 r1 IOError H1 H2).
  fold o. rewrite E. split; [reflexivity | vm_compute; reflexivity].
Defined.

Lemma keep_unused_with_threshold_is_refused_witness :
  Sample.run_main id (mk_options "" true (Some 5) false false false ["a.py"])
    two_files
  = (mk_run _ two_files [] (Some 5), Some conflict).
Proof.
  apply (keep_unused_with_threshold_is_refused Sample.ast_parse Sample.Checker
           Sample.star_names Sample.STDLIB_NAMES id Sample.Differ_compare
           Sample.disk Sample.fs_read Sample.fs_write
           (mk_options "" true (Some 5) false false false ["a.py"]) two_files
           5 "a.py" [] ["import os" +:+ newline; "x = 1" +:+ newline]);
    (reflexivity || discriminate).
Defined.

(** A file that does not exist; and, with a parser that accepts no text,
    a file that does not parse, with [-k]. *)
Lemma main_fails_on_the_first_file_witness :
  Sample.run_main id (in_place ["missing.py"; "a.py"]) two_files
  = (mk_run _ two_files [] None, Some IOError)
  /\ main (fun _ => Raise SyntaxError) Sample.Checker Sample.star_names
       Sample.STDLIB_NAMES id Sample.Differ_compare Sample.disk Sample.fs_read
       Sample.fs_write (mk_options "" true None false false false ["a.py"; "b.py"])
       two_files
     = (mk_run _ two_files [] None, Some SyntaxError).
Proof.
  split.
  - apply (main_fails_on_the_first_file Sample.ast_parse Sample.Checker
             Sample.star_names Sample.STDLIB_NAMES id Sample.Differ_compare
             Sample.disk Sample.fs_read Sample.fs_write
             (in_place ["missing.py"; "a.py"]) two_files "missing.py" ["a.py"]
             IOError); reflexivity.
  - apply (main_fails_on_the_first_file (fun _ => Raise SyntaxError)
             Sample.Checker Sample.star_names Sample.STDLIB_NAMES id
             Sample.Differ_compare Sample.disk Sample.fs_read Sample.fs_write
             (mk_options "" true None false false false ["a.py"; "b.py"])
             two_files "a.py" ["b.py"] SyntaxError); [reflexivity|].
    split; reflexivity.
Defined.

(** ** What [_parse_toplevel_imports] returns *)

Lemma mapM_Forall2 {A B : Type} (f : A -> result B) (l : list A) (l' : list B) :
  mapM f l = Ok l' -> Forall2 (fun x y => f x = Ok y) l l'.
Proof.
  revert l'. induction l as [|x l IH]; simpl; intros l' H.
  - injection H as <-. constructor.
  - apply bind_inv in H as (y & Hy & H). apply bind_inv in H as (ys & Hys & H).
    injection H as <-. constructor; auto.
Qed.

Lemma toplevel_import_lineno (pn : option ast * ast) (n : import_node) :
  toplevel_import pn = Some n -> node_lineno pn.2 = Some (lineno n).
Proof.
  unfold toplevel_import. destruct pn.2 as [|[ns|m lv ns| |] line cs|]; try discriminate;
    destruct (is_module pn.1); try discriminate; intros [= <-]; reflexivity.
Qed.

Lemma mark_directives_inv (source_lines : list string) (n0 n : import_node) :
  mark_directives source_lines n0 = Ok n ->
  lineno n = lineno n0 /\ names n = names n0 /\ kind n = kind n0
  /\ (nosort n = true -> noqa n = true)
  /\ is_ok (py_index source_lines (lineno n - 1)) = true.
Proof.
  unfold mark_directives. intros H. apply bind_inv in H as (line & Hl & H).
  destruct (match_noqa (rstrip line)); injection H as <-; simpl; rewrite Hl;
    repeat split; auto.
Qed.

(** X21: every declaration that [_parse_toplevel_imports] returns is on a
    line of the text and on a line that carries code, and it is flagged
    [nosort] only when it is flagged [noqa]; the warnings are returned
    exactly when they are asked for. *)
Theorem parse_toplevel_imports_flags_and_lines
    (ast_parse : string -> result ast) (Checker : ast -> list message)
    (source_lines : list string) (drill_for_warnings : bool)
    (imports : list import_node) (warnings_set : option (gset (string * Z)))
    (lines_with_code : gset Z) :
  _parse_toplevel_imports ast_parse Checker source_lines drill_for_warnings
  = Ok (imports, warnings_set, lines_with_code) ->
  Forall (fun n => lineno n ∈ lines_with_code
                   /\ is_ok (py_index source_lines (lineno n - 1)) = true
                   /\ (nosort n = true -> noqa n = true)) imports
  /\ match warnings_set with
     | Some _ => drill_for_warnings = true
     | None => drill_for_warnings = false
     end.
Proof.
  unfold _parse_toplevel_imports. intros H.
  apply bind_inv in H as (tree & _ & H). cbv zeta in H.
  apply bind_inv in H as (w & Hw & H).
  apply bind_inv in H as (marked & Hm & H). injection H as <- <- <-. split.
  - apply mapM_Forall2 in Hm.
    assert (Hraw : Forall (fun n0 => lineno n0 ∈
                      (list_to_set (omap (fun pn => node_lineno pn.2) (walk tree))
                       : gset Z))
                     (omap toplevel_import (walk tree))).
    { apply Forall_forall. intros n0 Hn0.
      apply list_elem_of_omap in Hn0 as (pn & Hpn & Htop).
      apply elem_of_list_to_set, list_elem_of_omap. exists pn.
      split; [exact Hpn|]. apply toplevel_import_lineno. exact Htop. }
    induction Hm as [|n0 n l l' Hn _ IH]; [constructor|].
    apply Forall_cons in Hraw as [Hn0 Hraw].
    apply mark_directives_inv in Hn as (Hl & _ & _ & Hf & Hi).
    constructor; [|exact (IH Hraw)].
    rewrite Hl in Hi |- *. repeat split; assumption.
  - destruct drill_for_warnings.
    + apply fmap_inv in Hw as (ws & _ & ->). reflexivity.
    + injection Hw as <-. reflexivity.
Qed.

Lemma parse_toplevel_imports_flags_and_lines_witness :
  _parse_toplevel_imports Sample.ast_parse Sample.Checker
    ["import os  # noqa nosort"; "x = 1"] false
  = Ok ([mk_import Import None 0 [mk_alias "os" None] 1 true true], None,
        {[1; 2]})
  /\ Forall (fun n => lineno n ∈ ({[1; 2]} : gset Z)
                      /\ is_ok (py_index ["import os  # noqa nosort"; "x = 1"]
                                  (lineno n - 1)) = true
                      /\ (nosort n = true -> noqa n = true))
       [mk_import Import None 0 [mk_alias "os" None] 1 true true].
Proof.
  assert (H : _parse_toplevel_imports Sample.ast_parse Sample.Checker
                ["import os  # noqa nosort"; "x = 1"] false
              = Ok ([mk_import Import None 0 [mk_alias "os" None] 1 true true],
                    None, {[1; 2]})) by (vm_compute; reflexivity).
  split; [exact H|].
  exact (proj1 (parse_toplevel_imports_flags_and_lines _ _ _ _ _ _ _ H)).
Defined.

(** ** A file without imports at the top level *)

Lemma kept_all (source_lines : list string) (k : Z) :
  kept ∅ (enumerate k source_lines) = map rstrip source_lines.
Proof.
  unfold kept. revert k. induction source_lines as [|line lines IH]; intros k;
    simpl; [reflexivity|].
  rewrite bool_decide_eq_false_2 by apply not_elem_of_empty. simpl.
  f_equal. apply IH.
Qed.

Lemma write_source_nothing (source_lines : list string)
    (grouped_imports : list (list import_node)) :
  _write_source source_lines grouped_imports ∅ 0 = Ok (map rstrip source_lines).
Proof.
  rewrite write_source_spec. simpl. unfold before, from.
  rewrite filter_none, filter_all.
  - simpl. f_equal. apply kept_all.
  - intros p Hp. apply enumerate_lower in Hp. apply Z.leb_le. lia.
  - intros p Hp. apply enumerate_lower in Hp. apply Z.ltb_ge. lia.
Qed.

(** X22: when the first parse finds no import at the top level, the text
    returned is the text given with the trailing white space of each line
    removed, whatever the later stages find. *)
Theorem rewrite_source_without_imports
    (ast_parse : string -> result ast) (Checker : ast -> list message)
    (star_names : option string -> result (list string))
    (STDLIB_NAMES : gset string)
    (set_iter : list import_node -> list import_node)
    (Differ_compare : list string -> list string -> list string)
    (source_lines : list string) (local_modules : string)
    (keep_threshhold : option Z) (expand_stars : bool)
    (parsed : list import_node * option (gset (string * Z)) * gset Z)
    (out : list string) (st : stats) :
  _parse_toplevel_imports ast_parse Checker source_lines false = Ok parsed ->
  parsed.1.1 = [] ->
  _rewrite_source ast_parse Checker star_names STDLIB_NAMES set_iter
    Differ_compare source_lines local_modules keep_threshhold expand_stars
  = Ok (out, st) ->
  out = map rstrip source_lines.
Proof.
  intros Hp Hnil H. unfold _rewrite_source in H. rewrite Hp in H.
  rewrite bind_Ok in H. cbv zeta in H. rewrite Hnil in H.
  change (_get_import_discard_lines source_lines [] parsed.2)
    with (Ok (∅ : gset Z)) in H.
  rewrite bind_Ok in H.
  apply bind_inv in H as (flat & _ & H).
  apply bind_inv in H as (deduped & _ & H).
  apply bind_inv in H as (on_singleline & _ & H).
  apply bind_inv in H as (parsed2 & _ & H).
  apply bind_inv in H as (warnings & _ & H).
  apply bind_inv in H as (gs & _ & H).
  rewrite write_source_nothing in H. rewrite bind_Ok in H.
  injection H as <- _. reflexivity.
Qed.

Lemma rewrite_source_without_imports_witness :
  _parse_toplevel_imports Sample.ast_parse Sample.Checker
    ["x = 1  "; "if x:"; "    import os"] false
  = Ok ([], None, {[1; 2; 3]})
  /\ fst <$> Sample.rewrite id ["x = 1  "; "if x:"; "    import os"] "" None
     = Ok (map rstrip ["x = 1  "; "if x:"; "    import os"]).
Proof.
  assert (H : _parse_toplevel_imports Sample.ast_parse Sample.Checker
                ["x = 1  "; "if x:"; "    import os"] false
              = Ok ([], None, {[1; 2; 3]})) by (vm_compute; reflexivity).
  split; [exact H|].
  destruct (Sample.rewrite id ["x = 1  "; "if x:"; "    import os"] "" None)
    as [[out st]|e] eqn:E; [|vm_compute in E; discriminate].
  simpl. f_equal.
  exact (rewrite_source_without_imports Sample.ast_parse Sample.Checker
           Sample.star_names Sample.STDLIB_NAMES id Sample.Differ_compare
           _ "" None false _ out st H eq_refl E).
Defined.

(** ** Lines that the rewrite keeps *)







(** ** Local prefixes *)

Lemma prefix_append (m suffix : string) : String.prefix m (m +:+ suffix) = true.
Proof.
  induction m as [|c m IH]; [destruct suffix; reflexivity|].
  change (String.prefix (String c m) (String c m +:+ suffix))
    with (if ascii_dec c c then String.prefix m (m +:+ suffix) else false).
  destruct (ascii_dec c c); [exact IH | contradiction].
Qed.

Lemma is_local_prefix_In (local_modules : list string) (m suffix : string) :
  In m local_modules -> m <> "" ->
  is_local_prefix local_modules (m +:+ suffix) = true.
Proof.
  intros Hin Hne. unfold is_local_prefix. apply existsb_exists. exists m.
  split; [exact Hin|]. unfold startswith. rewrite prefix_append.
  destruct m; [contradiction | reflexivity].
Qed.

(** X24: a local prefix is matched against the first characters of the name,
    not against its dotted components, and before the table of the standard
    library is looked at: any declaration that is not flagged [nosort] and
    whose name (of a direct import) or module (of an absolute from-import)
    starts with a prefix given with [-m] goes to the local group. *)
Theorem local_prefix_is_matched_by_characters (STDLIB_NAMES : gset string)
    (set_iter : list import_node -> list import_node)
    (imports : list import_node) (local_modules : string) (gs : groups)
    (n : import_node) (a : alias) (m suffix : string) :
  (forall l, Permutation (set_iter l) l) ->
  _get_import_groups STDLIB_NAMES set_iter imports local_modules = Ok gs ->
  In n imports -> names n = [a] -> nosort n = false ->
  In m (split "," local_modules) -> m <> "" ->
  match kind n with
  | Import => name a = m +:+ suffix
  | ImportFrom => level n <= 0 /\ module n = Some (m +:+ suffix)
  end ->
  In n (locals_ gs).
Proof.
  intros Hperm Hgs Hn Ha Hs Hm Hne Hk.
  unfold _get_import_groups in Hgs. rewrite group_loop_spec in Hgs.
  destruct (forallb single_named imports); [|discriminate].
  cbv beta iota delta [mbind result_bind] in Hgs. injection Hgs as <-.
  cbn [locals_]. unfold sorted_set.
  apply (Permutation_in n (Permutation_sym (sorted_perm node_key _))).
  apply (Permutation_in n (Permutation_sym (Hperm _))).
  apply filter_In. split; [exact Hn|]. apply bool_decide_eq_true_2.
  unfold class_of, classify. rewrite Ha, Hs.
  destruct (kind n).
  - rewrite Hk, (is_local_prefix_In _ _ _ Hm Hne). reflexivity.
  - destruct Hk as [Hl Hmod]. rewrite Hmod.
    destruct (Z.ltb_spec 0 (level n)); [reflexivity|].
    cbn [or_empty]. rewrite (is_local_prefix_In _ _ _ Hm Hne), orb_true_r.
    reflexivity.
Qed.

Lemma local_prefix_is_matched_by_characters_witness :
  (forall l : list import_node, Permutation (id l) l)
  /\ _get_import_groups Sample.STDLIB_NAMES id
       [mk_import Import None 0 [mk_alias "os" None] 1 false false] "o"
     = Ok (mk_groups [] [] [] []
             [mk_import Import None 0 [mk_alias "os" None] 1 false false])
  /\ In (mk_import Import None 0 [mk_alias "os" None] 1 false false)
       (locals_ (mk_groups [] [] [] []
                   [mk_import Import None 0 [mk_alias "os" None] 1 false false])).
Proof.
  assert (Hp : forall l : list import_node, Permutation (id l) l)
    by (intros l; reflexivity).
  assert (H : _get_import_groups Sample.STDLIB_NAMES id
                [mk_import Import None 0 [mk_alias "os" None] 1 false false] "o"
              = Ok (mk_groups [] [] [] []
                      [mk_import Import None 0 [mk_alias "os" None] 1 false false]))
    by (vm_compute; reflexivity).
  split; [exact Hp|]. split; [exact H|].
  apply (local_prefix_is_matched_by_characters Sample.STDLIB_NAMES id
           _ "o" _ _ (mk_alias "os" None) "o" "s" Hp H);
    [left; reflexivity | reflexivity | reflexivity | left; reflexivity
    | discriminate | reflexivity].
Defined.

(** ** A threshold of zero *)

(** The sign of a float; a NaN has none. *)
Definition sign_bit (x : spec_float) : bool :=
  match x with
  | S754_zero s | S754_infinity s | S754_finite s _ _ => s
  | S754_nan => false
  end.

Lemma sign_binary_round_aux (sx : bool) (mx ex : Z) (lx : location) :
  sign_bit (binary_round_aux prec emax sx mx ex lx) = false
  \/ sign_bit (binary_round_aux prec emax sx mx ex lx) = sx.
Proof.
  unfold binary_round_aux.
  destruct (shr_fexp prec emax mx ex lx) as [mrs' e'].
  destruct (shr_fexp prec emax _ e' loc_Exact) as [mrs'' e''].
  destruct (shr_m mrs''); [auto | | auto].
  destruct (Z.leb e'' (emax - prec)); auto.
Qed.

Lemma sign_binary_round (sx : bool) (mx : positive) (ex : Z) :
  sign_bit (binary_round prec emax sx mx ex) = false
  \/ sign_bit (binary_round prec emax sx mx ex) = sx.
Proof.
  unfold binary_round. destruct (shl_align _ _ _) as [mz ez].
  apply sign_binary_round_aux.
Qed.

Lemma sign_binary_normalize (z : Z) :
  0 <= z -> sign_bit (binary_normalize prec emax z 0 false) = false.
Proof.
  intros Hz. destruct z as [|p|p]; [reflexivity | | lia]. simpl.
  destruct (sign_binary_round false p 0); assumption.
Qed.

Lemma sign_SFldexp (x : spec_float) (e : Z) :
  sign_bit x = false -> sign_bit (SFldexp prec emax x e) = false.
Proof.
  destruct x as [s|s| |s m ex]; simpl; auto. intros ->.
  destruct (sign_binary_round false m (ex + e)); assumption.
Qed.

Lemma sign_SF2Prim (x : spec_float) :
  sign_bit x = false -> sign_bit (Prim2SF (SF2Prim x)) = false.
Proof.
  destruct x as [s|s| |s m e]; simpl; intros Hs; try subst s; try reflexivity.
  rewrite Z_ldexp_spec, of_uint63_spec.
  apply sign_SFldexp, sign_binary_normalize.
  apply Uint63.to_Z_bounded.
Qed.

Lemma sign_float_of_Z (z : Z) :
  0 <= z -> sign_bit (Prim2SF (float_of_Z z)) = false.
Proof.
  intros Hz. apply sign_SF2Prim, sign_binary_normalize, Hz.
Qed.

Lemma sign_div (x y : float) :
  sign_bit (Prim2SF x) = false -> sign_bit (Prim2SF y) = false ->
  sign_bit (Prim2SF (x / y)) = false.
Proof.
  rewrite div_spec. unfold SF64div, SFdiv.
  destruct (Prim2SF x) as [sx|sx| |sx mx ex], (Prim2SF y) as [sy|sy| |sy my ey];
    simpl; intros Hx Hy; try subst sx; try subst sy; try reflexivity.
  destruct (SFdiv_core_binary _ _ _ _ _ _) as [[mz ez] lz].
  destruct (sign_binary_round_aux (xorb false false) mz ez lz); assumption.
Qed.

Lemma sign_mul (x y : float) :
  sign_bit (Prim2SF x) = false -> sign_bit (Prim2SF y) = false ->
  sign_bit (Prim2SF (x * y)) = false.
Proof.
  rewrite mul_spec. unfold SF64mul, SFmul.
  destruct (Prim2SF x) as [sx|sx| |sx mx ex], (Prim2SF y) as [sy|sy| |sy my ey];
    simpl; intros Hx Hy; try subst sx; try subst sy; try reflexivity.
  destruct (sign_binary_round_aux (xorb false false) (Z.pos (mx * my)) (ex + ey)
              loc_Exact); assumption.
Qed.

(** A float that is not negative is not below an integer that is not
    positive. *)
Lemma float_lt_Z_nonneg (f : float) (z : Z) :
  sign_bit (Prim2SF f) = false -> z <= 0 -> float_lt_Z f z = false.
Proof.
  unfold float_lt_Z. destruct (Prim2SF f) as [s|s| |s m e]; simpl;
    intros Hs Hz; try subst s; try reflexivity.
  - apply Z.ltb_ge. lia.
  - destruct (Z.leb_spec 0 e).
    + apply Z.ltb_ge. pose proof (Z.pow_pos_nonneg 2 e). nia.
    + apply Z.ltb_ge. pose proof (Z.pow_pos_nonneg 2 (- e)). nia.
Qed.

Lemma density_not_negative (n : nat) (st : stats) (lines_with_code : gset Z)
    (t : Z) :
  0 <= Z.of_nat n + star_imports_removed st - names_from_star st ->
  t <= 0 ->
  pynum_lt_Z (density n st lines_with_code) t = false.
Proof.
  intros Hn Ht. unfold density.
  destruct (bool_decide (lines_with_code = ∅)); simpl.
  - apply Z.ltb_ge. exact Ht.
  - apply float_lt_Z_nonneg; [|exact Ht].
    apply sign_mul; [apply sign_div|]; apply sign_float_of_Z; lia.
Qed.

(** X25: with a threshold that is not positive, as the 0 that [-k] sets, the
    remover is skipped and the declarations are left as they are, provided
    the count of declarations with the stars put back is not negative,
    which holds when no star was expanded. *)
Theorem threshold_zero_keeps_every_import (keep_threshhold : Z)
    (original_imports : nat) (imports : list import_node)
    (warnings : gset (string * Z)) (lines_with_code : gset Z) (st : stats) :
  keep_threshhold <= 0 ->
  0 <= Z.of_nat (length imports) + star_imports_removed st - names_from_star st ->
  (remove_stage (Some keep_threshhold) original_imports imports warnings
     lines_with_code st).1 = imports
  /\ removed_imports
       (remove_stage (Some keep_threshhold) original_imports imports warnings
          lines_with_code st).2 = removed_imports st.
Proof.
  intros Ht Hn. unfold remove_stage. cbv zeta. unfold remover_enabled.
  rewrite (density_not_negative _ _ _ _ Hn Ht). split; reflexivity.
Qed.

Lemma threshold_zero_keeps_every_import_witness :
  (0 <= 0
   /\ 0 <= Z.of_nat (length [from_a_x 1]) + star_imports_removed stats0
           - names_from_star stats0)
  /\ (remove_stage (Some 0) 1 [from_a_x 1] {[ ("a.x", 1) ]} {[1; 2]}
        stats0).1 = [from_a_x 1].
Proof.
  assert (H1 : 0 <= 0) by lia.
  assert (H2 : 0 <= Z.of_nat (length [from_a_x 1]) + star_imports_removed stats0
                    - names_from_star stats0) by (simpl; lia).
  split; [split; assumption|].
  exact (proj1 (threshold_zero_keeps_every_import 0 1 [from_a_x 1]
                  {[ ("a.x", 1) ]} {[1; 2]} stats0 H1 H2)).
Defined.

(** ** The first component of a dotted name *)

Definition dot_free (s : string) : bool :=
  forallb (fun c => negb (Ascii.eqb c ".")) (list_ascii_of_string s).

Lemma rev_app_rev_app (a b c : string) :
  String.rev_app (String.rev_app a b) c = String.rev_app b (a +:+ c).
Proof.
  revert b c. induction a as [|x a IH]; intros b c; [reflexivity|].
  change (String.rev_app (String x a) b) with (String.rev_app a (String x b)).
  rewrite IH. reflexivity.
Qed.

Lemma append_empty_r (a : string) : a +:+ "" = a.
Proof. induction a as [|x a IH]; [reflexivity|]. exact (f_equal (String x) IH). Qed.

Lemma split_aux_first (m rest cur : string) :
  dot_free m = true ->
  split_aux "." (m +:+ String "." rest) cur
  = String.rev (String.rev_app m cur) :: split_aux "." rest ""
  /\ split_aux "." m cur = [String.rev (String.rev_app m cur)].
Proof.
  revert cur. induction m as [|c m IH]; intros cur H.
  - split; reflexivity.
  - change (dot_free (String c m))
      with (negb (Ascii.eqb c ".") && dot_free m) in H.
    apply andb_prop in H as [Hc Hm]. apply negb_true_iff in Hc.
    change (String c m +:+ String "." rest) with (String c (m +:+ String "." rest)).
    cbn [split_aux]. rewrite Hc.
    destruct (IH (String c cur) Hm) as [H1 H2]. rewrite H1, H2.
    split; reflexivity.
Qed.

(** X26: [_is_std_lib] looks up the text before the first dot: a dotted name
    is in the standard library exactly when its first component is in the
    table. *)
Theorem is_std_lib_reads_the_first_component (STDLIB_NAMES : gset string)
    (m rest : string) :
  dot_free m = true ->
  _is_std_lib STDLIB_NAMES (m +:+ String "." rest)
  = bool_decide (m ∈ STDLIB_NAMES)
  /\ _is_std_lib STDLIB_NAMES m = bool_decide (m ∈ STDLIB_NAMES).
Proof.
  intros H. unfold _is_std_lib, split.
  destruct (split_aux_first m rest "" H) as [-> ->].
  unfold String.rev. rewrite rev_app_rev_app. simpl.
  rewrite append_empty_r. split; reflexivity.
Qed.

Lemma is_std_lib_reads_the_first_component_witness :
  dot_free "os" = true
  /\ _is_std_lib Sample.STDLIB_NAMES "os.path" = true
  /\ _is_std_lib Sample.STDLIB_NAMES "os" = true.
Proof.
  split; [reflexivity|].
  destruct (is_std_lib_reads_the_first_component Sample.STDLIB_NAMES "os" "path"
              eq_refl) as [H1 H2].
  split; (etransitivity; [first [exact H1 | exact H2] | vm_compute; reflexivity]).
Defined.
